(** * veidemann-frontier-queue-workers: the reconciliation operations of
    [database/database.go] and the delayed-move script
    [lua/chg_delayed_queue.lua], embedded over a model of the two stores.

    The queue store (Redis) is a keyspace [gmap string rvalue]; the durable
    store (RethinkDB) is a map of tables.  Every Go function that talks to a
    store is a state transformer on [world]; a Go result [(v, err)] is the
    pair [(v, Some e)] or [(v, None)].  Store failures are scripted by the two
    [*_net] fields of the world, and every round trip is appended to [calls].

    Go [int]/[int64] values are [Z] (the counters stay far below 2^63).
    Sorted-set scores are IEEE doubles in Redis; the scores used here are
    millisecond time stamps, which are integers below 2^53, so they are [Z].

    Where Go and Redis leave an order open (a [range] over a map, the reply
    of KEYS), the entries come in the order of [map_to_list].  A Go function
    is one state transformer: what other clients do to the stores between
    two of its round trips is not part of the model. *)

From Stdlib Require Import ZArith List Ascii String Lia.
From stdpp Require Import base list strings gmap fin_maps.

Local Open Scope Z_scope.

(** ** Errors *)

(** Go errors.  The three sentinels are the ones the code compares against
    by identity; [Foreign] is any other error of a client library;
    [Errorf] is a [fmt.Errorf] call with its format string and arguments. *)
Inductive error : Type :=
| RedisNil
| ErrQueryTimeout
| ErrConnectionClosed
| Foreign (msg : string)
| Errorf (format : string) (args : list arg)
with arg : Type :=
| AErr (e : error)
| AInt (n : Z)
| AStr (s : string).

(** ** The queue store *)

Inductive rvalue : Type :=
| RList (l : list string)
| RZSet (z : list (string * Z))
| RHash (h : gmap string string).

Abbreviation keyspace := (gmap string rvalue).

(** Round trips to either store, as they are issued. *)
Inductive call : Type :=
| CLRange (key : string) (start stop : Z)
| CLPop (key : string)
| CRPush (key value : string)
| CPipelineLRem (cmds : list (string * Z * string))
| CRunScript (keys : list string) (argv : list Z)
| CKeys (pattern : string)
| CExists (key : string)
| CHGetAll (key : string)
| CRunWrite (name : string)
| CWait
| CConnect.

(** The round trips that go to the durable store, and the ones that read
    from the queue store. *)
Definition durable_call (c : call) : bool :=
  match c with
  | CRunWrite _ | CWait | CConnect => true
  | _ => false
  end.

Definition queue_read (c : call) : bool :=
  match c with
  | CLRange _ _ _ | CLPop _ | CKeys _ | CExists _ | CHGetAll _ | CRunScript _ _ => true
  | _ => false
  end.

Module Redis.

Definition WRONGTYPE : error :=
  Foreign "WRONGTYPE Operation against a key holding the wrong kind of value".

(** A key whose container becomes empty is removed from the keyspace. *)
Definition put_list (key : string) (l : list string) (kv : keyspace) : keyspace :=
  match l with
  | [] => delete key kv
  | _ => <[key := RList l]> kv
  end.

Definition put_zset (key : string) (z : list (string * Z)) (kv : keyspace) : keyspace :=
  match z with
  | [] => delete key kv
  | _ => <[key := RZSet z]> kv
  end.

(** The contents of a key read as a list / as a sorted set; a missing key
    reads as the empty container. *)
Definition list_at (kv : keyspace) (key : string) : list string :=
  match kv !! key with
  | Some (RList l) => l
  | _ => []
  end.

Definition zset_at (kv : keyspace) (key : string) : list (string * Z) :=
  match kv !! key with
  | Some (RZSet z) => z
  | _ => []
  end.

Definition holds_list (kv : keyspace) (key : string) : bool :=
  match kv !! key with
  | None | Some (RList _) => true
  | _ => false
  end.

Definition holds_zset (kv : keyspace) (key : string) : bool :=
  match kv !! key with
  | None | Some (RZSet _) => true
  | _ => false
  end.

(** LRANGE on a list of length [len]: negative indexes count from the
    tail, out-of-range indexes are clamped. *)
Definition lrange (l : list string) (start stop : Z) : list string :=
  let len := Z.of_nat (length l) in
  let start := if start <? 0 then Z.max 0 (start + len) else start in
  let stop := if stop <? 0 then stop + len else stop in
  let stop := Z.min stop (len - 1) in
  if (stop <? start) || (len <=? start) then []
  else take (Z.to_nat (stop - start + 1)) (drop (Z.to_nat start) l).

(** LREM removes the first [count] occurrences (head to tail) when
    [count > 0], the last [-count] when [count < 0], all when [count = 0]. *)
Fixpoint lrem_first (n : nat) (v : string) (l : list string) : list string :=
  match n, l with
  | O, _ => l
  | _, [] => []
  | S n', x :: l' =>
      if decide (x = v) then lrem_first n' v l' else x :: lrem_first n v l'
  end.

Definition lrem (count : Z) (v : string) (l : list string) : list string :=
  if count =? 0 then filter (λ x, x ≠ v) l
  else if 0 <? count then lrem_first (Z.to_nat count) v l
  else rev (lrem_first (Z.to_nat (- count)) v (rev l)).

(** The commands, on the keyspace alone. *)
Definition LRANGE (key : string) (start stop : Z) (kv : keyspace)
  : (error + list string) * keyspace :=
  match kv !! key with
  | None => (inr [], kv)
  | Some (RList l) => (inr (lrange l start stop), kv)
  | Some _ => (inl WRONGTYPE, kv)
  end.

Definition LPOP (key : string) (kv : keyspace) : (error + string) * keyspace :=
  match kv !! key with
  | None | Some (RList []) => (inl RedisNil, kv)
  | Some (RList (x :: l)) => (inr x, put_list key l kv)
  | Some _ => (inl WRONGTYPE, kv)
  end.

Definition RPUSH (key value : string) (kv : keyspace) : (error + Z) * keyspace :=
  match kv !! key with
  | None => (inr 1, put_list key [value] kv)
  | Some (RList l) =>
      (inr (Z.of_nat (length l) + 1), put_list key (l ++ [value]) kv)
  | Some _ => (inl WRONGTYPE, kv)
  end.

Definition LREM (key : string) (count : Z) (value : string) (kv : keyspace)
  : (error + Z) * keyspace :=
  match kv !! key with
  | None => (inr 0, kv)
  | Some (RList l) =>
      let l' := lrem count value l in
      (inr (Z.of_nat (length l) - Z.of_nat (length l')), put_list key l' kv)
  | Some _ => (inl WRONGTYPE, kv)
  end.

(** A sorted set is kept as its entries [(member, score)] in the store's
    iteration order: ascending score, ties in the store's own order. *)
Definition in_range (min max : Z) (e : string * Z) : bool :=
  (min <=? e.2) && (e.2 <=? max).

Definition ZRANGEBYSCORE (key : string) (min max : Z) (kv : keyspace)
  : (error + list string) * keyspace :=
  match kv !! key with
  | None => (inr [], kv)
  | Some (RZSet z) => (inr (List.filter (in_range min max) z).*1, kv)
  | Some _ => (inl WRONGTYPE, kv)
  end.

Definition zrem (member : string) (z : list (string * Z)) : list (string * Z) :=
  List.filter (λ e, negb (String.eqb e.1 member)) z.

Definition ZREM (key member : string) (kv : keyspace) : (error + Z) * keyspace :=
  match kv !! key with
  | None => (inr 0, kv)
  | Some (RZSet z) =>
      let z' := zrem member z in
      (inr (Z.of_nat (length z) - Z.of_nat (length z')), put_zset key z' kv)
  | Some _ => (inl WRONGTYPE, kv)
  end.

Definition zrem_all (members : list string) (z : list (string * Z))
  : list (string * Z) :=
  fold_left (λ z m, zrem m z) members z.

(** The representation invariant of a sorted set: members are unique and
    the entries are in ascending score. *)
Fixpoint ascending (scores : list Z) : bool :=
  match scores with
  | [] => true
  | a :: rest => forallb (Z.leb a) rest && ascending rest
  end.

Definition zset_ok (z : list (string * Z)) : bool :=
  bool_decide (NoDup z.*1) && ascending z.*2.

End Redis.

(** ** lua/chg_delayed_queue.lua

    [redis.call] raises on a command error, which ends the script; what the
    script wrote before stays written. *)
Module Lua.

Fixpoint for_ipairs (fromQueueKey toQueueKey : string) (res : list string)
    (moved : Z) (kv : keyspace) : (error + Z) * keyspace :=
  match res with
  | [] => (inr moved, kv)
  | key :: res' =>
      match Redis.ZREM fromQueueKey key kv with
      | (inl e, kv1) => (inl e, kv1)
      | (inr _, kv1) =>
          match Redis.RPUSH toQueueKey key kv1 with
          | (inl e, kv2) => (inl e, kv2)
          | (inr _, kv2) =>
              for_ipairs fromQueueKey toQueueKey res' (moved + 1) kv2
          end
      end
  end.

Definition chg_delayed_queue (fromQueueKey toQueueKey : string)
    (currentTimeMillis : Z) (kv : keyspace) : (error + Z) * keyspace :=
  match Redis.ZRANGEBYSCORE fromQueueKey 0 currentTimeMillis kv with
  | (inl e, kv1) => (inl e, kv1)
  | (inr res, kv1) => for_ipairs fromQueueKey toQueueKey res 0 kv1
  end.

End Lua.

(** ** The durable store *)

(** The values of the fields of a document.  [VStates] is the array of
    one-entry objects that [getJobExecutionStatuses] builds for
    [executionsState].  The map encoding registered in [init] sends a string
    that parses as an RFC 3339 time as a time; the only string the program
    writes is the id of a job execution, taken here not to be such a text,
    so a document is written as it is built. *)
Inductive value : Type :=
| VNull
| VStr (s : string)
| VNum (n : Z)
| VStates (l : list (string * Z)).

#[global] Instance value_eq_dec : EqDecision value.
Proof. solve_decision. Defined.

Abbreviation doc := (gmap string value).
Abbreviation table := (gmap string doc).

(** The fields of [r.WriteResponse] that a write can set here. *)
Record WriteResponse : Type := mkWriteResponse {
  Errors : Z;
  Replaced : Z;
  Unchanged : Z;
  Skipped : Z;
  Deleted : Z;
  FirstError : string
}.

Definition noResponse : WriteResponse := mkWriteResponse 0 0 0 0 0 "".

(** What the next attempt to run a query meets: the server runs it and
    answers, except that the rows whose key is in [bad] report a storage
    error; or the attempt breaks with [e] and no answer, the server having
    run the query ([applied]) or not. *)
Inductive attempt : Type :=
| Served (bad : list string)
| Broken (applied : bool) (e : error).

Module Rethink.

(** What the function given to [Update] returns for a document: [nil]
    (leave it), an object to merge into it, or a run-time error. *)
Inductive updateResult : Type :=
| Nil
| Merge (patch : doc)
| Raise (msg : string).

(** The two shapes of write term the program builds:
    [r.Table(t).Get(key).Update(f)] and [r.Table(t).GetAll(keys...).Delete()]. *)
Inductive term : Type :=
| GetUpdate (tbl : string) (key : option value) (f : doc -> updateResult)
| GetAllDelete (tbl : string) (keys : list string).

Definition rowError (msg : string) (wr : WriteResponse) : WriteResponse :=
  mkWriteResponse (Errors wr + 1) (Replaced wr) (Unchanged wr) (Skipped wr)
    (Deleted wr) (if Errors wr =? 0 then msg else FirstError wr).

Definition storageError : string := "storage error".

(** [update] merges the patch into the stored document; a document equal
    to its merge is counted unchanged, not replaced. *)
Definition updateRow (id : string) (f : doc -> updateResult)
    (bad : list string) (t : table) : WriteResponse * table :=
  match t !! id with
  | None => (mkWriteResponse 0 0 0 1 0 "", t)
  | Some d =>
      if decide (id ∈ bad) then (rowError storageError noResponse, t)
      else match f d with
           | Raise msg => (rowError msg noResponse, t)
           | Nil => (mkWriteResponse 0 0 1 0 0 "", t)
           | Merge patch =>
               let d' := patch ∪ d in
               if decide (d' = d) then (mkWriteResponse 0 0 1 0 0 "", t)
               else (mkWriteResponse 0 1 0 0 0 "", <[id := d']> t)
           end
  end.

Fixpoint deleteRows (keys : list string) (bad : list string)
    (wr : WriteResponse) (t : table) : WriteResponse * table :=
  match keys with
  | [] => (wr, t)
  | id :: keys' =>
      match t !! id with
      | None =>
          deleteRows keys' bad
            (mkWriteResponse (Errors wr) (Replaced wr) (Unchanged wr)
               (Skipped wr + 1) (Deleted wr) (FirstError wr)) t
      | Some _ =>
          if decide (id ∈ bad) then deleteRows keys' bad (rowError storageError wr) t
          else deleteRows keys' bad
                 (mkWriteResponse (Errors wr) (Replaced wr) (Unchanged wr)
                    (Skipped wr) (Deleted wr + 1) (FirstError wr))
                 (delete id t)
      end
  end.

(** One served run of a term.  The tables hold string primary keys, so a
    [Get] with another kind of key selects nothing; a [Get] with no key
    at all is a run-time error of the query. *)
Definition serve (q : term) (bad : list string) (db : gmap string table)
  : (error + WriteResponse) * gmap string table :=
  match q with
  | GetUpdate tbl key f =>
      match db !! tbl, key with
      | None, _ => (inl (Foreign "table does not exist"), db)
      | Some _, (None | Some VNull) =>
          (inl (Foreign "primary key must not be null"), db)
      | Some t, Some (VStr id) =>
          let '(wr, t') := updateRow id f bad t in (inr wr, <[tbl := t']> db)
      | Some _, Some _ => (inr (mkWriteResponse 0 0 0 1 0 ""), db)
      end
  | GetAllDelete tbl keys =>
      match db !! tbl with
      | None => (inl (Foreign "table does not exist"), db)
      | Some t =>
          let '(wr, t') := deleteRows keys bad noResponse t in
          (inr wr, <[tbl := t']> db)
      end
  end.

(** The document stored under [id] in table [tbl], if any. *)
Definition row (db : gmap string table) (tbl id : string) : option doc :=
  match db !! tbl with
  | Some t => t !! id
  | None => None
  end.

End Rethink.

(** ** The world and the monad of the Go functions *)

Record world : Type := World {
  kv : keyspace;
  redis_net : list (option error);
  tables : gmap string table;
  rethink_net : list attempt;
  maxRetries : Z;
  calls : list call
}.

(** [None] is a run that does not return. *)
Definition M (A : Type) : Type := world -> option (A * world).

Definition ret {A : Type} (a : A) : M A := λ w, Some (a, w).

Definition bind {A B : Type} (m : M A) (k : A -> M B) : M B :=
  λ w, match m w with
       | Some (a, w') => k a w'
       | None => None
       end.

Definition diverge {A : Type} : M A := λ _, None.

Notation "'let*' p ':=' m 'in' k" := (bind m (λ p, k))
  (at level 10, p pattern, m at level 100, k at level 200).

Definition record (c : call) : M unit :=
  λ w, Some (tt, World (kv w) (redis_net w) (tables w) (rethink_net w)
                   (maxRetries w) (calls w ++ [c])).

(** The next [n] scripted outcomes of a connection are all successes. *)
Definition served (n : nat) (net : list (option error)) : bool :=
  forallb (λ o, match o with None => true | Some _ => false end) (take n net).

(** The next [n] attempts on the durable store are served without a
    storage error. *)
Definition clean (n : nat) (net : list attempt) : bool :=
  forallb (λ a, match a with Served [] => true | _ => false end) (take n net).

(** A step that leaves the queue store and the configuration alone. *)
Definition keeps_queue_store (w w' : world) : Prop :=
  kv w' = kv w ∧ redis_net w' = redis_net w ∧ maxRetries w' = maxRetries w.

(** A step that leaves the durable store alone. *)
Definition keeps_durable_store (w w' : world) : Prop :=
  tables w' = tables w ∧ rethink_net w' = rethink_net w ∧ maxRetries w' = maxRetries w.

(** One round trip of the queue-store client: the scripted outcome of the
    connection is consumed; a connection error leaves the keyspace alone,
    otherwise the command runs.  On error the Go client hands back the zero
    value of the reply type. *)
Definition roundtrip {A : Type} (c : call) (zero : A)
    (cmd : keyspace -> (error + A) * keyspace) : M (A * option error) :=
  λ w,
    let w0 kv' := World kv' (tail (redis_net w)) (tables w) (rethink_net w)
                    (maxRetries w) (calls w ++ [c]) in
    match head (redis_net w) with
    | Some (Some e) => Some ((zero, Some e), w0 (kv w))
    | _ =>
        match cmd (kv w) with
        | (inl e, kv') => Some ((zero, Some e), w0 kv')
        | (inr a, kv') => Some ((a, None), w0 kv')
        end
    end.

(** [term.RunWrite(session, opts)]: a response with [Errors > 0] comes back
    together with an error made of [FirstError]. *)
Definition RunWrite (q : Rethink.term) : M (WriteResponse * option error) :=
  λ w,
    let w0 db := World (kv w) (redis_net w) db (tail (rethink_net w))
                   (maxRetries w) (calls w) in
    match head (rethink_net w) with
    | Some (Broken applied e) =>
        let db := if applied then (Rethink.serve q [] (tables w)).2 else tables w in
        Some ((noResponse, Some e), w0 db)
    | o =>
        let bad := match o with Some (Served bad) => bad | _ => [] end in
        match Rethink.serve q bad (tables w) with
        | (inl e, db) => Some ((noResponse, Some e), w0 db)
        | (inr wr, db) =>
            if 0 <? Errors wr
            then Some ((wr, Some (Errorf "%s" [AStr (FirstError wr)])), w0 db)
            else Some ((wr, None), w0 db)
        end
    end.

Definition getMaxRetries : M Z := λ w, Some (maxRetries w, w).

(** ** The go-redis client calls the program makes *)
Module Client.

Definition LRange (key : string) (start stop : Z) : M (list string * option error) :=
  roundtrip (CLRange key start stop) [] (Redis.LRANGE key start stop).

Definition LPop (key : string) : M (string * option error) :=
  roundtrip (CLPop key) "" (Redis.LPOP key).

Definition RPush (key value : string) : M (Z * option error) :=
  roundtrip (CRPush key value) 0 (Redis.RPUSH key value).

(** [Pipeline.Exec]: the queued commands all run, in order; the error is
    that of the first command that failed. *)
Fixpoint execLRems (cmds : list (string * Z * string)) (kv : keyspace)
  : (error + unit) * keyspace :=
  match cmds with
  | [] => (inr tt, kv)
  | (key, count, value) :: cmds' =>
      match Redis.LREM key count value kv with
      | (inl e, kv1) => (inl e, (execLRems cmds' kv1).2)
      | (inr _, kv1) => execLRems cmds' kv1
      end
  end.

Definition PipelineExec (cmds : list (string * Z * string)) : M (unit * option error) :=
  roundtrip (CPipelineLRem cmds) tt (execLRems cmds).

(** [Script.Run(client, keys, args...).Int()] for the delayed-move script. *)
Definition RunMoveScript (fromQueue toQueue : string) (now : Z) : M (Z * option error) :=
  roundtrip (CRunScript [fromQueue; toQueue] [now]) 0
    (Lua.chg_delayed_queue fromQueue toQueue now).

(** Glob patterns of [KEYS], without character classes and escapes. *)
Fixpoint glob (p : string) : string -> bool :=
  match p with
  | EmptyString => λ s, match s with EmptyString => true | _ => false end
  | String c p' =>
      if Ascii.eqb c "*" then
        fix star (s : string) : bool :=
          glob p' s || match s with
                       | EmptyString => false
                       | String _ s' => star s'
                       end
      else if Ascii.eqb c "?" then
        λ s, match s with String _ s' => glob p' s' | _ => false end
      else
        λ s, match s with
             | String d s' => Ascii.eqb c d && glob p' s'
             | _ => false
             end
  end.

Definition Keys (pattern : string) : M (list string * option error) :=
  roundtrip (CKeys pattern) []
    (λ kv, (inr (List.filter (glob pattern) (map_to_list kv).*1), kv)).

Definition Exists (key : string) : M (Z * option error) :=
  roundtrip (CExists key) 0
    (λ kv, (inr (match kv !! key with Some _ => 1 | None => 0 end), kv)).

Definition HGetAll (key : string) : M (gmap string string * option error) :=
  roundtrip (CHGetAll key) ∅
    (λ kv, match kv !! key with
           | None => (inr ∅, kv)
           | Some (RHash h) => (inr h, kv)
           | Some _ => (inl Redis.WRONGTYPE, kv)
           end).

End Client.

(** ** database/rethinkdb.go *)

(** [wait] and [Connect] are round trips whose error is only logged. *)
Definition wait : M unit := record CWait.
Definition Connect : M unit := record CConnect.

(** [exec] runs the query under a deadline; whether the deadline strikes is
    part of the scripted outcome of the attempt. *)
Definition exec {A : Type} (q : M A) : M A := q.

(** [execWithRetry], for the write queries: their cursor is always [nil],
    so what is threaded through is the [writeResponse] variable that the
    query closure of [execWrite] assigns. *)
Fixpoint execWithRetry_loop (fuel : nat) (name : string)
    (q : M (WriteResponse * option error)) (attempts : Z)
  : M (WriteResponse * option error) :=
  match fuel with
  | O => diverge
  | S fuel' =>
      let attempts := attempts + 1 in
      let* (wr, err) := exec q in
      match err with
      | None => ret (wr, None)
      | Some e =>
          let out :=
            let* mr := getMaxRetries in
            ret (wr, Some (Errorf "failed to %s after %d of %d attempts: %w"
                             [AStr name; AInt attempts; AInt (mr + 1); AErr e])) in
          let next :=
            let* mr := getMaxRetries in
            if attempts >? mr then out
            else execWithRetry_loop fuel' name q attempts in
          match e with
          | ErrQueryTimeout => let* _ := wait in next
          | ErrConnectionClosed => let* _ := Connect in next
          | _ => out
          end
      end
  end.

Definition execWithRetry (name : string) (q : M (WriteResponse * option error))
  : M (WriteResponse * option error) :=
  let* mr := getMaxRetries in
  execWithRetry_loop (S (Z.to_nat mr)) name q 0.

Definition execWrite (name : string) (q : Rethink.term)
  : M (WriteResponse * option error) :=
  execWithRetry name (let* _ := record (CRunWrite name) in RunWrite q).

(** [strconv.ParseInt(s, 10, 64)]; [None] is a non-nil error. *)
Definition digit (c : ascii) : option Z :=
  let n := Z.of_N (N_of_ascii c) in
  if (48 <=? n) && (n <=? 57) then Some (n - 48) else None.

Fixpoint digits (s : string) (acc : Z) : option Z :=
  match s with
  | EmptyString => Some acc
  | String c s' =>
      match digit c with
      | Some d => digits s' (10 * acc + d)
      | None => None
      end
  end.

Definition ParseInt (s : string) : option Z :=
  let '(neg, body) :=
    match s with
    | String c s' =>
        if Ascii.eqb c "+" then (false, s')
        else if Ascii.eqb c "-" then (true, s')
        else (false, s)
    | EmptyString => (false, s)
    end in
  match body with
  | EmptyString => None
  | _ =>
      match digits body 0 with
      | None => None
      | Some n =>
          let v := if neg : bool then - n else n in
          if (- 2 ^ 63 <=? v) && (v <? 2 ^ 63) then Some v else None
      end
  end.

(** [strings.TrimPrefix] *)
Definition TrimPrefix (s prefix : string) : string :=
  if String.prefix prefix s
  then String.substring (String.length prefix)
         (String.length s - String.length prefix) s
  else s.

(** ** database/database.go *)
Module database.

Definition rethinkDbTableUriQueue : string := "uri_queue".
Definition rethinkDbTableCrawlExecutions : string := "executions".
Definition rethinkDbTableJobExecutions : string := "job_executions".

Definition redisRemoveUriQueue : string := "REMURI".
Definition redisJobExecutionPrefix : string := "JEID:".

Definition redisWaitQueue : string := "chg_wait{chg}".
Definition redisReadyQueue : string := "chg_ready{chg}".
Definition redisBusyQueue : string := "chg_busy{chg}".
Definition redisTimeoutQueue : string := "chg_timeout{chg}".

Definition redisCrawlExecutionRunningQueue : string := "ceid_running".
Definition redisCrawlExecutionTimeoutQueue : string := "ceid_timeout".

(** [frontierV1.CrawlExecutionStatus_ABORTED_TIMEOUT.String()]: the name
    of the enum constant. *)
Definition ABORTED_TIMEOUT : string := "ABORTED_TIMEOUT".

(** [now] is the reading of [time.Now()] in milliseconds. *)
Definition moveChg (fromQueue toQueue : string) (now : Z) : M (Z * option error) :=
  Client.RunMoveScript fromQueue toQueue now.

Definition MoveWaitToReady (now : Z) : M (Z * option error) :=
  moveChg redisWaitQueue redisReadyQueue now.

Definition MoveBusyToTimeout (now : Z) : M (Z * option error) :=
  moveChg redisBusyQueue redisTimeoutQueue now.

Definition MoveRunningToTimeout (now : Z) : M (Z * option error) :=
  moveChg redisCrawlExecutionRunningQueue redisCrawlExecutionTimeoutQueue now.

Definition removeQueuedUris (uriIds : list string) : M (Z * option error) :=
  let* (wr, err) :=
    execWrite "delete-queued-uris"
      (Rethink.GetAllDelete rethinkDbTableUriQueue uriIds) in
  ret (Deleted wr, err).

Definition deleteFromRemoveQueue (uriIds : list string) : M (option error) :=
  let* (_, err) :=
    Client.PipelineExec (List.map (λ uriId, (redisRemoveUriQueue, 1, uriId)) uriIds) in
  ret err.

Definition RemoveFromUriQueue : M (Z * option error) :=
  let* (uriIds, err) := Client.LRange redisRemoveUriQueue 0 9999 in
  match err with
  | Some e =>
      ret (0, Some (Errorf "failed to get list of uriIds to be removed: %w" [AErr e]))
  | None =>
      if Z.of_nat (length uriIds) =? 0 then ret (0, None)
      else
        let* (removed, err) := removeQueuedUris uriIds in
        match err with
        | Some e =>
            ret (removed,
                 Some (Errorf "removed %d of %d queued uris: %w"
                         [AInt removed; AInt (Z.of_nat (length uriIds)); AErr e]))
        | None =>
            let* err := deleteFromRemoveQueue uriIds in
            match err with
            | Some e =>
                ret (removed,
                     Some (Errorf "failed to remove some queued uri ids from REMURI: %w"
                             [AErr e]))
            | None => ret (removed, None)
            end
        end
  end.

Definition terminalStates : list string :=
  ["FINISHED"; "ABORTED_TIMEOUT"; "ABORTED_SIZE"; "ABORTED_MANUAL"; "FAILED"; "DIED"].

(** [doc.Field(f)] raises when the document has no such field. *)
Definition onlyIfActive (jes : doc) (d : doc) : Rethink.updateResult :=
  match d !! "state" with
  | None => Rethink.Raise "No attribute `state` in object"
  | Some st =>
      if decide (st ∈ VStr <$> terminalStates) then Rethink.Nil
      else Rethink.Merge jes
  end.

Definition updateJobExecution (jes : doc) : M (Z * option error) :=
  let* (wr, err) :=
    execWrite "update-job-execution-status"
      (Rethink.GetUpdate rethinkDbTableJobExecutions (jes !! "id") (onlyIfActive jes)) in
  ret (Replaced wr, err).

(** [doc.HasFields(f)]: the field is there and is not null. *)
Definition HasFields (f : string) (d : doc) : bool :=
  match d !! f with
  | None | Some VNull => false
  | Some _ => true
  end.

Definition unlessEnded (d : doc) : Rethink.updateResult :=
  if HasFields "endTime" d then Rethink.Nil
  else Rethink.Merge {[ "desiredState" := VStr ABORTED_TIMEOUT ]}.

Definition setCrawlExecutionStateAbortedTimeout (crawlExecutionId : string)
  : M (Z * option error) :=
  let* (wr, err) :=
    execWrite "set-crawl-execution-state-aborted-timeout"
      (Rethink.GetUpdate rethinkDbTableCrawlExecutions
         (Some (VStr crawlExecutionId)) unlessEnded) in
  ret (Replaced wr, err).

(** The [for] loop of [TimeoutCrawlExecutions]; [fuel] bounds the number
    of iterations. *)
Fixpoint TimeoutCrawlExecutions_loop (fuel : nat) (count : Z) : M (Z * option error) :=
  match fuel with
  | O => diverge
  | S fuel' =>
      let* (ceid, err) := Client.LPop redisCrawlExecutionTimeoutQueue in
      match err with
      | Some RedisNil => ret (count, None)
      | Some e =>
          ret (count, Some (Errorf "get timed out crawl execution: %w" [AErr e]))
      | None =>
          let* (replaced, err) := setCrawlExecutionStateAbortedTimeout ceid in
          match err with
          | Some e =>
              let* (_, rollbackErr) := Client.RPush redisCrawlExecutionTimeoutQueue ceid in
              match rollbackErr with
              | Some re =>
                  ret (count,
                       Some (Errorf "%v:  %w: failed to recover ceid %s (must be inserted into timeout queue manually):"
                               [AErr e; AErr re; AStr ceid]))
              | None => ret (count, None)
              end
          | None => TimeoutCrawlExecutions_loop fuel' (count + replaced)
          end
      end
  end.

(** Every iteration that goes on has taken one id off the timeout queue,
    so one more iteration than the queue is long is enough. *)
Definition TimeoutCrawlExecutions : M (Z * option error) :=
  λ w, TimeoutCrawlExecutions_loop
         (S (length (Redis.list_at (kv w) redisCrawlExecutionTimeoutQueue))) 0 w.

Section JobExecutions.

(** [frontierV1.CrawlExecutionStatus_State_value], the table of state
    names of the generated protobuf code. *)
Variable CrawlExecutionStatus_State_value : gmap string Z.

(** The body of [for k, v := range jeMap], on the pair of [m] and
    [executionsState]. *)
Definition rangeStep (acc : doc * list (string * Z)) (kv : string * string)
  : doc * list (string * Z) :=
  let '(m, executionsState) := acc in
  let '(k, v) := kv in
  match ParseInt v with
  | None => acc
  | Some c =>
      match CrawlExecutionStatus_State_value !! k with
      | None => (<[k := VNum c]> m, executionsState)
      | Some _ => (m, executionsState ++ [(k, c)])
      end
  end.

Definition jobExecutionStatus (key : string) (jeMap : gmap string string) : doc :=
  let m : doc := {[ "id" := VStr (TrimPrefix key redisJobExecutionPrefix) ]} in
  let '(m, executionsState) := fold_left rangeStep (map_to_list jeMap) (m, []) in
  <[ "executionsState" := VStates executionsState ]> m.

Fixpoint getJobExecutionStatuses_loop (jobExecutionKeys : list string)
    (jobExecutionStatuses : list doc) : M (list doc * option error) :=
  match jobExecutionKeys with
  | [] => ret (jobExecutionStatuses, None)
  | key :: keys' =>
      let* (exists_, err) := Client.Exists key in
      match err with
      | Some e => ret ([], Some e)
      | None =>
          if exists_ =? 0
          then getJobExecutionStatuses_loop keys' jobExecutionStatuses
          else
            let* (jeMap, err) := Client.HGetAll key in
            match err with
            | Some e => ret ([], Some e)
            | None =>
                getJobExecutionStatuses_loop keys'
                  (jobExecutionStatuses ++ [jobExecutionStatus key jeMap])
            end
      end
  end.

Definition getJobExecutionStatuses : M (list doc * option error) :=
  let* (jobExecutionKeys, err) :=
    Client.Keys (redisJobExecutionPrefix +:+ "*") in
  match err with
  | Some e => ret ([], Some e)
  | None => getJobExecutionStatuses_loop jobExecutionKeys []
  end.

Fixpoint UpdateJobExecutions_loop (jess : list doc) (count : Z) : M (Z * option error) :=
  match jess with
  | [] => ret (count, None)
  | jes :: jess' =>
      let* (replaced, err) := updateJobExecution jes in
      match err with
      | Some e =>
          ret (replaced,
               Some (Errorf "failed to update job execution status: %w" [AErr e]))
      | None => UpdateJobExecutions_loop jess' (count + replaced)
      end
  end.

Definition UpdateJobExecutions : M (Z * option error) :=
  let* (jess, err) := getJobExecutionStatuses in
  match err with
  | Some e => ret (0, Some (Errorf "failed to get job executions: %w" [AErr e]))
  | None => UpdateJobExecutions_loop jess 0
  end.

End JobExecutions.

End database.

(** The world that a step leaves behind. *)
Definition after {A : Type} (m : M A) (w : world) : world :=
  match m w with
  | Some (_, w') => w'
  | None => w
  end.

(** ** Worlds of the examples *)
Module Example.
Import database.

(** The state names of [frontierV1.CrawlExecutionStatus_State_value] with
    their numbers, for the examples. *)
Definition stateValue : gmap string Z :=
  {[ "UNDEFINED" := 0; "CREATED" := 1; "FETCHING" := 2; "SLEEPING" := 3;
     "FINISHED" := 4; "ABORTED_TIMEOUT" := 5; "ABORTED_SIZE" := 6;
     "ABORTED_MANUAL" := 7; "FAILED" := 8; "DIED" := 9 ]}.

(** A world with the given keyspace and tables, stores that answer, and
    the default of the [db-max-retries] flag. *)
Definition quiet (kv : keyspace) (db : gmap string table) : world :=
  World kv [] db [] 3 [].

(** The wait queue holds [z]; nothing is ready. *)
Definition waiting (z : list (string * Z)) : world :=
  quiet {[ redisWaitQueue := RZSet z ]} ∅.

(** Two crawl executions have timed out, neither has an end time, and the
    second write to the durable store breaks. *)
Definition twoTimedOut : world :=
  World {[ redisCrawlExecutionTimeoutQueue := RList ["C1"; "C2"] ]} []
    {[ rethinkDbTableCrawlExecutions :=
         {[ "C1" := {[ "id" := VStr "C1" ]}; "C2" := {[ "id" := VStr "C2" ]} ]} ]}
    [Served []; Broken false (Foreign "connection refused")] 3 [].

(** The same queue; the write for the head breaks and so does the push
    that should put it back. *)
Definition lostRollback : world :=
  World {[ redisCrawlExecutionTimeoutQueue := RList ["C1"; "C2"] ]}
    [None; Some (Foreign "connection reset")]
    {[ rethinkDbTableCrawlExecutions :=
         {[ "C1" := {[ "id" := VStr "C1" ]}; "C2" := {[ "id" := VStr "C2" ]} ]} ]}
    [Broken false (Foreign "connection refused")] 3 [].

(** The head of the timeout queue has ended already. *)
Definition oneEnded : world :=
  quiet {[ redisCrawlExecutionTimeoutQueue := RList ["C1"; "C2"] ]}
    {[ rethinkDbTableCrawlExecutions :=
         {[ "C1" := {[ "id" := VStr "C1"; "endTime" := VStr "2021-11-09T10:00:00Z" ]};
            "C2" := {[ "id" := VStr "C2" ]} ]} ]}.

(** Two cached job executions, both running in the durable store; the
    second write breaks. *)
Definition twoJobs : world :=
  World {[ "JEID:a" := RHash {[ "documentsCrawled" := "5"; "FETCHING" := "2" ]};
           "JEID:b" := RHash {[ "documentsCrawled" := "7" ]} ]} []
    {[ rethinkDbTableJobExecutions :=
         {[ "a" := {[ "id" := VStr "a"; "state" := VStr "RUNNING" ]};
            "b" := {[ "id" := VStr "b"; "state" := VStr "RUNNING" ]} ]} ]}
    [Served []; Broken false (Foreign "connection refused")] 3 [].

(** A cached job execution that is finished in the durable store. *)
Definition finishedJob : world :=
  quiet {[ "JEID:a" := RHash {[ "documentsCrawled" := "5" ]} ]}
    {[ rethinkDbTableJobExecutions :=
         {[ "a" := {[ "id" := VStr "a"; "state" := VStr "FINISHED";
                      "documentsCrawled" := VNum 4 ]} ]} ]}.

(** Three ids wait for removal; the first two have a row. *)
Definition threeToRemove (net : list attempt) : world :=
  World {[ redisRemoveUriQueue := RList ["u1"; "u2"; "u3"] ]} []
    {[ rethinkDbTableUriQueue :=
         {[ "u1" := {[ "id" := VStr "u1" ]}; "u2" := {[ "id" := VStr "u2" ]} ]} ]}
    net 3 [].

(** The removal queue holds 10,001 ids, none of which has a row. *)
Definition crowded : world :=
  quiet {[ redisRemoveUriQueue := RList (replicate (Z.to_nat 10001) "u") ]}
    {[ rethinkDbTableUriQueue := ∅ ]}.

End Example.

(** ** workers.go

    A worker is a function that may return an error; what it writes to the
    log is left out. *)
Module workers.

Definition chgWaitQueueWorker (now : Z) : M (option error) :=
  let* (moved, err) := database.MoveWaitToReady now in
  match err with
  | Some e =>
      ret (Some (Errorf "error moving crawl host groups from wait queue to ready queue: %w"
                   [AErr e]))
  | None => ret None
  end.

Definition chgBusyQueueWorker (now : Z) : M (option error) :=
  let* (moved, err) := database.MoveBusyToTimeout now in
  match err with
  | Some e =>
      ret (Some (Errorf "error moving crawl host groups from busy queue to timeout queue: %w"
                   [AErr e]))
  | None => ret None
  end.

Definition removeUriQueueWorker : M (option error) :=
  let* (removed, err) := database.RemoveFromUriQueue in
  match err with
  | Some e => ret (Some e)
  | None => ret None
  end.

Definition crawlExecutionRunningQueueWorker (now : Z) : M (option error) :=
  let* (moved, err) := database.MoveRunningToTimeout now in
  match err with
  | Some e =>
      ret (Some (Errorf "error moving crawl executions from running to timeout queue: %w"
                   [AErr e]))
  | None => ret None
  end.

Definition crawlExecutionTimeoutQueueWorker : M (option error) :=
  let* (timeouts, err) := database.TimeoutCrawlExecutions in
  match err with
  | Some e => ret (Some (Errorf "time out crawl executions: %w" [AErr e]))
  | None => ret None
  end.

Definition updateJobExecutions (State_value : gmap string Z) : M (option error) :=
  let* (count, err) := database.UpdateJobExecutions State_value in
  match err with
  | Some e => ret (Some (Errorf "failed to update job executions: %w" [AErr e]))
  | None => ret None
  end.

End workers.

(** ** Notions used to state what the code does *)

(** The members of the four crawl-host-group queues, queue after queue. *)
Definition chgMembers (kv : keyspace) : list string :=
  (Redis.zset_at kv database.redisWaitQueue).*1
  ++ Redis.list_at kv database.redisReadyQueue
  ++ (Redis.zset_at kv database.redisBusyQueue).*1
  ++ Redis.list_at kv database.redisTimeoutQueue.

(** The number of runs of a write query among round trips. *)
Definition runs (cs : list call) : nat :=
  length (List.filter (λ c, match c with CRunWrite _ => true | _ => false end) cs).

(** The errors after which [execWithRetry] tries again, and the round trip
    it makes before it does. *)
Definition retryable (e : error) : bool :=
  match e with
  | ErrQueryTimeout | ErrConnectionClosed => true
  | _ => false
  end.

Definition recovery (e : error) : call :=
  match e with
  | ErrConnectionClosed => CConnect
  | _ => CWait
  end.

(** The round trips of the attempts that broke with the errors [es]. *)
Definition retried (name : string) (es : list error) : list call :=
  flat_map (λ e, [CRunWrite name; recovery e]) es.

(** What the timeout update makes of a document. *)
Definition abortTimedOut (d : doc) : doc :=
  if database.HasFields "endTime" d then d
  else <["desiredState" := VStr database.ABORTED_TIMEOUT]> d.

(** The record of a crawl execution. *)
Definition executions (db : gmap string table) (id : string) : option doc :=
  Rethink.row db database.rethinkDbTableCrawlExecutions id.

(** From [db] to [db'], nothing happened but that records of crawl
    executions among [ids] went through the timeout update. *)
Definition marks (ids : list string) (db db' : gmap string table) : Prop :=
  (∀ tbl, tbl ≠ database.rethinkDbTableCrawlExecutions → db' !! tbl = db !! tbl)
  ∧ ∀ id, executions db' id = executions db id
          ∨ (id ∈ ids ∧ executions db' id = abortTimedOut <$> executions db id).

(** The records that the timeout update of the crawl executions [ids]
    changes. *)
Definition toAbort (ids : list string) (t : table) : table :=
  filter (λ kd, kd.1 ∈ ids ∧ abortTimedOut kd.2 ≠ kd.2) t.

(** The round trips that read a cached job execution. *)
Definition cache_read (c : call) : bool :=
  match c with CExists _ | CHGetAll _ => true | _ => false end.

(** From [db] to [db'], no table but [tbl] changed, and [tbl] has records
    under the same keys. *)
Definition same_records (tbl : string) (db db' : gmap string table) : Prop :=
  (∀ tbl', tbl' ≠ tbl → db' !! tbl' = db !! tbl')
  ∧ ∀ id, is_Some (Rethink.row db' tbl id) ↔ is_Some (Rethink.row db tbl id).

(** ** Further example worlds *)
Module Scenario.
Import database.

(** Crawl host groups in each of the four queues; both stores answer. *)
Definition chgQueues : world :=
  Example.quiet
    {[ redisWaitQueue := RZSet [("chgA", 100); ("chgB", 200)];
       redisReadyQueue := RList ["chgC"];
       redisBusyQueue := RZSet [("chgD", 50)];
       redisTimeoutQueue := RList ["chgE"] ]} ∅.

(** The ready queue key holds a hash. *)
Definition readyIsHash : world :=
  Example.quiet
    {[ redisWaitQueue := RZSet [("chgA", 100); ("chgB", 200)];
       redisReadyQueue := RHash {[ "f" := "v" ]} ]} ∅.

(** A job execution whose record has no [state] field. *)
Definition noState : world :=
  Example.quiet ∅
    {[ rethinkDbTableJobExecutions := {[ "a" := {[ "id" := VStr "a" ]} ]} ]}.

(** One crawl execution waits in the timeout queue; of the two that run,
    one is due at 150. *)
Definition runningDue : world :=
  Example.quiet
    {[ redisCrawlExecutionRunningQueue := RZSet [("C2", 100); ("C3", 200)];
       redisCrawlExecutionTimeoutQueue := RList ["C1"] ]}
    {[ rethinkDbTableCrawlExecutions :=
         {[ "C1" := {[ "id" := VStr "C1" ]}; "C2" := {[ "id" := VStr "C2" ]};
            "C3" := {[ "id" := VStr "C3" ]} ]} ]}.

End Scenario.


(** * Properties *)

(** ** The keyspace accessors *)
Section Keyspace.
Import Redis.
Implicit Types (kv : keyspace) (key k : string).

Lemma lookup_put_list_ne key k l kv :
  key ≠ k → put_list key l kv !! k = kv !! k.
Proof.
  intros Hne. unfold put_list.
  destruct l; [by rewrite lookup_delete_ne | by rewrite lookup_insert_ne].
Qed.

Lemma lookup_put_zset_ne key k z kv :
  key ≠ k → put_zset key z kv !! k = kv !! k.
Proof.
  intros Hne. unfold put_zset.
  destruct z; [by rewrite lookup_delete_ne | by rewrite lookup_insert_ne].
Qed.

Lemma list_at_put_list key l kv : list_at (put_list key l kv) key = l.
Proof.
  unfold list_at, put_list.
  destruct l; [by rewrite lookup_delete_eq | by rewrite lookup_insert_eq].
Qed.

Lemma zset_at_put_zset key z kv : zset_at (put_zset key z kv) key = z.
Proof.
  unfold zset_at, put_zset.
  destruct z; [by rewrite lookup_delete_eq | by rewrite lookup_insert_eq].
Qed.

Lemma holds_list_put_list key l kv : holds_list (put_list key l kv) key = true.
Proof.
  unfold holds_list, put_list.
  destruct l; [by rewrite lookup_delete_eq | by rewrite lookup_insert_eq].
Qed.

Lemma holds_zset_put_zset key z kv : holds_zset (put_zset key z kv) key = true.
Proof.
  unfold holds_zset, put_zset.
  destruct z; [by rewrite lookup_delete_eq | by rewrite lookup_insert_eq].
Qed.

Lemma zset_at_holds_zset kv key :
  zset_at kv key ≠ [] → holds_zset kv key = true.
Proof. unfold zset_at, holds_zset. by destruct (kv !! key) as [[l | z | h] |]. Qed.

End Keyspace.

(** ** The delayed-move script *)
Section DelayedMove.
Import Redis Lua.
Implicit Types (kv : keyspace) (z : list (string * Z)).

Lemma for_ipairs_moves fromQueueKey toQueueKey res :
  fromQueueKey ≠ toQueueKey →
  ∀ moved kv,
    holds_zset kv fromQueueKey = true →
    holds_list kv toQueueKey = true →
    ∃ kv',
      for_ipairs fromQueueKey toQueueKey res moved kv
        = (inr (moved + Z.of_nat (length res)), kv')
      ∧ zset_at kv' fromQueueKey = zrem_all res (zset_at kv fromQueueKey)
      ∧ list_at kv' toQueueKey = list_at kv toQueueKey ++ res
      ∧ (∀ k, k ≠ fromQueueKey → k ≠ toQueueKey → kv' !! k = kv !! k).
Proof.
  intros Hne. induction res as [| key res IH]; intros moved kv Hz Hl.
  - exists kv. simpl. rewrite Z.add_0_r, app_nil_r. done.
  - cbn [for_ipairs].
    (* ZREM *)
    assert (∃ n kv1, ZREM fromQueueKey key kv = (inr n, kv1)
              ∧ zset_at kv1 fromQueueKey = zrem key (zset_at kv fromQueueKey)
              ∧ holds_zset kv1 fromQueueKey = true
              ∧ (∀ k, k ≠ fromQueueKey → kv1 !! k = kv !! k)) as (n & kv1 & -> & Hz1 & Hh1 & Hfr1).
    { unfold ZREM, zset_at, holds_zset in *.
      destruct (kv !! fromQueueKey) as [[l | z | h] |] eqn:E; try discriminate.
      - eexists _, _. split; [reflexivity |].
        fold (zset_at (put_zset fromQueueKey (zrem key z) kv) fromQueueKey).
        rewrite zset_at_put_zset. split; [done |].
        split; [apply holds_zset_put_zset |].
        intros k Hk. by apply lookup_put_zset_ne.
      - eexists _, _. split; [reflexivity |]. rewrite E. done. }
    (* RPUSH *)
    assert (∃ n' kv2, RPUSH toQueueKey key kv1 = (inr n', kv2)
              ∧ list_at kv2 toQueueKey = list_at kv toQueueKey ++ [key]
              ∧ holds_list kv2 toQueueKey = true
              ∧ (∀ k, k ≠ toQueueKey → kv2 !! k = kv1 !! k)) as (n' & kv2 & -> & Hl2 & Hh2 & Hfr2).
    { unfold RPUSH. unfold list_at at 2. unfold holds_list in Hl.
      rewrite (Hfr1 toQueueKey) by done.
      destruct (kv !! toQueueKey) as [[l | z | h] |] eqn:E; try discriminate.
      - eexists _, _. split; [reflexivity |]. rewrite list_at_put_list.
        split; [done |]. split; [apply holds_list_put_list |].
        intros k Hk. by apply lookup_put_list_ne.
      - eexists _, _. split; [reflexivity |]. rewrite list_at_put_list.
        split; [done |]. split; [apply holds_list_put_list |].
        intros k Hk. by apply lookup_put_list_ne. }
    assert (holds_zset kv2 fromQueueKey = true) as Hz2.
    { unfold holds_zset. rewrite Hfr2 by done. apply Hh1. }
    destruct (IH (moved + 1) kv2 Hz2 Hh2) as (kv' & -> & Hz' & Hl' & Hfr').
    exists kv'. split; [f_equal; f_equal; cbn [length]; lia |].
    split.
    { rewrite Hz'. cbn [zrem_all fold_left]. f_equal.
      unfold zset_at. rewrite Hfr2 by done. apply Hz1. }
    split.
    { rewrite Hl', Hl2, <- app_assoc. done. }
    intros k Hk1 Hk2. rewrite Hfr', Hfr2, Hfr1; done.
Qed.

Lemma filter_twice {A : Type} (f g : A → bool) (l : list A) :
  List.filter f (List.filter g l) = List.filter (λ x, g x && f x) l.
Proof.
  induction l as [| x l IH]; [done |]. simpl.
  destruct (g x); simpl; [destruct (f x) |]; by rewrite ?IH.
Qed.

Lemma zrem_all_filter ms z :
  zrem_all ms z
  = List.filter (λ e, negb (existsb (String.eqb e.1) ms)) z.
Proof.
  revert z. induction ms as [| m ms IH]; intros z.
  - simpl. induction z as [| e z IHz]; [done |]. simpl. by rewrite <- IHz.
  - unfold zrem_all in *. cbn [fold_left]. rewrite IH. unfold zrem.
    rewrite filter_twice. apply List.filter_ext. intros e. simpl.
    by rewrite negb_orb.
Qed.

Lemma NoDup_fst_eq z (e e' : string * Z) :
  NoDup z.*1 → e ∈ z → e' ∈ z → e.1 = e'.1 → e = e'.
Proof.
  induction z as [| x z IH]; intros Hnd He He' Heq; [by inversion He |].
  rewrite fmap_cons in Hnd. apply NoDup_cons in Hnd as [Hx Hnd].
  apply elem_of_cons in He as [-> | He]; apply elem_of_cons in He' as [-> | He'].
  - done.
  - destruct Hx. rewrite Heq. by apply list_elem_of_fmap_2.
  - destruct Hx. rewrite <- Heq. by apply list_elem_of_fmap_2.
  - by apply IH.
Qed.

Lemma zrem_all_due (P : string * Z → bool) z :
  NoDup z.*1 →
  zrem_all (List.filter P z).*1 z = List.filter (λ e, negb (P e)) z.
Proof.
  intros Hnd. rewrite zrem_all_filter. apply List.filter_ext_in.
  intros e He. f_equal. apply list_elem_of_In in He.
  destruct (P e) eqn:HP.
  - apply existsb_exists. exists e.1. split; [| apply String.eqb_refl].
    apply list_elem_of_In, list_elem_of_fmap_2, list_elem_of_In, filter_In.
    split; [by apply list_elem_of_In | done].
  - apply not_true_is_false. intros (m & Hm & Heq)%existsb_exists.
    apply String.eqb_eq in Heq. subst m.
    apply list_elem_of_In, list_elem_of_fmap in Hm as (e' & Heq & He').
    apply list_elem_of_In, filter_In in He' as [He' HP'].
    apply list_elem_of_In in He'.
    assert (e = e') as -> by (by apply (NoDup_fst_eq z)).
    congruence.
Qed.

Lemma forallb_filter_snd (f : Z → bool) (P : string * Z → bool) z :
  forallb f z.*2 = true → forallb f (List.filter P z).*2 = true.
Proof.
  induction z as [| x z IH]; [done |].
  rewrite fmap_cons. cbn [forallb List.filter].
  intros [Hx Hall]%andb_true_iff. destruct (P x); [| by apply IH].
  rewrite fmap_cons. cbn [forallb]. by rewrite Hx, IH.
Qed.

Lemma ascending_filter (P : string * Z → bool) z :
  ascending z.*2 = true → ascending (List.filter P z).*2 = true.
Proof.
  induction z as [| e z IH]; [done |].
  rewrite fmap_cons. cbn [ascending List.filter].
  intros [Hall Hasc]%andb_true_iff. destruct (P e); [| by apply IH].
  rewrite fmap_cons. cbn [ascending].
  by rewrite forallb_filter_snd, IH.
Qed.

Lemma filter_none_negb {A : Type} (P : A → bool) (l : list A) :
  List.filter P l = [] → List.filter (λ x, negb (P x)) l = l.
Proof.
  induction l as [| x l IH]; [done |]. simpl.
  destruct (P x); [done |]. intros H. simpl. by rewrite IH.
Qed.

Lemma served_head n net :
  served (S n) net = true →
  match head net with Some (Some _) => False | _ => True end
  ∧ served n (tail net) = true.
Proof.
  unfold served. destruct net as [| [e |] net]; simpl; try done.
  intros _. split; [done |]. by rewrite take_nil.
Qed.

Lemma ZRANGEBYSCORE_zset_at key min max kv :
  holds_zset kv key = true →
  ZRANGEBYSCORE key min max kv
  = (inr (List.filter (in_range min max) (zset_at kv key)).*1, kv).
Proof.
  unfold holds_zset, ZRANGEBYSCORE, zset_at.
  by destruct (kv !! key) as [[l | z | h] |].
Qed.

Lemma chg_delayed_queue_due fromQueueKey toQueueKey now kv :
  holds_zset kv fromQueueKey = true →
  holds_list kv toQueueKey = true →
  NoDup (zset_at kv fromQueueKey).*1 →
  ∃ kv',
    chg_delayed_queue fromQueueKey toQueueKey now kv
      = (inr (Z.of_nat (length (List.filter (in_range 0 now) (zset_at kv fromQueueKey)))), kv')
    ∧ zset_at kv' fromQueueKey
      = List.filter (λ e, negb (in_range 0 now e)) (zset_at kv fromQueueKey)
    ∧ list_at kv' toQueueKey
      = list_at kv toQueueKey ++ (List.filter (in_range 0 now) (zset_at kv fromQueueKey)).*1
    ∧ (∀ k, k ≠ fromQueueKey → k ≠ toQueueKey → kv' !! k = kv !! k)
    ∧ (List.filter (in_range 0 now) (zset_at kv fromQueueKey) = [] → kv' = kv).
Proof.
  intros Hz Hl Hnd. unfold chg_delayed_queue.
  rewrite ZRANGEBYSCORE_zset_at by done.
  destruct (List.filter (in_range 0 now) (zset_at kv fromQueueKey))
    as [| d due'] eqn:Edue.
  - exists kv. cbn [for_ipairs fmap list_fmap length Z.of_nat].
    rewrite app_nil_r, filter_none_negb by done. done.
  - assert (fromQueueKey ≠ toQueueKey) as Hne.
    { intros ->. unfold holds_list in Hl. unfold zset_at in Edue.
      destruct (kv !! toQueueKey) as [[l | z | h] |]; done. }
    destruct (for_ipairs_moves fromQueueKey toQueueKey ((d :: due').*1) Hne 0 kv Hz Hl)
      as (kv' & Hrun & Hz' & Hl' & Hfr).
    exists kv'. rewrite Hrun, Z.add_0_l, length_fmap.
    split; [done |]. split; [| done].
    rewrite Hz', <- Edue. by apply zrem_all_due.
Qed.

End DelayedMove.

(** ** The retry loop of the durable-store connection *)
Section Retry.
Variable name : string.
Variable q : M (WriteResponse * option error).

(** An invariant of the world that every attempt and the logging keep
    is kept by the whole loop, and the response that comes back is one
    that an attempt produced. *)
Section Invariant.
Variable Inv : world → Prop.
Variable Pr : WriteResponse → Prop.
Hypothesis Inv_record :
  ∀ w c, durable_call c = true → Inv w →
         Inv (World (kv w) (redis_net w) (tables w) (rethink_net w)
                (maxRetries w) (calls w ++ [c])).
Hypothesis q_ok : ∀ w r e w', Inv w → q w = Some ((r, e), w') → Inv w' ∧ Pr r.

Lemma execWithRetry_loop_inv fuel attempts w wr e w' :
  Inv w →
  execWithRetry_loop fuel name q attempts w = Some ((wr, e), w') →
  Inv w' ∧ Pr wr.
Proof.
  revert attempts w. induction fuel as [| fuel IH]; intros attempts w Hw; [done |].
  cbn [execWithRetry_loop]. unfold bind at 1, exec.
  destruct (q w) as [[[r err] w1] |] eqn:Eq; [| done].
  destruct (q_ok _ _ _ _ Hw Eq) as [Hw1 Hr].
  destruct err as [e0 |]; [| by intros [= <- <- <-]].
  assert (∀ w2, Inv w2 →
            (let* mr := getMaxRetries in
             ret (r, Some (Errorf "failed to %s after %d of %d attempts: %w"
                             [AStr name; AInt (attempts + 1); AInt (mr + 1); AErr e0]))) w2
            = Some ((wr, e), w') → Inv w' ∧ Pr wr) as Hout.
  { intros w2 Hw2. unfold bind, getMaxRetries, ret. by intros [= <- <- <-]. }
  assert (∀ w2, Inv w2 →
            (let* mr := getMaxRetries in
             if attempts + 1 >? mr
             then (let* mr := getMaxRetries in
                   ret (r, Some (Errorf "failed to %s after %d of %d attempts: %w"
                                   [AStr name; AInt (attempts + 1); AInt (mr + 1); AErr e0])))
             else execWithRetry_loop fuel name q (attempts + 1)) w2
            = Some ((wr, e), w') → Inv w' ∧ Pr wr) as Hnext.
  { intros w2 Hw2. unfold bind at 1, getMaxRetries at 1.
    destruct (attempts + 1 >? maxRetries w2); [by apply Hout |].
    by apply IH. }
  destruct e0; try (by apply Hout).
  - unfold bind at 1, wait, record. apply Hnext. by apply Inv_record.
  - unfold bind at 1, Connect, record. apply Hnext. by apply Inv_record.
Qed.

Lemma execWithRetry_inv w wr e w' :
  Inv w → execWithRetry name q w = Some ((wr, e), w') → Inv w' ∧ Pr wr.
Proof. unfold execWithRetry, bind, getMaxRetries. apply execWithRetry_loop_inv. Qed.
End Invariant.

(** The loop returns: one attempt more than [maxRetries] is never needed. *)
Hypothesis q_total : ∀ w, ∃ r w', q w = Some (r, w').
Hypothesis q_maxRetries : ∀ w r w', q w = Some (r, w') → maxRetries w' = maxRetries w.

Lemma execWithRetry_loop_total fuel attempts w :
  (0 < fuel)%nat →
  maxRetries w < attempts + Z.of_nat fuel →
  ∃ r w', execWithRetry_loop fuel name q attempts w = Some (r, w').
Proof.
  revert attempts w. induction fuel as [| fuel IH]; intros attempts w Hpos Hfuel; [lia |].
  cbn [execWithRetry_loop]. unfold bind at 1, exec.
  destruct (q_total w) as ([r err] & w1 & Eq). rewrite Eq.
  pose proof (q_maxRetries _ _ _ Eq) as Hmr.
  destruct err as [e0 |]; [| by eexists _, _].
  assert (∀ w2, maxRetries w2 = maxRetries w →
            ∃ r' w',
              (let* mr := getMaxRetries in
               if attempts + 1 >? mr
               then (let* mr := getMaxRetries in
                     ret (r, Some (Errorf "failed to %s after %d of %d attempts: %w"
                                     [AStr name; AInt (attempts + 1); AInt (mr + 1); AErr e0])))
               else execWithRetry_loop fuel name q (attempts + 1)) w2
              = Some (r', w')) as Hnext.
  { intros w2 Hw2. unfold bind at 1, getMaxRetries at 1.
    destruct (attempts + 1 >? maxRetries w2) eqn:Egt; [by eexists _, _ |].
    apply IH; lia. }
  destruct e0; try (by eexists _, _).
  - unfold bind at 1, wait, record. apply Hnext. simpl. lia.
  - unfold bind at 1, Connect, record. apply Hnext. simpl. lia.
Qed.

Lemma execWithRetry_total w : ∃ r w', execWithRetry name q w = Some (r, w').
Proof.
  unfold execWithRetry, bind, getMaxRetries.
  apply execWithRetry_loop_total; lia.
Qed.

End Retry.

(** ** Writes to the durable store *)
Section Writes.
Implicit Types (q : Rethink.term) (w : world).

Lemma RunWrite_total q w : ∃ r w', RunWrite q w = Some (r, w').
Proof.
  unfold RunWrite.
  destruct (head (rethink_net w)) as [[bad | applied e] |]; [| by eexists _, _ |].
  all: destruct (Rethink.serve q _ (tables w)) as [[e | wr] db];
    [by eexists _, _ |]; destruct (0 <? Errors wr); by eexists _, _.
Qed.

Lemma RunWrite_keeps_queue_store q w r w' :
  RunWrite q w = Some (r, w') → keeps_queue_store w w' ∧ calls w' = calls w.
Proof.
  unfold RunWrite, keeps_queue_store.
  destruct (head (rethink_net w)) as [[bad | applied e] |];
    [| by intros [= <- <-] |].
  all: destruct (Rethink.serve q _ (tables w)) as [[e | wr] db];
    [by intros [= <- <-] |]; destruct (0 <? Errors wr); by intros [= <- <-].
Qed.

Lemma attempt_total name q w :
  ∃ r w', (let* _ := record (CRunWrite name) in RunWrite q) w = Some (r, w').
Proof. unfold bind, record. apply RunWrite_total. Qed.

Lemma attempt_keeps_queue_store name q w r w' :
  (let* _ := record (CRunWrite name) in RunWrite q) w = Some (r, w') →
  keeps_queue_store w w'.
Proof.
  unfold bind, record. intros H%RunWrite_keeps_queue_store. apply H.
Qed.

Lemma execWrite_total name q w : ∃ r w', execWrite name q w = Some (r, w').
Proof.
  apply execWithRetry_total; [apply attempt_total |].
  intros w0 r w1 H%attempt_keeps_queue_store. apply H.
Qed.

Lemma keeps_queue_store_trans a b c :
  keeps_queue_store a b → keeps_queue_store b c → keeps_queue_store a c.
Proof. unfold keeps_queue_store. intros (-> & -> & ->) (-> & -> & ->). done. Qed.

(** [execWrite] with an invariant of the durable store: what every served
    or broken run of the term keeps, and the logging keeps, holds after. *)
Lemma execWrite_inv (Inv : world → Prop) (Pr : WriteResponse → Prop) name q w wr e w' :
  (∀ w c, durable_call c = true → Inv w →
          Inv (World (kv w) (redis_net w) (tables w) (rethink_net w)
                 (maxRetries w) (calls w ++ [c]))) →
  (∀ w r e w', Inv w → RunWrite q w = Some ((r, e), w') → Inv w' ∧ Pr r) →
  Inv w →
  execWrite name q w = Some ((wr, e), w') →
  Inv w' ∧ Pr wr.
Proof.
  intros Hrec Hq Hw H.
  eapply (execWithRetry_inv name _ Inv Pr); [exact Hrec | | exact Hw | exact H].
  intros w0 r e0 w1 Hw0. unfold bind, record. apply Hq. by apply Hrec.
Qed.

Lemma execWrite_keeps_queue_store name q w r w' :
  execWrite name q w = Some (r, w') → keeps_queue_store w w'.
Proof.
  destruct r as [wr e]. intros H.
  eapply (execWrite_inv (keeps_queue_store w) (λ _, True)) in H; [apply H | ..].
  - done.
  - intros w0 r e0 w1 Hw0 H0%RunWrite_keeps_queue_store.
    split; [| done]. eapply keeps_queue_store_trans; [exact Hw0 | apply H0].
  - done.
Qed.

Lemma execWrite_calls name q w r w' :
  execWrite name q w = Some (r, w') →
  ∃ rest, calls w' = calls w ++ rest ∧ forallb durable_call rest = true.
Proof.
  destruct r as [wr e]. intros H.
  eapply (execWrite_inv
            (λ w', ∃ rest, calls w' = calls w ++ rest ∧ forallb durable_call rest = true)
            (λ _, True)) in H; [apply H | ..].
  - intros w0 c Hc (rest & Hrest & Hall). exists (rest ++ [c]). cbn.
    rewrite Hrest, app_assoc, forallb_app, Hall. cbn. by rewrite Hc.
  - intros w0 r e0 w1 Hw0 (_ & Hcalls)%RunWrite_keeps_queue_store.
    by rewrite Hcalls.
  - exists []. by rewrite app_nil_r.
Qed.

(** A served attempt without errors is the only attempt. *)
Lemma execWrite_clean name q w wr db :
  clean 1 (rethink_net w) = true →
  Rethink.serve q [] (tables w) = (inr wr, db) →
  (0 <? Errors wr) = false →
  execWrite name q w
  = Some ((wr, None),
          World (kv w) (redis_net w) db (tail (rethink_net w)) (maxRetries w)
            (calls w ++ [CRunWrite name])).
Proof.
  intros Hclean Hserve Herrors.
  unfold execWrite, execWithRetry, bind at 1, getMaxRetries at 1.
  cbn [execWithRetry_loop]. unfold exec, bind, record, RunWrite, ret.
  cbn [rethink_net tables kv redis_net maxRetries calls].
  unfold clean in Hclean.
  destruct (rethink_net w) as [| [[| b bad] | applied e0] net]; try done.
  all: cbn [head]; by rewrite Hserve, Herrors.
Qed.

End Writes.

(** ** Round trips to the queue store *)
Section RoundTrips.
Import Redis.
Implicit Types (w : world) (key : string).

Lemma roundtrip_inv {A : Type} (c : call) (zero : A) cmd w a err w' :
  roundtrip c zero cmd w = Some ((a, err), w') →
  keeps_durable_store w w'
  ∧ redis_net w' = tail (redis_net w)
  ∧ calls w' = calls w ++ [c]
  ∧ ((kv w' = kv w ∧ a = zero ∧ head (redis_net w) = Some err ∧ is_Some err)
     ∨ (match head (redis_net w) with Some (Some _) => False | _ => True end
        ∧ cmd (kv w) = (match err with Some e => inl e | None => inr a end, kv w')
        ∧ (is_Some err → a = zero))).
Proof.
  unfold roundtrip, keeps_durable_store.
  destruct (head (redis_net w)) as [[e |] |] eqn:Ehd.
  - intros [= <- <- <-]. cbn. repeat split; try done. left. eauto.
  - destruct (cmd (kv w)) as [[e | a'] kv'] eqn:Ecmd; intros [= <- <- <-]; cbn;
      repeat split; try done; right; repeat split; try done;
      try (by intros [? [=]]).
  - destruct (cmd (kv w)) as [[e | a'] kv'] eqn:Ecmd; intros [= <- <- <-]; cbn;
      repeat split; try done; right; repeat split; try done;
      try (by intros [? [=]]).
Qed.

Lemma roundtrip_served {A : Type} (c : call) (zero : A) cmd w :
  served 1 (redis_net w) = true →
  roundtrip c zero cmd w
  = let w' kv' := World kv' (tail (redis_net w)) (tables w) (rethink_net w)
                    (maxRetries w) (calls w ++ [c]) in
    match cmd (kv w) with
    | (inl e, kv') => Some ((zero, Some e), w' kv')
    | (inr a, kv') => Some ((a, None), w' kv')
    end.
Proof.
  unfold served, roundtrip.
  by destruct (redis_net w) as [| [e |] net].
Qed.

Lemma LPOP_inv key kv r kv' :
  LPOP key kv = (r, kv') →
  match r with
  | inl _ => kv' = kv
  | inr x =>
      list_at kv key = x :: list_at kv' key
      ∧ holds_list kv' key = true
      ∧ ∀ k, k ≠ key → kv' !! k = kv !! k
  end.
Proof.
  unfold LPOP.
  destruct (kv !! key) as [[[| x l] | z | h] |] eqn:E; intros [= <- <-]; try done.
  rewrite list_at_put_list. unfold list_at at 1. rewrite E. split; [done |].
  split; [apply holds_list_put_list |].
  intros k Hk. by apply lookup_put_list_ne.
Qed.

Lemma RPUSH_inv key v kv r kv' :
  RPUSH key v kv = (r, kv') →
  match r with
  | inl _ => kv' = kv ∧ holds_list kv key = false
  | inr _ =>
      list_at kv' key = list_at kv key ++ [v]
      ∧ ∀ k, k ≠ key → kv' !! k = kv !! k
  end.
Proof.
  unfold RPUSH, holds_list.
  destruct (kv !! key) as [[l | z | h] |] eqn:E; intros [= <- <-]; try done.
  - rewrite list_at_put_list. unfold list_at. rewrite E. split; [done |].
    intros k Hk. by apply lookup_put_list_ne.
  - unfold list_at. rewrite lookup_insert_eq, E. split; [done |].
    intros k Hk. by apply lookup_insert_ne.
Qed.

Lemma lrange_take (l : list string) (n : Z) :
  0 <= n → lrange l 0 n = take (Z.to_nat (n + 1)) l.
Proof.
  intros Hn. unfold lrange.
  replace (0 <? 0) with false by done.
  replace (n <? 0) with false by lia.
  destruct (decide (length l = 0%nat)) as [Hl | Hl].
  - destruct l; [| done]. cbn [length Z.of_nat].
    replace (0 <=? 0) with true by done. rewrite orb_true_r. by rewrite take_nil.
  - replace (Z.of_nat (length l) <=? 0) with false by lia.
    replace (Z.min n (Z.of_nat (length l) - 1) <? 0) with false by lia.
    cbn [orb]. rewrite drop_0.
    destruct (Z.min_spec n (Z.of_nat (length l) - 1)) as [[Hlt ->] | [Hge ->]].
    + f_equal. lia.
    + rewrite !take_ge; [done | lia | lia].
Qed.

Lemma LRANGE_inv key start stop kv r kv' :
  LRANGE key start stop kv = (r, kv') →
  kv' = kv
  ∧ match r with
    | inl _ => True
    | inr ids => ids = lrange (list_at kv key) start stop
    end.
Proof.
  unfold LRANGE, list_at.
  destruct (kv !! key) as [[l | z | h] |]; intros [= <- <-]; try done.
  split; [done |]. unfold lrange.
  case_match; [done | by rewrite drop_nil, take_nil].
Qed.

End RoundTrips.

(** ** Timing out crawl executions *)
Section CrawlExecutions.
Import Redis database.
Implicit Types (w : world) (t : table) (d : doc).

Lemma setCrawlExecutionStateAbortedTimeout_total id w :
  ∃ r w', setCrawlExecutionStateAbortedTimeout id w = Some (r, w').
Proof.
  unfold setCrawlExecutionStateAbortedTimeout, bind.
  destruct (execWrite_total "set-crawl-execution-state-aborted-timeout"
              (Rethink.GetUpdate rethinkDbTableCrawlExecutions (Some (VStr id)) unlessEnded) w)
    as ([wr e] & w' & ->).
  by eexists _, _.
Qed.

Lemma setCrawlExecutionStateAbortedTimeout_keeps_queue_store id w r w' :
  setCrawlExecutionStateAbortedTimeout id w = Some (r, w') → keeps_queue_store w w'.
Proof.
  unfold setCrawlExecutionStateAbortedTimeout, bind.
  destruct (execWrite _ _ w) as [[[wr e] w1] |] eqn:E; [| done].
  intros [= <- <-]. by eapply execWrite_keeps_queue_store.
Qed.

(** One run of the term against a record that has an end time. *)
Lemma RunWrite_ended id w t d r e w' :
  tables w !! rethinkDbTableCrawlExecutions = Some t →
  t !! id = Some d →
  HasFields "endTime" d = true →
  RunWrite (Rethink.GetUpdate rethinkDbTableCrawlExecutions (Some (VStr id)) unlessEnded) w
    = Some ((r, e), w') →
  tables w' = tables w ∧ Replaced r = 0.
Proof.
  intros Ht Hd Hend. unfold RunWrite.
  assert (∀ bad, ∃ wr,
            Rethink.serve
              (Rethink.GetUpdate rethinkDbTableCrawlExecutions (Some (VStr id)) unlessEnded)
              bad (tables w) = (inr wr, tables w) ∧ Replaced wr = 0) as Hserve.
  { intros bad. unfold Rethink.serve, Rethink.updateRow. rewrite Ht, Hd.
    unfold unlessEnded. rewrite Hend.
    destruct (decide (id ∈ bad)); eexists; (split; [by rewrite insert_id | done]). }
  destruct (head (rethink_net w)) as [[bad | applied e0] |].
  - destruct (Hserve bad) as (wr & -> & Hwr).
    destruct (0 <? Errors wr); by intros [= <- <- <-].
  - destruct (Hserve []) as (wr & -> & Hwr).
    intros [= <- <- <-]. by destruct applied.
  - destruct (Hserve []) as (wr & -> & Hwr).
    destruct (0 <? Errors wr); by intros [= <- <- <-].
Qed.

Lemma setCrawlExecutionStateAbortedTimeout_ended id w t d replaced e w' :
  tables w !! rethinkDbTableCrawlExecutions = Some t →
  t !! id = Some d →
  HasFields "endTime" d = true →
  setCrawlExecutionStateAbortedTimeout id w = Some ((replaced, e), w') →
  tables w' = tables w ∧ replaced = 0.
Proof.
  intros Ht Hd Hend. unfold setCrawlExecutionStateAbortedTimeout, bind.
  destruct (execWrite _ _ w) as [[[wr e0] w1] |] eqn:E; [| done].
  intros [= <- <- <-].
  eapply (execWrite_inv (λ w', tables w' = tables w) (λ r, Replaced r = 0)) in E;
    [exact E | done | | done].
  intros w0 r e1 w2 Hw0 Hrun.
  eapply RunWrite_ended in Hrun as [-> ?]; [done | by rewrite Hw0 | done..].
Qed.

(** The served update of a record, end time or not. *)
Lemma setCrawlExecutionStateAbortedTimeout_clean id w t d :
  clean 1 (rethink_net w) = true →
  tables w !! rethinkDbTableCrawlExecutions = Some t →
  t !! id = Some d →
  let d' := if HasFields "endTime" d then d
            else <["desiredState" := VStr ABORTED_TIMEOUT]> d in
  setCrawlExecutionStateAbortedTimeout id w
  = Some ((if decide (d' = d) then 0 else 1, None),
          World (kv w) (redis_net w)
            (<[rethinkDbTableCrawlExecutions := <[id := d']> t]> (tables w))
            (tail (rethink_net w)) (maxRetries w)
            (calls w ++ [CRunWrite "set-crawl-execution-state-aborted-timeout"])).
Proof.
  intros Hclean Ht Hd d'.
  unfold setCrawlExecutionStateAbortedTimeout, bind.
  assert (∃ wr,
            Rethink.serve
              (Rethink.GetUpdate rethinkDbTableCrawlExecutions
                 (Some (VStr id)) unlessEnded) [] (tables w)
            = (inr wr, <[rethinkDbTableCrawlExecutions := <[id := d']> t]> (tables w))
            ∧ Errors wr = 0
            ∧ Replaced wr = if decide (d' = d) then 0 else 1) as (wr & Hserve & Herr & Hrep).
  { unfold Rethink.serve, Rethink.updateRow. rewrite Ht, Hd.
    rewrite decide_False by (by intros ?%elem_of_nil).
    unfold unlessEnded. subst d'. destruct (HasFields "endTime" d).
    - rewrite decide_True by done. eexists. by rewrite (insert_id t).
    - rewrite <- insert_union_singleton_l.
      destruct (decide (<["desiredState" := VStr ABORTED_TIMEOUT]> d = d)) as [Heq | Hne];
        eexists; [by rewrite Heq, (insert_id t) | done]. }
  rewrite (execWrite_clean _ _ _ _ _ Hclean Hserve) by (by rewrite Herr).
  by rewrite Hrep.
Qed.

Lemma LPop_served key w x rest :
  list_at (kv w) key = x :: rest →
  served 1 (redis_net w) = true →
  Client.LPop key w
  = Some ((x, None),
          World (put_list key rest (kv w)) (tail (redis_net w)) (tables w)
            (rethink_net w) (maxRetries w) (calls w ++ [CLPop key])).
Proof.
  intros Hl Hnet. unfold Client.LPop. rewrite roundtrip_served by done.
  unfold LPOP. unfold list_at in Hl.
  destruct (kv w !! key) as [[l | z | h] |]; try done. by subst l.
Qed.

Lemma roundtrip_total {A : Type} (c : call) (zero : A) cmd w :
  ∃ r w', roundtrip c zero cmd w = Some (r, w').
Proof.
  unfold roundtrip.
  destruct (head (redis_net w)) as [[e |] |]; [by eexists _, _ | |];
    destruct (cmd (kv w)) as [[e | a] kv']; by eexists _, _.
Qed.

Lemma TimeoutCrawlExecutions_loop_continue fuel count w ceid w1 replaced w2 :
  Client.LPop redisCrawlExecutionTimeoutQueue w = Some ((ceid, None), w1) →
  setCrawlExecutionStateAbortedTimeout ceid w1 = Some ((replaced, None), w2) →
  TimeoutCrawlExecutions_loop (S fuel) count w
  = TimeoutCrawlExecutions_loop fuel (count + replaced) w2.
Proof.
  intros Hpop Hset. cbn [TimeoutCrawlExecutions_loop].
  unfold bind at 1. rewrite Hpop. unfold bind at 1. by rewrite Hset.
Qed.

(** A successful pop shortens the timeout queue by its head. *)
Lemma LPop_popped key w ceid w1 :
  Client.LPop key w = Some ((ceid, None), w1) →
  list_at (kv w) key = ceid :: list_at (kv w1) key.
Proof.
  intros H. apply roundtrip_inv in H as (_ & _ & _ & [(_ & _ & _ & [? [=]]) | (_ & Hcmd & _)]).
  by apply LPOP_inv in Hcmd as [? _].
Qed.

Lemma LPop_leaves_list key w ceid w1 :
  Client.LPop key w = Some ((ceid, None), w1) →
  holds_list (kv w1) key = true.
Proof.
  intros H. apply roundtrip_inv in H as (_ & _ & _ & [(_ & _ & _ & [? [=]]) | (_ & Hcmd & _)]).
  by apply LPOP_inv in Hcmd as (_ & ? & _).
Qed.

Lemma RPush_served key v w :
  holds_list (kv w) key = true →
  served 1 (redis_net w) = true →
  ∃ n w',
    Client.RPush key v w = Some ((n, None), w')
    ∧ list_at (kv w') key = list_at (kv w) key ++ [v]
    ∧ keeps_durable_store w w'
    ∧ calls w' = calls w ++ [CRPush key v].
Proof.
  intros Hl Hnet. unfold Client.RPush. rewrite roundtrip_served by done.
  destruct (RPUSH key v (kv w)) as [[e | n] kv'] eqn:E; apply RPUSH_inv in E.
  - destruct E as [_ E]. congruence.
  - eexists _, _. split; [done |]. cbn. by destruct E as [-> _].
Qed.

Lemma RPush_failed key v w n e w' :
  Client.RPush key v w = Some ((n, Some e), w') →
  kv w' = kv w ∧ keeps_durable_store w w'.
Proof.
  intros H. apply roundtrip_inv in H as (Hd & _ & _ & [(Hkv & _) | (_ & Hcmd & _)]);
    [done |].
  by apply RPUSH_inv in Hcmd as [-> _].
Qed.

(** The loop returns when it is given more fuel than the timeout queue
    is long. *)
Lemma TimeoutCrawlExecutions_loop_total fuel count w :
  (length (list_at (kv w) redisCrawlExecutionTimeoutQueue) < fuel)%nat →
  ∃ r w', TimeoutCrawlExecutions_loop fuel count w = Some (r, w').
Proof.
  revert count w. induction fuel as [| fuel IH]; intros count w Hlen; [lia |].
  cbn [TimeoutCrawlExecutions_loop]. unfold bind at 1.
  destruct (roundtrip_total (CLPop redisCrawlExecutionTimeoutQueue) ""
              (LPOP redisCrawlExecutionTimeoutQueue) w) as ([ceid err] & w1 & Hpop).
  unfold Client.LPop at 1. rewrite Hpop.
  destruct err as [e |]; [destruct e; by eexists _, _ |].
  pose proof (LPop_popped _ _ _ _ Hpop) as Hq.
  unfold bind at 1.
  destruct (setCrawlExecutionStateAbortedTimeout_total ceid w1) as ([replaced err] & w2 & Hset).
  rewrite Hset.
  destruct err as [e |].
  - unfold bind.
    destruct (roundtrip_total (CRPush redisCrawlExecutionTimeoutQueue ceid) 0
                (RPUSH redisCrawlExecutionTimeoutQueue ceid) w2) as ([n rerr] & w3 & Hpush).
    unfold Client.RPush. rewrite Hpush. destruct rerr; by eexists _, _.
  - apply IH.
    apply setCrawlExecutionStateAbortedTimeout_keeps_queue_store in Hset as (-> & _).
    rewrite Hq in Hlen. cbn [length] in Hlen. lia.
Qed.

Lemma TimeoutCrawlExecutions_total w :
  ∃ r w', TimeoutCrawlExecutions w = Some (r, w').
Proof. unfold TimeoutCrawlExecutions. apply TimeoutCrawlExecutions_loop_total. lia. Qed.

(** More fuel than needed changes nothing. *)
Lemma TimeoutCrawlExecutions_loop_fuel fuel fuel' count w r :
  (fuel ≤ fuel')%nat →
  TimeoutCrawlExecutions_loop fuel count w = Some r →
  TimeoutCrawlExecutions_loop fuel' count w = Some r.
Proof.
  revert fuel' count w. induction fuel as [| fuel IH]; intros fuel' count w Hle; [done |].
  destruct fuel' as [| fuel']; [lia |].
  cbn [TimeoutCrawlExecutions_loop]. unfold bind.
  destruct (Client.LPop _ w) as [[[ceid err] w1] |]; [| done].
  destruct err as [e |]; [done |].
  destruct (setCrawlExecutionStateAbortedTimeout ceid w1) as [[[replaced err] w2] |]; [| done].
  destruct err as [e |]; [done |]. apply IH. lia.
Qed.

End CrawlExecutions.

(** ** Removing queued URIs *)
Section UriRemoval.
Import Redis database.
Implicit Types (w : world) (t : table) (kv : keyspace).

Lemma deleteRows_Deleted keys bad wr t :
  Deleted wr <= Deleted (Rethink.deleteRows keys bad wr t).1
  <= Deleted wr + Z.of_nat (length keys).
Proof.
  revert wr t. induction keys as [| id keys IH]; intros wr t; [simpl; lia |].
  cbn [Rethink.deleteRows length].
  destruct (t !! id); [destruct (decide (id ∈ bad)) |].
  - specialize (IH (Rethink.rowError Rethink.storageError wr) t).
    cbn [Rethink.rowError Deleted] in IH. lia.
  - match goal with |- context [Rethink.deleteRows keys bad ?wr' ?t'] =>
      specialize (IH wr' t') end.
    cbn [Deleted] in IH. lia.
  - match goal with |- context [Rethink.deleteRows keys bad ?wr' ?t'] =>
      specialize (IH wr' t') end.
    cbn [Deleted] in IH. lia.
Qed.

Lemma RunWrite_delete_count ids w r e w' :
  RunWrite (Rethink.GetAllDelete rethinkDbTableUriQueue ids) w = Some ((r, e), w') →
  0 <= Deleted r <= Z.of_nat (length ids).
Proof.
  unfold RunWrite.
  assert (∀ bad wr db,
            Rethink.serve (Rethink.GetAllDelete rethinkDbTableUriQueue ids) bad (tables w)
            = (inr wr, db) → 0 <= Deleted wr <= Z.of_nat (length ids)) as Hserve.
  { intros bad wr db. unfold Rethink.serve.
    destruct (tables w !! rethinkDbTableUriQueue) as [t |]; [| done].
    pose proof (deleteRows_Deleted ids bad noResponse t) as Hd.
    destruct (Rethink.deleteRows ids bad noResponse t) as [wr' t'].
    intros [= <- <-]. cbn in Hd. lia. }
  destruct (head (rethink_net w)) as [[bad | applied e0] |];
    [| intros [= <- <- <-]; cbn; lia |].
  all: destruct (Rethink.serve _ _ (tables w)) as [[e1 | wr] db] eqn:Es;
    [intros [= <- <- <-]; cbn; lia |].
  all: apply Hserve in Es; destruct (0 <? Errors wr); by intros [= <- <- <-].
Qed.

Lemma removeQueuedUris_total ids w :
  ∃ r w', removeQueuedUris ids w = Some (r, w').
Proof.
  unfold removeQueuedUris, bind.
  destruct (execWrite_total "delete-queued-uris"
              (Rethink.GetAllDelete rethinkDbTableUriQueue ids) w) as ([wr e] & w' & ->).
  by eexists _, _.
Qed.

Lemma removeQueuedUris_inv ids w removed e w' :
  removeQueuedUris ids w = Some ((removed, e), w') →
  keeps_queue_store w w' ∧ 0 <= removed <= Z.of_nat (length ids).
Proof.
  unfold removeQueuedUris, bind.
  destruct (execWrite _ _ w) as [[[wr e0] w1] |] eqn:E; [| done].
  intros [= <- <- <-].
  split; [by eapply execWrite_keeps_queue_store |].
  eapply (execWrite_inv (λ _, True)
            (λ r, 0 <= Deleted r <= Z.of_nat (length ids))) in E; [apply E | done | | done].
  intros w0 r e1 w2 _ Hrun. split; [done |]. by eapply RunWrite_delete_count.
Qed.

Lemma list_at_holds_list kv key : list_at kv key ≠ [] → holds_list kv key = true.
Proof.
  unfold list_at, holds_list. by destruct (kv !! key) as [[l | z | h] |].
Qed.

(** The pipeline of [LREM key 1 id], for the ids at the head of the list,
    takes exactly that head off. *)
Lemma execLRems_head key ids :
  ∀ rest kv,
    list_at kv key = ids ++ rest →
    ∃ kv',
      Client.execLRems (List.map (λ uriId, (key, 1, uriId)) ids) kv = (inr tt, kv')
      ∧ list_at kv' key = rest
      ∧ ∀ k, k ≠ key → kv' !! k = kv !! k.
Proof.
  induction ids as [| id ids IH]; intros rest kv Hl.
  - exists kv. done.
  - cbn [List.map Client.execLRems]. unfold LREM.
    pose proof Hl as Hl0. unfold list_at in Hl0.
    destruct (kv !! key) as [[l | z | h] |] eqn:E; try done. subst l.
    replace (lrem 1 id ((id :: ids) ++ rest)) with (ids ++ rest).
    2:{ unfold lrem. change (1 =? 0) with false. change (0 <? 1) with true.
        change (Z.to_nat 1) with 1%nat. cbn [app lrem_first].
        rewrite decide_True by done. by destruct (ids ++ rest). }
    destruct (IH rest (put_list key (ids ++ rest) kv)) as (kv' & -> & Hl' & Hfr).
    { apply list_at_put_list. }
    exists kv'. split; [done |]. split; [done |].
    intros k Hk. rewrite Hfr by done. by apply lookup_put_list_ne.
Qed.

Lemma LRange_inv key n w ids err w1 :
  0 <= n →
  Client.LRange key 0 n w = Some ((ids, err), w1) →
  keeps_durable_store w w1
  ∧ kv w1 = kv w
  ∧ redis_net w1 = tail (redis_net w)
  ∧ calls w1 = calls w ++ [CLRange key 0 n]
  ∧ (length ids ≤ Z.to_nat (n + 1))%nat
  ∧ (err = None → ids = take (Z.to_nat (n + 1)) (list_at (kv w) key)).
Proof.
  intros Hn H. apply roundtrip_inv in H as (Hd & Hnet & Hcalls & Hcase).
  split; [done |].
  destruct Hcase as [(Hkv & -> & _ & Herr) | (_ & Hcmd & Hzero)].
  - repeat split; try done; [simpl; lia |]. intros ->. by destruct Herr.
  - apply LRANGE_inv in Hcmd as [Hkv Hids].
    destruct err as [e |].
    + rewrite Hzero by done. repeat split; try done. simpl; lia.
    + subst ids. rewrite lrange_take by done.
      repeat split; try done. rewrite length_take. lia.
Qed.

Lemma removeQueuedUris_calls ids w r w' :
  removeQueuedUris ids w = Some (r, w') →
  ∃ later, calls w' = calls w ++ later ∧ forallb durable_call later = true.
Proof.
  unfold removeQueuedUris, bind.
  destruct (execWrite _ _ w) as [[[wr e0] w1] |] eqn:E; [| done].
  intros [= <- <-]. by eapply execWrite_calls.
Qed.

Lemma deleteFromRemoveQueue_inv ids rest w :
  list_at (kv w) redisRemoveUriQueue = ids ++ rest →
  ∃ err w',
    deleteFromRemoveQueue ids w = Some (err, w')
    ∧ keeps_durable_store w w'
    ∧ calls w'
      = calls w ++ [CPipelineLRem (List.map (λ uriId, (redisRemoveUriQueue, 1, uriId)) ids)]
    ∧ match err with
      | None => list_at (kv w') redisRemoveUriQueue = rest
      | Some _ => kv w' = kv w
      end
    ∧ (served 1 (redis_net w) = true → err = None).
Proof.
  intros Hl. unfold deleteFromRemoveQueue, bind, Client.PipelineExec.
  destruct (execLRems_head redisRemoveUriQueue ids rest (kv w) Hl) as (kv' & Hrun & Hl' & _).
  destruct (roundtrip_total
              (CPipelineLRem (List.map (λ uriId, (redisRemoveUriQueue, 1, uriId)) ids)) tt
              (Client.execLRems (List.map (λ uriId, (redisRemoveUriQueue, 1, uriId)) ids)) w)
    as ([u err] & w' & Hrt).
  rewrite Hrt. exists err, w'. split; [done |].
  pose proof Hrt as Hinv.
  apply roundtrip_inv in Hinv as (Hd & _ & Hcalls & Hcase).
  split; [done |]. split; [done |].
  split.
  - destruct Hcase as [(Hkv & _ & _ & Herr) | (_ & Hcmd & _)].
    + by destruct Herr as [e ->].
    + rewrite Hrun in Hcmd. destruct err; [done |]. by simplify_eq.
  - intros Hnet. rewrite roundtrip_served, Hrun in Hrt by done.
    cbv zeta in Hrt. by injection Hrt as _ <- _.
Qed.

Lemma durable_call_not_read later :
  forallb durable_call later = true → forallb (λ c, negb (queue_read c)) later = true.
Proof.
  induction later as [| c later IH]; [done |]. cbn.
  intros [Hc Hall]%andb_true_iff. rewrite IH by done. by destruct c.
Qed.

End UriRemoval.

(** ** Flushing job-execution counters *)
Section JobExecutionUpdates.
Import database.
Implicit Types (w : world) (t : table) (d jes : doc).





Lemma updateJobExecution_total jes w :
  ∃ r w', updateJobExecution jes w = Some (r, w').
Proof.
  unfold updateJobExecution, bind.
  destruct (execWrite_total "update-job-execution-status"
              (Rethink.GetUpdate rethinkDbTableJobExecutions (jes !! "id") (onlyIfActive jes)) w)
    as ([wr e] & w' & ->).
  by eexists _, _.
Qed.





Section Cache.
Variable State_value : gmap string Z.


Lemma getJobExecutionStatuses_loop_total keys acc w :
  ∃ r w', getJobExecutionStatuses_loop State_value keys acc w = Some (r, w').
Proof.
  revert acc w. induction keys as [| key keys IH]; intros acc w.
  - by eexists _, _.
  - cbn [getJobExecutionStatuses_loop]. unfold bind at 1.
    destruct (roundtrip_total (CExists key) 0
                (λ kv, (inr (match kv !! key with Some _ => 1 | None => 0 end), kv)) w)
      as ([n err] & w1 & E1).
    unfold Client.Exists. rewrite E1.
    destruct err as [e |]; [by eexists _, _ |].
    destruct (n =? 0); [apply IH |].
    unfold bind at 1.
    destruct (roundtrip_total (CHGetAll key) ∅
                (λ kv, match kv !! key with
                       | None => (inr ∅, kv)
                       | Some (RHash h) => (inr h, kv)
                       | Some _ => (inl Redis.WRONGTYPE, kv)
                       end) w1)
      as ([h err] & w2 & E2).
    unfold Client.HGetAll. rewrite E2.
    destruct err as [e |]; [by eexists _, _ | apply IH].
Qed.

Lemma UpdateJobExecutions_loop_total jess count w :
  ∃ r w', UpdateJobExecutions_loop jess count w = Some (r, w').
Proof.
  revert count w. induction jess as [| jes jess IH]; intros count w.
  - by eexists _, _.
  - cbn [UpdateJobExecutions_loop]. unfold bind at 1.
    destruct (updateJobExecution_total jes w) as ([replaced err] & w1 & ->).
    destruct err; [by eexists _, _ | apply IH].
Qed.


Lemma UpdateJobExecutions_total w :
  ∃ r w', UpdateJobExecutions State_value w = Some (r, w').
Proof.
  unfold UpdateJobExecutions, getJobExecutionStatuses. unfold bind at 1 2.
  destruct (roundtrip_total (CKeys (redisJobExecutionPrefix +:+ "*")) []
              (λ kv, (inr (List.filter (Client.glob (redisJobExecutionPrefix +:+ "*"))
                             (map_to_list kv).*1), kv)) w)
    as ([keys err] & w1 & E1).
  unfold Client.Keys. rewrite E1.
  destruct err as [e |]; [by eexists _, _ |].
  destruct (getJobExecutionStatuses_loop_total keys [] w1) as ([jess err] & w2 & ->).
  destruct err as [e |]; [by eexists _, _ |].
  apply UpdateJobExecutions_loop_total.
Qed.


End Cache.

End JobExecutionUpdates.

(** * The properties of the specification *)

Import Redis database.

(** ** C1 *)

(** C1, as stated, fails: an entry whose score is below zero has a score
    that is at most [now], and the delayed move leaves it where it is. *)
Lemma delayed_move_skips_negative_score :
  ∃ w',
    MoveWaitToReady 150 (Example.waiting [("A", -1)]) = Some ((0, None), w')
    ∧ zset_at (kv w') redisWaitQueue = [("A", -1)]
    ∧ list_at (kv w') redisReadyQueue = []
    ∧ List.filter (λ e, e.2 <=? 150) [("A", -1)] = [("A", -1)].
Proof.
  eexists. split; [vm_compute; reflexivity |].
  split; [vm_compute; reflexivity |].
  split; vm_compute; reflexivity.
Qed.

(** C1, amended: for every pair of queues and every time [now], the delayed
    move ([moveChg] running chg_delayed_queue.lua, one script run) relocates
    exactly the entries of [fromQueue] whose score is between 0 and [now]:
    each is removed from [fromQueue] and appended to the tail of [toQueue],
    in ascending score; the number of entries moved is returned, with no
    error, and it is 0 with nothing changed when no entry is due. *)
Theorem delayed_move_relocates_due fromQueue toQueue now w :
  holds_zset (kv w) fromQueue = true →
  holds_list (kv w) toQueue = true →
  zset_ok (zset_at (kv w) fromQueue) = true →
  served 1 (redis_net w) = true →
  ∃ w',
    moveChg fromQueue toQueue now w
      = Some ((Z.of_nat (length (List.filter (in_range 0 now) (zset_at (kv w) fromQueue))),
               None), w')
    ∧ zset_at (kv w') fromQueue
      = List.filter (λ e, negb (in_range 0 now e)) (zset_at (kv w) fromQueue)
    ∧ list_at (kv w') toQueue
      = list_at (kv w) toQueue
          ++ (List.filter (in_range 0 now) (zset_at (kv w) fromQueue)).*1
    ∧ ascending (List.filter (in_range 0 now) (zset_at (kv w) fromQueue)).*2 = true
    ∧ (∀ k, k ≠ fromQueue → k ≠ toQueue → kv w' !! k = kv w !! k)
    ∧ (List.filter (in_range 0 now) (zset_at (kv w) fromQueue) = [] → kv w' = kv w)
    ∧ redis_net w' = tail (redis_net w)
    ∧ tables w' = tables w
    ∧ calls w' = calls w ++ [CRunScript [fromQueue; toQueue] [now]].
Proof.
  intros Hz Hl [Hnd Hasc]%andb_true_iff Hnet.
  apply bool_decide_eq_true in Hnd.
  destruct (chg_delayed_queue_due fromQueue toQueue now (kv w) Hz Hl Hnd)
    as (kv' & Hrun & Hz' & Hl' & Hfr & Hsame).
  unfold moveChg, Client.RunMoveScript. rewrite roundtrip_served by done.
  rewrite Hrun. eexists. split; [reflexivity |]. cbn [kv tables calls redis_net].
  do 2 (split; [done |]). split; [by apply ascending_filter | done].
Qed.

(** The scenario of the specification: wait queue [(A,100),(B,200)] at
    time 150. *)
Lemma delayed_move_relocates_due_witness :
  ∃ w',
    MoveWaitToReady 150 (Example.waiting [("A", 100); ("B", 200)]) = Some ((1, None), w')
    ∧ zset_at (kv w') redisWaitQueue = [("B", 200)]
    ∧ list_at (kv w') redisReadyQueue = ["A"].
Proof.
  destruct (delayed_move_relocates_due redisWaitQueue redisReadyQueue 150
              (Example.waiting [("A", 100); ("B", 200)]))
    as (w' & Hrun & Hfrom & Hto & _);
    [vm_compute; reflexivity .. |].
  exists w'. split; [exact Hrun |]. split; [exact Hfrom | exact Hto].
Defined.

(** ** C8 *)

(** C8: for every [fromQueue] whose entries are scored 10, 20 and 30, the
    delayed move at [now = 20] relocates exactly the two entries scored at
    most 20 to the tail of [toQueue], leaves the entry scored 30 in
    [fromQueue], and a second move at the same [now] moves nothing and
    changes nothing. *)
Theorem delayed_move_twice_at_20 fromQueue toQueue w (a b c : string) :
  zset_at (kv w) fromQueue = [(a, 10); (b, 20); (c, 30)] →
  zset_ok [(a, 10); (b, 20); (c, 30)] = true →
  holds_list (kv w) toQueue = true →
  served 2 (redis_net w) = true →
  ∃ w1 w2,
    moveChg fromQueue toQueue 20 w = Some ((2, None), w1)
    ∧ zset_at (kv w1) fromQueue = [(c, 30)]
    ∧ list_at (kv w1) toQueue = list_at (kv w) toQueue ++ [a; b]
    ∧ moveChg fromQueue toQueue 20 w1 = Some ((0, None), w2)
    ∧ kv w2 = kv w1.
Proof.
  intros Hz [Hnd _]%andb_true_iff Hl Hnet.
  apply bool_decide_eq_true in Hnd.
  pose proof Hnet as [_ Hnet']%served_head.
  assert (served 1 (redis_net w) = true) as Hnet1.
  { unfold served in *. by destruct (redis_net w) as [| [e |] net]. }
  (* the first move *)
  destruct (chg_delayed_queue_due fromQueue toQueue 20 (kv w))
    as (kv1 & Hrun1 & Hfrom1 & Hto1 & _); try done.
  { apply zset_at_holds_zset. by rewrite Hz. }
  { by rewrite Hz. }
  rewrite Hz in Hrun1, Hfrom1, Hto1. cbn in Hrun1, Hfrom1, Hto1.
  (* the second move, on what the first one left *)
  destruct (chg_delayed_queue_due fromQueue toQueue 20 kv1)
    as (kv2 & Hrun2 & _ & _ & _ & Hsame).
  { apply zset_at_holds_zset. by rewrite Hfrom1. }
  { apply list_at_holds_list. rewrite Hto1. by destruct (list_at (kv w) toQueue). }
  { rewrite Hfrom1. apply NoDup_singleton. }
  rewrite Hfrom1 in Hrun2, Hsame. cbn in Hrun2, Hsame.
  unfold moveChg, Client.RunMoveScript.
  rewrite roundtrip_served, Hrun1 by done. cbv zeta.
  eexists _, _. split; [reflexivity |]. cbn [kv].
  do 2 (split; [done |]).
  rewrite roundtrip_served by done. cbn [kv redis_net tables rethink_net maxRetries calls].
  rewrite Hrun2. cbv zeta. split; [reflexivity |]. cbn [kv]. by apply Hsame.
Qed.

Lemma delayed_move_twice_at_20_witness :
  ∃ w1 w2,
    MoveWaitToReady 20 (Example.waiting [("A", 10); ("B", 20); ("C", 30)])
      = Some ((2, None), w1)
    ∧ zset_at (kv w1) redisWaitQueue = [("C", 30)]
    ∧ list_at (kv w1) redisReadyQueue = ["A"; "B"]
    ∧ MoveWaitToReady 20 w1 = Some ((0, None), w2)
    ∧ kv w2 = kv w1.
Proof.
  apply (delayed_move_twice_at_20 redisWaitQueue redisReadyQueue
           (Example.waiting [("A", 10); ("B", 20); ("C", 30)]) "A" "B" "C");
    vm_compute; reflexivity.
Defined.

(** ** C2 *)

(** C2, as stated, fails: with the timeout queue [C1, C2], the update of C1
    served and the update of C2 broken, the operation returns 1 and leaves
    [C2] in the queue, but what it returns with the count is no error. *)
Lemma timeout_update_error_is_dropped :
  (∃ e w2,
      setCrawlExecutionStateAbortedTimeout "C2"
        (after (Client.LPop redisCrawlExecutionTimeoutQueue)
           (after (setCrawlExecutionStateAbortedTimeout "C1")
              (after (Client.LPop redisCrawlExecutionTimeoutQueue) Example.twoTimedOut)))
      = Some ((0, Some e), w2))
  ∧ ∃ w',
      TimeoutCrawlExecutions Example.twoTimedOut = Some ((1, None), w')
      ∧ list_at (kv w') redisCrawlExecutionTimeoutQueue = ["C2"].
Proof.
  split.
  - eexists _, _. vm_compute. reflexivity.
  - eexists. split; vm_compute; reflexivity.
Qed.

(** C2, amended: for every state of the timeout queue and the durable
    store, when [TimeoutCrawlExecutions] pops an id and the durable update
    for it fails, the popped id is pushed back to the tail of the timeout
    queue, draining stops at once (the push is the last round trip), and
    the operation returns the count reached so far with no error: the
    update error is dropped once the push succeeded.  With the two-entry
    queue where the update replaces the record of the first id and fails
    for the second, it returns 1 and leaves the queue equal to the second
    id alone. *)
Theorem timeout_update_failure_rolls_back fuel count w ceid w1 replaced e w2 :
  Client.LPop redisCrawlExecutionTimeoutQueue w = Some ((ceid, None), w1) →
  setCrawlExecutionStateAbortedTimeout ceid w1 = Some ((replaced, Some e), w2) →
  served 1 (redis_net w2) = true →
  ∃ w3,
    TimeoutCrawlExecutions_loop (S fuel) count w = Some ((count, None), w3)
    ∧ list_at (kv w) redisCrawlExecutionTimeoutQueue
      = ceid :: list_at (kv w1) redisCrawlExecutionTimeoutQueue
    ∧ list_at (kv w3) redisCrawlExecutionTimeoutQueue
      = list_at (kv w1) redisCrawlExecutionTimeoutQueue ++ [ceid]
    ∧ tables w3 = tables w2
    ∧ calls w3 = calls w2 ++ [CRPush redisCrawlExecutionTimeoutQueue ceid]
    ∧ ∀ w0 c1 w01,
        list_at (kv w0) redisCrawlExecutionTimeoutQueue = [c1; ceid] →
        Client.LPop redisCrawlExecutionTimeoutQueue w0 = Some ((c1, None), w01) →
        setCrawlExecutionStateAbortedTimeout c1 w01 = Some ((1, None), w) →
        TimeoutCrawlExecutions w0 = Some ((1, None), w3)
        ∧ list_at (kv w3) redisCrawlExecutionTimeoutQueue = [ceid].
Proof.
  intros Hpop Hset Hnet.
  pose proof (LPop_popped _ _ _ _ Hpop) as Hq.
  pose proof (LPop_leaves_list _ _ _ _ Hpop) as Hl1.
  pose proof (setCrawlExecutionStateAbortedTimeout_keeps_queue_store _ _ _ _ Hset)
    as (Hkv2 & _ & _).
  destruct (RPush_served redisCrawlExecutionTimeoutQueue ceid w2)
    as (n & w3 & Hpush & Hl3 & (Ht3 & _) & Hc3); [by rewrite Hkv2 | done |].
  assert (∀ fuel' count',
            TimeoutCrawlExecutions_loop (S fuel') count' w = Some ((count', None), w3))
    as Hloop.
  { intros fuel' count'. cbn [TimeoutCrawlExecutions_loop]. unfold bind at 1.
    rewrite Hpop. unfold bind at 1. rewrite Hset. unfold bind. by rewrite Hpush. }
  exists w3. rewrite Hkv2 in Hl3.
  do 5 (split; [done |]).
  intros w0 c1 w01 Hl0 Hpop0 Hset0. split.
  - unfold TimeoutCrawlExecutions. rewrite Hl0.
    cbn [length].
    rewrite (TimeoutCrawlExecutions_loop_continue _ _ _ _ _ _ _ Hpop0 Hset0).
    apply Hloop.
  - rewrite Hl3.
    pose proof (LPop_popped _ _ _ _ Hpop0) as Hq0.
    pose proof (setCrawlExecutionStateAbortedTimeout_keeps_queue_store _ _ _ _ Hset0)
      as (Hkv & _ & _).
    rewrite Hl0 in Hq0. injection Hq0 as Hq0.
    rewrite Hkv, <- Hq0 in Hq. injection Hq as Hq. by rewrite <- Hq.
Qed.

Lemma timeout_update_failure_rolls_back_witness :
  ∃ w3,
    TimeoutCrawlExecutions Example.twoTimedOut = Some ((1, None), w3)
    ∧ list_at (kv w3) redisCrawlExecutionTimeoutQueue = ["C2"].
Proof.
  pose (w01 := after (Client.LPop redisCrawlExecutionTimeoutQueue) Example.twoTimedOut).
  pose (w := after (setCrawlExecutionStateAbortedTimeout "C1") w01).
  pose (w1 := after (Client.LPop redisCrawlExecutionTimeoutQueue) w).
  pose (w2 := after (setCrawlExecutionStateAbortedTimeout "C2") w1).
  destruct (timeout_update_failure_rolls_back 1 1 w "C2" w1 0
              (Errorf "failed to %s after %d of %d attempts: %w"
                 [AStr "set-crawl-execution-state-aborted-timeout"; AInt 1; AInt 4;
                  AErr (Foreign "connection refused")]) w2)
    as (w3 & _ & _ & _ & _ & _ & Hscenario);
    [vm_compute; reflexivity .. |].
  exists w3. apply (Hscenario Example.twoTimedOut "C1" w01); vm_compute; reflexivity.
Defined.

(** ** C7 *)

(** C7: for every crawl execution id with a record in the executions
    table: when the record has an end time, the update leaves the durable
    store as it is and replaces nothing, whatever the connection does; when
    the record has no [endTime] field and the write is served, the record
    afterwards is the old one with [desiredState] set to ABORTED_TIMEOUT. *)
Theorem end_time_guards_abort crawlExecutionId w t d :
  tables w !! rethinkDbTableCrawlExecutions = Some t →
  t !! crawlExecutionId = Some d →
  (HasFields "endTime" d = true →
   ∃ e w',
     setCrawlExecutionStateAbortedTimeout crawlExecutionId w = Some ((0, e), w')
     ∧ tables w' = tables w)
  ∧ (d !! "endTime" = None →
     clean 1 (rethink_net w) = true →
     ∃ replaced w',
       setCrawlExecutionStateAbortedTimeout crawlExecutionId w = Some ((replaced, None), w')
       ∧ Rethink.row (tables w') rethinkDbTableCrawlExecutions crawlExecutionId
         = Some (<["desiredState" := VStr "ABORTED_TIMEOUT"]> d)
       ∧ ∀ id, id ≠ crawlExecutionId →
           Rethink.row (tables w') rethinkDbTableCrawlExecutions id
           = Rethink.row (tables w) rethinkDbTableCrawlExecutions id).
Proof.
  intros Ht Hd. split.
  - intros Hend.
    destruct (setCrawlExecutionStateAbortedTimeout_total crawlExecutionId w)
      as ([replaced e] & w' & Hrun).
    destruct (setCrawlExecutionStateAbortedTimeout_ended _ _ _ _ _ _ _ Ht Hd Hend Hrun)
      as [Htables ->].
    by exists e, w'.
  - intros Hnone Hclean.
    rewrite (setCrawlExecutionStateAbortedTimeout_clean _ _ _ _ Hclean Ht Hd).
    unfold HasFields. rewrite Hnone.
    eexists _, _. split; [reflexivity |]. cbn [tables]. unfold Rethink.row.
    rewrite lookup_insert_eq, Ht. split; [by rewrite lookup_insert_eq |].
    intros id Hne. by rewrite lookup_insert_ne.
Qed.

Lemma end_time_guards_abort_witness :
  (∃ e w',
      setCrawlExecutionStateAbortedTimeout "C1" Example.oneEnded = Some ((0, e), w')
      ∧ tables w' = tables Example.oneEnded)
  ∧ ∃ replaced w',
      setCrawlExecutionStateAbortedTimeout "C2" Example.oneEnded = Some ((replaced, None), w')
      ∧ Rethink.row (tables w') rethinkDbTableCrawlExecutions "C2"
        = Some (<["desiredState" := VStr "ABORTED_TIMEOUT"]> {[ "id" := VStr "C2" ]}).
Proof.
  split.
  - apply (end_time_guards_abort "C1" Example.oneEnded
             {[ "C1" := {[ "id" := VStr "C1"; "endTime" := VStr "2021-11-09T10:00:00Z" ]};
                "C2" := {[ "id" := VStr "C2" ]} ]}
             {[ "id" := VStr "C1"; "endTime" := VStr "2021-11-09T10:00:00Z" ]});
      vm_compute; reflexivity.
  - destruct (end_time_guards_abort "C2" Example.oneEnded
                {[ "C1" := {[ "id" := VStr "C1"; "endTime" := VStr "2021-11-09T10:00:00Z" ]};
                   "C2" := {[ "id" := VStr "C2" ]} ]}
                {[ "id" := VStr "C2" ]}) as [_ Hset]; [vm_compute; reflexivity .. |].
    destruct Hset as (replaced & w' & Hrun & Hrow & _); [vm_compute; reflexivity .. |].
    by exists replaced, w'.
Defined.

(** ** C9 *)

(** C9: in [TimeoutCrawlExecutions], when the durable update for a popped
    id fails and the push that should put the id back fails too, the
    operation returns the count with an error built from the update error,
    the push error and the id, whose text says that the id must be inserted
    into the timeout queue manually; the id is not in the queue any more. *)
Theorem timeout_lost_rollback_is_reported fuel count w ceid w1 replaced e w2 n re w3 :
  Client.LPop redisCrawlExecutionTimeoutQueue w = Some ((ceid, None), w1) →
  setCrawlExecutionStateAbortedTimeout ceid w1 = Some ((replaced, Some e), w2) →
  Client.RPush redisCrawlExecutionTimeoutQueue ceid w2 = Some ((n, Some re), w3) →
  TimeoutCrawlExecutions_loop (S fuel) count w
  = Some ((count,
           Some (Errorf "%v:  %w: failed to recover ceid %s (must be inserted into timeout queue manually):"
                   [AErr e; AErr re; AStr ceid])),
          w3)
  ∧ list_at (kv w) redisCrawlExecutionTimeoutQueue
    = ceid :: list_at (kv w3) redisCrawlExecutionTimeoutQueue
  ∧ tables w3 = tables w2.
Proof.
  intros Hpop Hset Hpush. split.
  - cbn [TimeoutCrawlExecutions_loop]. unfold bind at 1.
    rewrite Hpop. unfold bind at 1. rewrite Hset. unfold bind. by rewrite Hpush.
  - apply RPush_failed in Hpush as (Hkv3 & Ht3 & _).
    apply setCrawlExecutionStateAbortedTimeout_keeps_queue_store in Hset as (Hkv2 & _).
    rewrite Hkv3, Hkv2. split; [by apply LPop_popped | done].
Qed.

Lemma timeout_lost_rollback_is_reported_witness :
  ∃ w3,
    TimeoutCrawlExecutions Example.lostRollback
    = Some ((0,
             Some (Errorf "%v:  %w: failed to recover ceid %s (must be inserted into timeout queue manually):"
                     [AErr (Errorf "failed to %s after %d of %d attempts: %w"
                              [AStr "set-crawl-execution-state-aborted-timeout"; AInt 1;
                               AInt 4; AErr (Foreign "connection refused")]);
                      AErr (Foreign "connection reset"); AStr "C1"])),
            w3)
    ∧ list_at (kv w3) redisCrawlExecutionTimeoutQueue = ["C2"].
Proof.
  pose (w1 := after (Client.LPop redisCrawlExecutionTimeoutQueue) Example.lostRollback).
  pose (w2 := after (setCrawlExecutionStateAbortedTimeout "C1") w1).
  pose (w3 := after (Client.RPush redisCrawlExecutionTimeoutQueue "C1") w2).
  destruct (timeout_lost_rollback_is_reported 2 0 Example.lostRollback "C1" w1 0
              (Errorf "failed to %s after %d of %d attempts: %w"
                 [AStr "set-crawl-execution-state-aborted-timeout"; AInt 1; AInt 4;
                  AErr (Foreign "connection refused")])
              w2 0 (Foreign "connection reset") w3) as (Hrun & Hq & _);
    [vm_compute; reflexivity .. |].
  exists w3. split; [exact Hrun |]. vm_compute. reflexivity.
Defined.

(** ** C10 *)

(** C10: when [TimeoutCrawlExecutions] pops an id whose durable record has
    an end time and the write is served, the update succeeds with zero
    records replaced and the durable store unchanged; the id is off the
    timeout queue and is not pushed back, the count stays as it was, and
    the loop goes on with the rest of the queue, where it returns. *)
Theorem timeout_skips_ended fuel count w ceid rest t d :
  list_at (kv w) redisCrawlExecutionTimeoutQueue = ceid :: rest →
  served 1 (redis_net w) = true →
  clean 1 (rethink_net w) = true →
  tables w !! rethinkDbTableCrawlExecutions = Some t →
  t !! ceid = Some d →
  HasFields "endTime" d = true →
  ∃ w1 w2,
    Client.LPop redisCrawlExecutionTimeoutQueue w = Some ((ceid, None), w1)
    ∧ setCrawlExecutionStateAbortedTimeout ceid w1 = Some ((0, None), w2)
    ∧ list_at (kv w2) redisCrawlExecutionTimeoutQueue = rest
    ∧ tables w2 = tables w
    ∧ calls w2 = calls w ++ [CLPop redisCrawlExecutionTimeoutQueue;
                             CRunWrite "set-crawl-execution-state-aborted-timeout"]
    ∧ TimeoutCrawlExecutions_loop (S fuel) count w
      = TimeoutCrawlExecutions_loop fuel count w2
    ∧ ((length rest < fuel)%nat →
       ∃ r w', TimeoutCrawlExecutions_loop fuel count w2 = Some (r, w')).
Proof.
  intros Hq Hnet Hclean Ht Hd Hend.
  pose proof (LPop_served _ _ _ _ Hq Hnet) as Hpop.
  eexists _, _. split; [exact Hpop |].
  rewrite (setCrawlExecutionStateAbortedTimeout_clean ceid _ t d);
    [| done | done | done].
  rewrite Hend. rewrite decide_True by done. cbn [kv tables calls].
  rewrite (insert_id t), (insert_id (tables w)) by done.
  split; [reflexivity |].
  split; [apply list_at_put_list |].
  split; [done |].
  split; [by rewrite <- app_assoc |].
  split.
  - cbn [TimeoutCrawlExecutions_loop]. unfold bind at 1. rewrite Hpop.
    unfold bind at 1.
    rewrite (setCrawlExecutionStateAbortedTimeout_clean ceid _ t d);
      [| done | done | done].
    rewrite Hend. rewrite decide_True by done. cbn [kv tables calls].
    rewrite (insert_id t), (insert_id (tables w)) by done. by rewrite Z.add_0_r.
  - intros Hfuel. apply TimeoutCrawlExecutions_loop_total. cbn [kv].
    by rewrite list_at_put_list.
Qed.

Lemma timeout_skips_ended_witness :
  ∃ w2,
    list_at (kv w2) redisCrawlExecutionTimeoutQueue = ["C2"]
    ∧ tables w2 = tables Example.oneEnded
    ∧ TimeoutCrawlExecutions Example.oneEnded = TimeoutCrawlExecutions_loop 2 0 w2.
Proof.
  destruct (timeout_skips_ended 2 0 Example.oneEnded "C1" ["C2"]
              {[ "C1" := {[ "id" := VStr "C1"; "endTime" := VStr "2021-11-09T10:00:00Z" ]};
                 "C2" := {[ "id" := VStr "C2" ]} ]}
              {[ "id" := VStr "C1"; "endTime" := VStr "2021-11-09T10:00:00Z" ]})
    as (w1 & w2 & _ & _ & Hq & Ht & _ & Hloop & _);
    [vm_compute; reflexivity .. |].
  exists w2. split; [exact Hq |]. split; [exact Ht |]. exact Hloop.
Defined.

(** ** C3 *)



(** ** C4 *)

(** C4 fails on the code: with two cached job executions, the first update
    served (it replaces the record of "a") and the second broken, the cycle
    stops with the error, but the count it returns is the [replaced] of the
    failed update, 0, not the 1 accumulated so far. *)
Theorem update_failure_drops_the_count :
  ∃ w',
    UpdateJobExecutions Example.stateValue Example.twoJobs
    = Some ((0,
             Some (Errorf "failed to update job execution status: %w"
                     [AErr (Errorf "failed to %s after %d of %d attempts: %w"
                              [AStr "update-job-execution-status"; AInt 1; AInt 4;
                               AErr (Foreign "connection refused")])])),
            w')
    ∧ Rethink.row (tables w') rethinkDbTableJobExecutions "a"
      = Some {[ "id" := VStr "a"; "state" := VStr "RUNNING";
                "documentsCrawled" := VNum 5;
                "executionsState" := VStates [("FETCHING", 2)] ]}
    ∧ Rethink.row (tables w') rethinkDbTableJobExecutions "b"
      = Some {[ "id" := VStr "b"; "state" := VStr "RUNNING" ]}.
Proof.
  eexists. split; [vm_compute; reflexivity |].
  split; vm_compute; reflexivity.
Qed.

(** ** C5 *)

(** C5: for every non-empty batch of ids that [RemoveFromUriQueue] reads:
    if the bulk delete fails, the operation returns the deleted count of the
    failed write (zero or partial, never more than the batch) with the error,
    and the queue store is as it was, so no id left the removal queue; if
    the bulk delete succeeds and the queue store runs the removal pipeline,
    the removal queue loses the whole batch it was read from, whatever rows
    the durable table held. *)
Theorem uri_removal_after_bulk_delete w uriIds w1 :
  Client.LRange redisRemoveUriQueue 0 9999 w = Some ((uriIds, None), w1) →
  uriIds ≠ [] →
  (∀ removed e w2,
     removeQueuedUris uriIds w1 = Some ((removed, Some e), w2) →
     RemoveFromUriQueue w
     = Some ((removed,
              Some (Errorf "removed %d of %d queued uris: %w"
                      [AInt removed; AInt (Z.of_nat (length uriIds)); AErr e])),
             w2)
     ∧ kv w2 = kv w
     ∧ 0 <= removed <= Z.of_nat (length uriIds))
  ∧ (∀ removed w2,
       removeQueuedUris uriIds w1 = Some ((removed, None), w2) →
       served 1 (redis_net w2) = true →
       ∃ w3,
         RemoveFromUriQueue w = Some ((removed, None), w3)
         ∧ list_at (kv w) redisRemoveUriQueue
           = uriIds ++ list_at (kv w3) redisRemoveUriQueue
         ∧ tables w3 = tables w2).
Proof.
  intros Hread Hne.
  pose proof (LRange_inv redisRemoveUriQueue 9999 w uriIds None w1 ltac:(lia) Hread)
    as (_ & Hkv1 & _ & _ & _ & Hids).
  specialize (Hids eq_refl).
  assert ((Z.of_nat (length uriIds) =? 0) = false) as Hlen.
  { destruct uriIds; [done | apply Z.eqb_neq; cbn [length]; lia]. }
  split.
  - intros removed e w2 Hdel.
    pose proof (removeQueuedUris_inv _ _ _ _ _ Hdel) as ((Hkv2 & _) & Hcount).
    split; [| by rewrite Hkv2, Hkv1].
    unfold RemoveFromUriQueue, bind at 1. rewrite Hread, Hlen.
    unfold bind at 1. by rewrite Hdel.
  - intros removed w2 Hdel Hnet.
    pose proof (removeQueuedUris_inv _ _ _ _ _ Hdel) as ((Hkv2 & _) & _).
    destruct (deleteFromRemoveQueue_inv uriIds
                (drop (Z.to_nat (9999 + 1)) (list_at (kv w) redisRemoveUriQueue)) w2)
      as (err & w3 & Hpipe & (Ht3 & _) & _ & Hq3 & Hserved).
    { rewrite Hkv2, Hkv1, Hids. by rewrite take_drop. }
    rewrite (Hserved Hnet) in Hpipe, Hq3.
    exists w3. split; [| split; [| done]].
    + unfold RemoveFromUriQueue, bind at 1. rewrite Hread, Hlen.
      unfold bind at 1. rewrite Hdel. unfold bind. by rewrite Hpipe.
    + rewrite Hq3, Hids at 1. by rewrite take_drop.
Qed.

Lemma uri_removal_after_bulk_delete_witness :
  (∃ e w2,
      RemoveFromUriQueue (Example.threeToRemove [Served ["u2"]]) = Some ((1, Some e), w2)
      ∧ kv w2 = kv (Example.threeToRemove [Served ["u2"]]))
  ∧ ∃ w3,
      RemoveFromUriQueue (Example.threeToRemove []) = Some ((2, None), w3)
      ∧ ["u1"; "u2"; "u3"] = ["u1"; "u2"; "u3"] ++ list_at (kv w3) redisRemoveUriQueue.
Proof.
  split.
  - pose (w := Example.threeToRemove [Served ["u2"]]).
    pose (w1 := after (Client.LRange redisRemoveUriQueue 0 9999) w).
    pose (w2 := after (removeQueuedUris ["u1"; "u2"; "u3"]) w1).
    destruct (uri_removal_after_bulk_delete w ["u1"; "u2"; "u3"] w1) as [Hfail _];
      [vm_compute; reflexivity | done |].
    destruct (Hfail 1
                (Errorf "failed to %s after %d of %d attempts: %w"
                   [AStr "delete-queued-uris"; AInt 1; AInt 4;
                    AErr (Errorf "%s" [AStr Rethink.storageError])]) w2)
      as (Hrun & Hkv & _); [vm_compute; reflexivity |].
    eexists _, w2. split; [exact Hrun | exact Hkv].
  - pose (w := Example.threeToRemove []).
    pose (w1 := after (Client.LRange redisRemoveUriQueue 0 9999) w).
    pose (w2 := after (removeQueuedUris ["u1"; "u2"; "u3"]) w1).
    destruct (uri_removal_after_bulk_delete w ["u1"; "u2"; "u3"] w1) as [_ Hok];
      [vm_compute; reflexivity | done |].
    destruct (Hok 2 w2) as (w3 & Hrun & Hq & _); [vm_compute; reflexivity .. |].
    exists w3. split; [exact Hrun | exact Hq].
Defined.

(** ** C6 *)

(** C6: in every state, [RemoveFromUriQueue] returns; its first round trip
    is the single read LRANGE REMURI 0 9999, which yields at most 10,000
    ids, and no later round trip reads from the queue store; the count it
    returns is at most 10,000 and the removal queue afterwards is either as
    it was or without its first 10,000 entries.  When the queue holds no
    id, the count is 0, the read is the only round trip, and both stores
    are as they were. *)
Theorem uri_removal_reads_one_batch w :
  ∃ uriIds readErr w1 count err w',
    Client.LRange redisRemoveUriQueue 0 9999 w = Some ((uriIds, readErr), w1)
    ∧ Z.of_nat (length uriIds) <= 10000
    ∧ RemoveFromUriQueue w = Some ((count, err), w')
    ∧ 0 <= count <= 10000
    ∧ (∃ later,
         calls w' = calls w ++ CLRange redisRemoveUriQueue 0 9999 :: later
         ∧ forallb (λ c, negb (queue_read c)) later = true)
    ∧ (list_at (kv w') redisRemoveUriQueue = list_at (kv w) redisRemoveUriQueue
       ∨ list_at (kv w') redisRemoveUriQueue
         = drop (Z.to_nat 10000) (list_at (kv w) redisRemoveUriQueue))
    ∧ (list_at (kv w) redisRemoveUriQueue = [] →
       count = 0
       ∧ calls w' = calls w ++ [CLRange redisRemoveUriQueue 0 9999]
       ∧ kv w' = kv w
       ∧ tables w' = tables w).
Proof.
  destruct (roundtrip_total (CLRange redisRemoveUriQueue 0 9999) []
              (LRANGE redisRemoveUriQueue 0 9999) w) as ([uriIds readErr] & w1 & Hread).
  fold (Client.LRange redisRemoveUriQueue 0 9999) in Hread.
  pose proof (LRange_inv redisRemoveUriQueue 9999 w uriIds readErr w1 ltac:(lia) Hread)
    as ((Ht1 & _) & Hkv1 & _ & Hcalls1 & Hlen & Hids).
  replace (9999 + 1) with 10000 in Hlen, Hids by lia.
  exists uriIds, readErr, w1.
  assert (∀ count err w',
            RemoveFromUriQueue w = Some ((count, err), w') →
            0 <= count <= 10000 →
            (∃ later, calls w' = calls w1 ++ later
                      ∧ forallb (λ c, negb (queue_read c)) later = true) →
            (kv w' = kv w
             ∨ (uriIds ≠ []
                ∧ list_at (kv w') redisRemoveUriQueue
                  = drop (Z.to_nat 10000) (list_at (kv w) redisRemoveUriQueue))) →
            (uriIds = [] ∨ readErr ≠ None → w' = w1) →
            (readErr = None → list_at (kv w) redisRemoveUriQueue = [] → uriIds = []) →
            ∃ count err w',
              Client.LRange redisRemoveUriQueue 0 9999 w = Some ((uriIds, readErr), w1)
              ∧ Z.of_nat (length uriIds) <= 10000
              ∧ RemoveFromUriQueue w = Some ((count, err), w')
              ∧ 0 <= count <= 10000
              ∧ (∃ later,
                   calls w' = calls w ++ CLRange redisRemoveUriQueue 0 9999 :: later
                   ∧ forallb (λ c, negb (queue_read c)) later = true)
              ∧ (list_at (kv w') redisRemoveUriQueue = list_at (kv w) redisRemoveUriQueue
                 ∨ list_at (kv w') redisRemoveUriQueue
                   = drop (Z.to_nat 10000) (list_at (kv w) redisRemoveUriQueue))
              ∧ (list_at (kv w) redisRemoveUriQueue = [] →
                 count = 0
                 ∧ calls w' = calls w ++ [CLRange redisRemoveUriQueue 0 9999]
                 ∧ kv w' = kv w
                 ∧ tables w' = tables w)) as Hpack.
  { intros count err w' Hrun Hcount (later & Hcalls & Hlater) Hqueue Hstop Hempty.
    exists count, err, w'.
    split; [done |]. split; [lia |]. split; [done |]. split; [done |].
    split; [exists later; by rewrite Hcalls, Hcalls1, <- app_assoc |].
    split; [destruct Hqueue as [-> | [_ ->]]; by eauto |].
    intros Hnil.
    assert (w' = w1) as ->.
    { apply Hstop. destruct readErr; [by right | left; by apply Hempty]. }
    assert (count = 0) as ->.
    { unfold RemoveFromUriQueue, bind at 1 in Hrun. rewrite Hread in Hrun.
      destruct readErr; [by injection Hrun as <- _ |].
      rewrite (Hempty eq_refl Hnil) in Hrun. by injection Hrun as <- _. }
    done. }
  destruct readErr as [e |].
  { eapply Hpack; [by unfold RemoveFromUriQueue, bind at 1; rewrite Hread | lia | ..].
    - exists []. by rewrite app_nil_r.
    - by left.
    - done.
    - done. }
  specialize (Hids eq_refl).
  destruct (decide (uriIds = [])) as [Hnil | Hne].
  { eapply Hpack; [by unfold RemoveFromUriQueue, bind at 1; rewrite Hread, Hnil | lia | ..].
    - exists []. by rewrite app_nil_r.
    - by left.
    - done.
    - done. }
  assert ((Z.of_nat (length uriIds) =? 0) = false) as Hlen0.
  { destruct uriIds; [done | apply Z.eqb_neq; cbn [length]; lia]. }
  assert (list_at (kv w) redisRemoveUriQueue = [] → uriIds = []) as Hempty.
  { intros Hl. rewrite Hids, Hl. by rewrite take_nil. }
  destruct (removeQueuedUris_total uriIds w1) as ([removed err2] & w2 & Hdel).
  pose proof (removeQueuedUris_inv _ _ _ _ _ Hdel) as ((Hkv2 & _) & Hcount).
  destruct (removeQueuedUris_calls _ _ _ _ Hdel) as (later2 & Hcalls2 & Hlater2).
  apply durable_call_not_read in Hlater2.
  destruct err2 as [e |].
  { eapply Hpack.
    - unfold RemoveFromUriQueue, bind at 1. rewrite Hread, Hlen0.
      unfold bind at 1. by rewrite Hdel.
    - lia.
    - by exists later2.
    - left. by rewrite Hkv2.
    - by intros [? | ?].
    - by intros _. }
  destruct (deleteFromRemoveQueue_inv uriIds
              (drop (Z.to_nat 10000) (list_at (kv w) redisRemoveUriQueue)) w2)
    as (err3 & w3 & Hpipe & _ & Hcalls3 & Hq3 & _).
  { rewrite Hkv2, Hkv1, Hids. by rewrite take_drop. }
  assert (∃ err, RemoveFromUriQueue w = Some ((removed, err), w3)) as [err Hrun].
  { unfold RemoveFromUriQueue, bind at 1. rewrite Hread, Hlen0.
    unfold bind at 1. rewrite Hdel. unfold bind. rewrite Hpipe.
    destruct err3; by eexists. }
  eapply Hpack; [exact Hrun | lia | ..].
  - eexists. rewrite Hcalls3, Hcalls2, <- app_assoc. split; [done |].
    by rewrite forallb_app, Hlater2.
  - destruct err3 as [e |]; [left; by rewrite Hq3, Hkv2 | right; done].
  - by intros [? | ?].
  - by intros _.
Qed.

(** An empty removal queue, and one that holds 10,001 ids. *)
Lemma uri_removal_reads_one_batch_witness :
  (∃ w',
      RemoveFromUriQueue (Example.quiet ∅ ∅) = Some ((0, None), w')
      ∧ calls w' = [CLRange redisRemoveUriQueue 0 9999])
  ∧ ∃ uriIds w',
      (∃ e w1,
          Client.LRange redisRemoveUriQueue 0 9999 Example.crowded = Some ((uriIds, e), w1))
      ∧ Z.of_nat (length uriIds) <= 10000
      ∧ RemoveFromUriQueue Example.crowded = Some ((0, None), w')
      ∧ list_at (kv w') redisRemoveUriQueue = ["u"].
Proof.
  split.
  - destruct (uri_removal_reads_one_batch (Example.quiet ∅ ∅))
      as (uriIds & readErr & w1 & count & err & w' & _ & _ & Hrun & _ & _ & _ & Hempty).
    destruct (Hempty eq_refl) as (-> & Hcalls & _).
    exists w'. split; [| exact Hcalls].
    assert (err = None) as <-; [| exact Hrun].
    pose proof Hrun as Hrun'. vm_compute in Hrun'. by injection Hrun'.
  - destruct (uri_removal_reads_one_batch Example.crowded)
      as (uriIds & readErr & w1 & count & err & w' & Hread & Hlen & Hrun & _).
    exists uriIds, w'. split; [by exists readErr, w1 |]. split; [exact Hlen |].
    pose proof Hrun as Hrun'. vm_compute in Hrun'.
    injection Hrun' as <- <- <-. split; [exact Hrun |].
    vm_compute. reflexivity.
Defined.

(** * Further properties of the code *)

(** ** The delayed move *)

Lemma ZREM_other key member (kv : keyspace) k :
  k ≠ key → (ZREM key member kv).2 !! k = kv !! k.
Proof.
  intros Hne. unfold ZREM.
  destruct (kv !! key) as [[l | z | h] |]; try done.
  cbn. by apply lookup_put_zset_ne.
Qed.

Lemma RPUSH_other key value (kv : keyspace) k :
  k ≠ key → (RPUSH key value kv).2 !! k = kv !! k.
Proof.
  intros Hne. unfold RPUSH.
  destruct (kv !! key) as [[l | z | h] |]; try done.
  - cbn. by apply lookup_put_list_ne.
  - cbn. by apply lookup_insert_ne.
Qed.

Lemma for_ipairs_other fromQueueKey toQueueKey res moved (kv : keyspace) k :
  k ≠ fromQueueKey → k ≠ toQueueKey →
  (Lua.for_ipairs fromQueueKey toQueueKey res moved kv).2 !! k = kv !! k.
Proof.
  intros Hfrom Hto. revert moved kv.
  induction res as [| key res IH]; intros moved kv; [done |].
  cbn [Lua.for_ipairs].
  pose proof (ZREM_other fromQueueKey key kv k Hfrom) as Hz.
  destruct (ZREM fromQueueKey key kv) as [[e | n] kv1]; [done |].
  pose proof (RPUSH_other toQueueKey key kv1 k Hto) as Hp.
  destruct (RPUSH toQueueKey key kv1) as [[e | n'] kv2]; cbn in *; [congruence |].
  rewrite IH. congruence.
Qed.

Lemma chg_delayed_queue_other fromQueueKey toQueueKey now (kv : keyspace) k :
  k ≠ fromQueueKey → k ≠ toQueueKey →
  (Lua.chg_delayed_queue fromQueueKey toQueueKey now kv).2 !! k = kv !! k.
Proof.
  intros Hfrom Hto. unfold Lua.chg_delayed_queue, ZRANGEBYSCORE.
  destruct (kv !! fromQueueKey) as [[l | z | h] |]; try done.
  by apply for_ipairs_other.
Qed.

(** X1: whatever the two keys hold and whatever the connection does, a
    delayed move is one round trip that leaves every key other than its two
    queues, and the durable store, as they were; when it returns an error,
    the count it returns is 0. *)
Theorem delayed_move_touches_only_its_queues fromQueue toQueue now w :
  ∃ count err w',
    moveChg fromQueue toQueue now w = Some ((count, err), w')
    ∧ (∀ k, k ≠ fromQueue → k ≠ toQueue → kv w' !! k = kv w !! k)
    ∧ tables w' = tables w
    ∧ calls w' = calls w ++ [CRunScript [fromQueue; toQueue] [now]]
    ∧ (is_Some err → count = 0).
Proof.
  unfold moveChg, Client.RunMoveScript.
  destruct (roundtrip_total (CRunScript [fromQueue; toQueue] [now]) 0
              (Lua.chg_delayed_queue fromQueue toQueue now) w) as ([count err] & w' & Hrun).
  exists count, err, w'. split; [done |].
  apply roundtrip_inv in Hrun as ((Ht & _) & _ & Hcalls & Hcase).
  split; [| split; [done | split; [done |]]].
  - intros k Hfrom Hto.
    destruct Hcase as [(-> & _) | (_ & Hcmd & _)]; [done |].
    pose proof (chg_delayed_queue_other fromQueue toQueue now (kv w) k Hfrom Hto) as Hk.
    by rewrite Hcmd in Hk.
  - destruct Hcase as [(_ & -> & _) | (_ & _ & Hzero)]; [done | exact Hzero].
Qed.

Lemma filter_split_perm {A : Type} (P : A → bool) (l : list A) :
  List.filter P l ++ List.filter (λ x, negb (P x)) l ≡ₚ l.
Proof.
  induction l as [| x l IH]; [done |]. cbn.
  destruct (P x); cbn.
  - by rewrite IH.
  - by rewrite <- Permutation_middle, IH.
Qed.

(** What a served delayed move does to typed queues. *)
Lemma moveChg_served fromQueue toQueue now w :
  holds_zset (kv w) fromQueue = true →
  holds_list (kv w) toQueue = true →
  NoDup (zset_at (kv w) fromQueue).*1 →
  served 1 (redis_net w) = true →
  ∃ w',
    moveChg fromQueue toQueue now w
      = Some ((Z.of_nat (length (List.filter (in_range 0 now) (zset_at (kv w) fromQueue))),
               None), w')
    ∧ zset_at (kv w') fromQueue
      = List.filter (λ e, negb (in_range 0 now e)) (zset_at (kv w) fromQueue)
    ∧ list_at (kv w') toQueue
      = list_at (kv w) toQueue
          ++ (List.filter (in_range 0 now) (zset_at (kv w) fromQueue)).*1
    ∧ (∀ k, k ≠ fromQueue → k ≠ toQueue → kv w' !! k = kv w !! k)
    ∧ redis_net w' = tail (redis_net w)
    ∧ tables w' = tables w.
Proof.
  intros Hz Hl Hnd Hnet.
  destruct (chg_delayed_queue_due fromQueue toQueue now (kv w) Hz Hl Hnd)
    as (kv' & Hrun & Hz' & Hl' & Hfr & _).
  unfold moveChg, Client.RunMoveScript. rewrite roundtrip_served by done.
  rewrite Hrun. eexists. split; [reflexivity |]. done.
Qed.

Lemma zset_ok_NoDup z : zset_ok z = true → NoDup z.*1.
Proof. by intros [Hnd%bool_decide_eq_true _]%andb_true_iff. Qed.

Lemma zset_at_other (kv kv' : keyspace) key :
  kv' !! key = kv !! key → zset_at kv' key = zset_at kv key.
Proof. unfold zset_at. by intros ->. Qed.

Lemma list_at_other (kv kv' : keyspace) key :
  kv' !! key = kv !! key → list_at kv' key = list_at kv key.
Proof. unfold list_at. by intros ->. Qed.

(** X2: a crawl host group is in one state at a time.  With the four
    queues holding what they should, moving from wait to ready and from
    busy to timeout only rearranges the members of the four queues: none is
    lost, none is doubled, and if no member was in two queues before, none
    is afterwards. *)
Theorem chg_moves_keep_one_state now w :
  holds_zset (kv w) redisWaitQueue = true →
  holds_list (kv w) redisReadyQueue = true →
  holds_zset (kv w) redisBusyQueue = true →
  holds_list (kv w) redisTimeoutQueue = true →
  zset_ok (zset_at (kv w) redisWaitQueue) = true →
  zset_ok (zset_at (kv w) redisBusyQueue) = true →
  served 1 (redis_net w) = true →
  (∃ n w',
      MoveWaitToReady now w = Some ((n, None), w')
      ∧ chgMembers (kv w') ≡ₚ chgMembers (kv w)
      ∧ (NoDup (chgMembers (kv w)) → NoDup (chgMembers (kv w'))))
  ∧ (∃ n w',
        MoveBusyToTimeout now w = Some ((n, None), w')
        ∧ chgMembers (kv w') ≡ₚ chgMembers (kv w)
        ∧ (NoDup (chgMembers (kv w)) → NoDup (chgMembers (kv w')))).
Proof.
  intros Hwait Hready Hbusy Htimeout Hokw Hokb Hnet.
  apply zset_ok_NoDup in Hokw, Hokb.
  split.
  - destruct (moveChg_served redisWaitQueue redisReadyQueue now w)
      as (w' & Hrun & Hfrom & Hto & Hfr & _); try done.
    assert (chgMembers (kv w') ≡ₚ chgMembers (kv w)) as Hperm.
    { unfold chgMembers. rewrite Hfrom, Hto.
      rewrite (zset_at_other (kv w) (kv w') redisBusyQueue) by (by apply Hfr).
      rewrite (list_at_other (kv w) (kv w') redisTimeoutQueue) by (by apply Hfr).
      pose proof (fmap_Permutation fst _ _
                    (filter_split_perm (in_range 0 now) (zset_at (kv w) redisWaitQueue)))
        as Hsplit.
      rewrite fmap_app in Hsplit. rewrite <- Hsplit. solve_Permutation. }
    eexists _, w'. split; [exact Hrun |]. split; [exact Hperm |].
    intros Hnd. by rewrite Hperm.
  - destruct (moveChg_served redisBusyQueue redisTimeoutQueue now w)
      as (w' & Hrun & Hfrom & Hto & Hfr & _); try done.
    assert (chgMembers (kv w') ≡ₚ chgMembers (kv w)) as Hperm.
    { unfold chgMembers. rewrite Hfrom, Hto.
      rewrite (zset_at_other (kv w) (kv w') redisWaitQueue) by (by apply Hfr).
      rewrite (list_at_other (kv w) (kv w') redisReadyQueue) by (by apply Hfr).
      pose proof (fmap_Permutation fst _ _
                    (filter_split_perm (in_range 0 now) (zset_at (kv w) redisBusyQueue)))
        as Hsplit.
      rewrite fmap_app in Hsplit. rewrite <- Hsplit. solve_Permutation. }
    eexists _, w'. split; [exact Hrun |]. split; [exact Hperm |].
    intros Hnd. by rewrite Hperm.
Qed.

(** X3: the script is not undone when it fails.  When [toQueue] is another
    key that holds something that is not a list and an entry is due, the move returns
    count 0 with the error of the push; the first due entry is gone from
    [fromQueue] and is in no queue, and [toQueue] is as it was. *)
Theorem delayed_move_wrong_type_loses_entry fromQueue toQueue now w d due :
  fromQueue ≠ toQueue →
  holds_zset (kv w) fromQueue = true →
  holds_list (kv w) toQueue = false →
  List.filter (in_range 0 now) (zset_at (kv w) fromQueue) = d :: due →
  served 1 (redis_net w) = true →
  ∃ w',
    moveChg fromQueue toQueue now w = Some ((0, Some WRONGTYPE), w')
    ∧ zset_at (kv w') fromQueue = zrem d.1 (zset_at (kv w) fromQueue)
    ∧ kv w' !! toQueue = kv w !! toQueue
    ∧ ∀ k, k ≠ fromQueue → kv w' !! k = kv w !! k.
Proof.
  intros Hne Hz Hl Hdue Hnet.
  unfold moveChg, Client.RunMoveScript. rewrite roundtrip_served by done.
  unfold Lua.chg_delayed_queue. rewrite ZRANGEBYSCORE_zset_at by done.
  rewrite Hdue. rewrite fmap_cons. cbn [Lua.for_ipairs].
  assert (∃ n, ZREM fromQueue d.1 (kv w)
               = (inr n, put_zset fromQueue (zrem d.1 (zset_at (kv w) fromQueue)) (kv w)))
    as [n ->].
  { unfold ZREM, zset_at. unfold zset_at in Hdue.
    destruct (kv w !! fromQueue) as [[l | z | h] |]; try done. by eexists. }
  assert (RPUSH toQueue d.1 (put_zset fromQueue (zrem d.1 (zset_at (kv w) fromQueue)) (kv w))
          = (inl WRONGTYPE,
             put_zset fromQueue (zrem d.1 (zset_at (kv w) fromQueue)) (kv w))) as ->.
  { unfold RPUSH. rewrite lookup_put_zset_ne by done. unfold holds_list in Hl.
    by destruct (kv w !! toQueue) as [[l | z | h] |]. }
  eexists. split; [reflexivity |]. cbn [kv].
  split; [apply zset_at_put_zset |].
  split; [by apply lookup_put_zset_ne |].
  intros k Hk. by apply lookup_put_zset_ne.
Qed.

Lemma for_ipairs_types fromQueueKey toQueueKey res :
  fromQueueKey ≠ toQueueKey →
  ∀ moved (kv : keyspace),
    holds_zset kv fromQueueKey = true →
    holds_list kv toQueueKey = true →
    holds_zset (Lua.for_ipairs fromQueueKey toQueueKey res moved kv).2 fromQueueKey = true
    ∧ holds_list (Lua.for_ipairs fromQueueKey toQueueKey res moved kv).2 toQueueKey = true.
Proof.
  intros Hne. induction res as [| key res IH]; intros moved kv Hz Hl; [done |].
  cbn [Lua.for_ipairs].
  assert (∃ n kv1, ZREM fromQueueKey key kv = (inr n, kv1)
            ∧ holds_zset kv1 fromQueueKey = true
            ∧ holds_list kv1 toQueueKey = true) as (n & kv1 & -> & Hz1 & Hl1).
  { unfold ZREM. unfold holds_zset in Hz.
    destruct (kv !! fromQueueKey) as [[l | z | h] |] eqn:E; try done.
    - eexists _, _. split; [done |]. split; [apply holds_zset_put_zset |].
      unfold holds_list. by rewrite lookup_put_zset_ne.
    - eexists _, _. split; [done |]. unfold holds_zset. by rewrite E. }
  assert (∃ n' kv2, RPUSH toQueueKey key kv1 = (inr n', kv2)
            ∧ holds_zset kv2 fromQueueKey = true
            ∧ holds_list kv2 toQueueKey = true) as (n' & kv2 & -> & Hz2 & Hl2).
  { unfold RPUSH. unfold holds_list in Hl1.
    destruct (kv1 !! toQueueKey) as [[l | z | h] |] eqn:E; try done.
    - eexists _, _. split; [done |]. split; [| apply holds_list_put_list].
      unfold holds_zset. by rewrite lookup_put_list_ne.
    - eexists _, _. split; [done |]. split; [| apply (holds_list_put_list _ [key])].
      unfold holds_zset. by rewrite (lookup_put_list_ne _ _ [key]). }
  by apply IH.
Qed.

Lemma chg_delayed_queue_types fromQueueKey toQueueKey now (kv : keyspace) :
  holds_zset kv fromQueueKey = true →
  holds_list kv toQueueKey = true →
  holds_zset (Lua.chg_delayed_queue fromQueueKey toQueueKey now kv).2 fromQueueKey = true
  ∧ holds_list (Lua.chg_delayed_queue fromQueueKey toQueueKey now kv).2 toQueueKey = true.
Proof.
  intros Hz Hl. unfold Lua.chg_delayed_queue. rewrite ZRANGEBYSCORE_zset_at by done.
  destruct (List.filter (in_range 0 now) (zset_at kv fromQueueKey)) as [| d due] eqn:Edue;
    [done |].
  apply for_ipairs_types; try done.
  intros ->. unfold holds_list in Hl. unfold zset_at in Edue.
  by destruct (kv !! toQueueKey) as [[l | z | h] |].
Qed.

(** In a sorted set, the entries due at [now1] come before the others that
    are due at a later [now2]. *)
Lemma due_later_split now1 now2 z :
  now1 <= now2 →
  ascending z.*2 = true →
  List.filter (in_range 0 now2) z
  = List.filter (in_range 0 now1) z
      ++ List.filter (in_range 0 now2) (List.filter (λ e, negb (in_range 0 now1 e)) z).
Proof.
  intros Hle. induction z as [| e z IH]; [done |].
  rewrite fmap_cons. cbn [ascending]. intros [Hall Hasc]%andb_true_iff.
  specialize (IH Hasc). cbn [List.filter].
  destruct (in_range 0 now1 e) eqn:E1.
  - assert (in_range 0 now2 e = true) as ->.
    { unfold in_range in *. lia. }
    cbn. by rewrite IH.
  - cbn [negb List.filter]. destruct (in_range 0 now2 e) eqn:E2; [| done].
    assert (List.filter (in_range 0 now1) z = []) as Hnone.
    { clear IH Hasc. induction z as [| x z IHz]; [done |].
      rewrite fmap_cons in Hall. cbn [forallb] in Hall.
      apply andb_true_iff in Hall as [Hx Hall]. cbn [List.filter].
      replace (in_range 0 now1 x) with false; [by apply IHz |].
      unfold in_range in *. lia. }
    rewrite Hnone in *. cbn. by rewrite IH.
Qed.

Lemma NoDup_fmap_fst_filter (P : string * Z → bool) (z : list (string * Z)) :
  NoDup z.*1 → NoDup (List.filter P z).*1.
Proof.
  induction z as [| e z IH]; [done |]. rewrite fmap_cons.
  intros [Hin Hnd]%NoDup_cons. cbn [List.filter].
  destruct (P e); [| by apply IH].
  rewrite fmap_cons. apply NoDup_cons. split; [| by apply IH].
  intros (x & Hx & Hel%list_elem_of_In%filter_In%proj1%list_elem_of_In)%list_elem_of_fmap.
  apply Hin. apply list_elem_of_fmap. by exists x.
Qed.

Lemma filter_negb_twice now1 now2 (z : list (string * Z)) :
  now1 <= now2 →
  List.filter (λ e, negb (in_range 0 now2 e)) (List.filter (λ e, negb (in_range 0 now1 e)) z)
  = List.filter (λ e, negb (in_range 0 now2 e)) z.
Proof.
  intros Hle. rewrite filter_twice. apply List.filter_ext. intros e.
  unfold in_range. lia.
Qed.

(** X4: running the move again with a later [now] is safe.  On typed
    queues, a move at [now1] followed by a move at [now2 ≥ now1] leaves the
    two queues exactly as one move at [now2] does, and the two counts add up
    to the count of the one move. *)
Theorem delayed_move_later_now_composes fromQueue toQueue now1 now2 w :
  now1 <= now2 →
  holds_zset (kv w) fromQueue = true →
  holds_list (kv w) toQueue = true →
  zset_ok (zset_at (kv w) fromQueue) = true →
  served 2 (redis_net w) = true →
  ∃ n1 n2 w1 w2 w12,
    moveChg fromQueue toQueue now1 w = Some ((n1, None), w1)
    ∧ moveChg fromQueue toQueue now2 w1 = Some ((n2, None), w2)
    ∧ moveChg fromQueue toQueue now2 w = Some ((n1 + n2, None), w12)
    ∧ zset_at (kv w2) fromQueue = zset_at (kv w12) fromQueue
    ∧ list_at (kv w2) toQueue = list_at (kv w12) toQueue
    ∧ ∀ k, k ≠ fromQueue → k ≠ toQueue → kv w2 !! k = kv w12 !! k.
Proof.
  intros Hle Hz Hl Hok Hnet.
  pose proof Hok as [_ Hasc]%andb_true_iff.
  apply zset_ok_NoDup in Hok.
  pose proof Hnet as [_ Hnet']%served_head.
  assert (served 1 (redis_net w) = true) as Hnet1.
  { unfold served in *. by destruct (redis_net w) as [| [e |] net]. }
  destruct (moveChg_served fromQueue toQueue now1 w)
    as (w1 & Hrun1 & Hfrom1 & Hto1 & Hfr1 & Hnet1' & _); try done.
  assert (holds_zset (kv w1) fromQueue = true ∧ holds_list (kv w1) toQueue = true)
    as [Hz1 Hl1].
  { pose proof (chg_delayed_queue_types fromQueue toQueue now1 (kv w) Hz Hl) as Hty.
    unfold moveChg, Client.RunMoveScript in Hrun1.
    rewrite roundtrip_served in Hrun1 by done.
    destruct (Lua.chg_delayed_queue fromQueue toQueue now1 (kv w)) as [[e | n] kv1];
      [done |].
    by injection Hrun1 as _ <-. }
  destruct (moveChg_served fromQueue toQueue now2 w1)
    as (w2 & Hrun2 & Hfrom2 & Hto2 & Hfr2 & _); try done.
  { rewrite Hfrom1. by apply NoDup_fmap_fst_filter. }
  { by rewrite Hnet1'. }
  destruct (moveChg_served fromQueue toQueue now2 w)
    as (w12 & Hrun12 & Hfrom12 & Hto12 & Hfr12 & _); try done.
  eexists _, _, w1, w2, w12.
  split; [exact Hrun1 |]. split; [exact Hrun2 |].
  split.
  { rewrite Hrun12. do 3 f_equal. rewrite Hfrom1.
    rewrite (due_later_split now1 now2) by done.
    rewrite length_app. lia. }
  split; [by rewrite Hfrom2, Hfrom1, Hfrom12, filter_negb_twice |].
  split.
  { rewrite Hto2, Hto1, Hfrom1, Hto12.
    rewrite (due_later_split now1 now2 (zset_at (kv w) fromQueue)) by done.
    by rewrite fmap_app, app_assoc. }
  intros k Hk1 Hk2. by rewrite Hfr2, Hfr1, Hfr12.
Qed.

Lemma chg_moves_keep_one_state_witness :
  ∃ w1 w2,
    MoveWaitToReady 150 Scenario.chgQueues = Some ((1, None), w1)
    ∧ NoDup (chgMembers (kv w1))
    ∧ MoveBusyToTimeout 150 Scenario.chgQueues = Some ((1, None), w2)
    ∧ NoDup (chgMembers (kv w2)).
Proof.
  assert (NoDup (chgMembers (kv Scenario.chgQueues))) as Hnd.
  { apply (bool_decide_unpack _). vm_compute. reflexivity. }
  destruct (chg_moves_keep_one_state 150 Scenario.chgQueues)
    as [(n1 & w1 & Hrun1 & _ & Hnd1) (n2 & w2 & Hrun2 & _ & Hnd2)];
    [vm_compute; reflexivity | vm_compute; reflexivity | vm_compute; reflexivity
    | vm_compute; reflexivity | vm_compute; reflexivity | vm_compute; reflexivity
    | vm_compute; reflexivity |].
  exists w1, w2.
  assert (n1 = 1) as ->.
  { pose proof Hrun1 as H. vm_compute in H. by injection H. }
  assert (n2 = 1) as ->.
  { pose proof Hrun2 as H. vm_compute in H. by injection H. }
  split; [exact Hrun1 |]. split; [exact (Hnd1 Hnd) |].
  split; [exact Hrun2 | exact (Hnd2 Hnd)].
Defined.

Lemma delayed_move_wrong_type_loses_entry_witness :
  ∃ w',
    moveChg redisWaitQueue redisReadyQueue 150 Scenario.readyIsHash
      = Some ((0, Some WRONGTYPE), w')
    ∧ zset_at (kv w') redisWaitQueue = [("chgB", 200)]
    ∧ kv w' !! redisReadyQueue = Some (RHash {[ "f" := "v" ]}).
Proof.
  destruct (delayed_move_wrong_type_loses_entry redisWaitQueue redisReadyQueue 150
              Scenario.readyIsHash ("chgA", 100) [])
    as (w' & Hrun & Hfrom & Hto & _);
    [intros H; vm_compute in H; discriminate H | vm_compute; reflexivity
    | vm_compute; reflexivity | vm_compute; reflexivity | vm_compute; reflexivity |].
  exists w'. split; [exact Hrun |]. split; [exact Hfrom | exact Hto].
Defined.

Lemma delayed_move_later_now_composes_witness :
  ∃ w1 w2 w12,
    moveChg redisWaitQueue redisReadyQueue 150 Scenario.chgQueues = Some ((1, None), w1)
    ∧ moveChg redisWaitQueue redisReadyQueue 250 w1 = Some ((1, None), w2)
    ∧ moveChg redisWaitQueue redisReadyQueue 250 Scenario.chgQueues
      = Some ((2, None), w12)
    ∧ list_at (kv w2) redisReadyQueue = list_at (kv w12) redisReadyQueue.
Proof.
  destruct (delayed_move_later_now_composes redisWaitQueue redisReadyQueue 150 250
              Scenario.chgQueues)
    as (n1 & n2 & w1 & w2 & w12 & Hrun1 & Hrun2 & Hrun12 & _ & Hto & _);
    [lia | vm_compute; reflexivity | vm_compute; reflexivity | vm_compute; reflexivity
    | vm_compute; reflexivity |].
  exists w1, w2, w12.
  assert (n1 = 1 ∧ w1 = after (moveChg redisWaitQueue redisReadyQueue 150) Scenario.chgQueues)
    as [-> ->].
  { pose proof Hrun1 as H. vm_compute in H. injection H as <- <-.
    split; vm_compute; reflexivity. }
  assert (n2 = 1) as ->.
  { pose proof Hrun2 as H. vm_compute in H. by injection H. }
  split; [exact Hrun1 |]. split; [exact Hrun2 |]. split; [exact Hrun12 | exact Hto].
Defined.

(** ** Retries of a write *)
Section RetrySchedule.
Variable name : string.
Variable q : Rethink.term.

Lemma attempt_step w r w' :
  (let* _ := record (CRunWrite name) in RunWrite q) w = Some (r, w') →
  calls w' = calls w ++ [CRunWrite name]
  ∧ rethink_net w' = tail (rethink_net w)
  ∧ maxRetries w' = maxRetries w
  ∧ kv w' = kv w ∧ redis_net w' = redis_net w.
Proof.
  unfold bind, record, RunWrite. cbn [rethink_net tables kv redis_net maxRetries calls].
  destruct (head (rethink_net w)) as [[bad | applied e] |];
    [| by intros [= <- <-] |].
  all: destruct (Rethink.serve q _ (tables w)) as [[e | wr] db];
    [by intros [= <- <-] |]; destruct (0 <? Errors wr); by intros [= <- <-].
Qed.

Lemma attempt_broken w e net :
  rethink_net w = Broken false e :: net →
  (let* _ := record (CRunWrite name) in RunWrite q) w
  = Some ((noResponse, Some e),
          World (kv w) (redis_net w) (tables w) net (maxRetries w)
            (calls w ++ [CRunWrite name])).
Proof.
  intros Hnet. unfold bind, record, RunWrite.
  cbn [rethink_net tables kv redis_net maxRetries calls]. by rewrite Hnet.
Qed.

Lemma runs_app cs cs' : runs (cs ++ cs') = (runs cs + runs cs')%nat.
Proof. unfold runs. by rewrite List.filter_app, length_app. Qed.

Lemma drop_tail {A : Type} (n : nat) (l : list A) : drop n (tail l) = drop (S n) l.
Proof. destruct l; [by destruct n | done]. Qed.

(** What every run of the loop has in common. *)
Lemma execWithRetry_loop_bounds fuel attempts w :
  (0 < fuel)%nat →
  maxRetries w < attempts + Z.of_nat fuel →
  ∃ wr err w' rest,
    execWithRetry_loop fuel name (let* _ := record (CRunWrite name) in RunWrite q) attempts w
    = Some ((wr, err), w')
    ∧ calls w' = calls w ++ rest
    ∧ (1 <= runs rest)%nat
    ∧ attempts + Z.of_nat (runs rest) <= Z.max (attempts + 1) (maxRetries w + 1)
    ∧ rethink_net w' = drop (runs rest) (rethink_net w)
    ∧ maxRetries w' = maxRetries w
    ∧ ∀ e, err = Some e →
        ∃ e0, e = Errorf "failed to %s after %d of %d attempts: %w"
                    [AStr name; AInt (attempts + Z.of_nat (runs rest));
                     AInt (maxRetries w + 1); AErr e0].
Proof.
  revert attempts w. induction fuel as [| fuel IH]; intros attempts w Hpos Hfuel; [lia |].
  cbn [execWithRetry_loop]. unfold bind at 1, exec.
  destruct (attempt_total name q w) as ([r err] & w1 & Eq). rewrite Eq.
  destruct (attempt_step _ _ _ Eq) as (Hc1 & Hn1 & Hm1 & _).
  destruct err as [e0 |].
  2:{ exists r, None, w1, [CRunWrite name]. split; [done |]. split; [done |].
      split; [done |]. split; [cbn; lia |]. split; [by rewrite Hn1; destruct (rethink_net w) |].
      split; [done |]. done. }
  assert (∀ w2 extra,
            calls w2 = calls w ++ CRunWrite name :: extra → runs extra = 0%nat →
            rethink_net w2 = rethink_net w1 → maxRetries w2 = maxRetries w →
            ∃ wr err w' rest,
              (let* mr := getMaxRetries in
               ret (r, Some (Errorf "failed to %s after %d of %d attempts: %w"
                               [AStr name; AInt (attempts + 1); AInt (mr + 1); AErr e0]))) w2
              = Some ((wr, err), w')
              ∧ calls w' = calls w ++ rest
              ∧ (1 <= runs rest)%nat
              ∧ attempts + Z.of_nat (runs rest) <= Z.max (attempts + 1) (maxRetries w + 1)
              ∧ rethink_net w' = drop (runs rest) (rethink_net w)
              ∧ maxRetries w' = maxRetries w
              ∧ ∀ e, err = Some e →
                  ∃ e0, e = Errorf "failed to %s after %d of %d attempts: %w"
                              [AStr name; AInt (attempts + Z.of_nat (runs rest));
                               AInt (maxRetries w + 1); AErr e0]) as Hout.
  { intros w2 extra Hc2 Hex Hn2 Hm2. unfold bind, getMaxRetries, ret.
    eexists _, _, _, (CRunWrite name :: extra). split; [reflexivity |].
    assert (runs (CRunWrite name :: extra) = 1%nat) as Hruns.
    { change (CRunWrite name :: extra) with ([CRunWrite name] ++ extra).
      rewrite runs_app, Hex. done. }
    rewrite Hruns. split; [done |]. split; [done |]. split; [lia |].
    split; [by rewrite Hn2, Hn1; destruct (rethink_net w) |]. split; [done |].
    intros e [= <-]. exists e0. by rewrite Hm2. }
  assert (∀ w2 extra,
            calls w2 = calls w ++ CRunWrite name :: extra → runs extra = 0%nat →
            rethink_net w2 = rethink_net w1 → maxRetries w2 = maxRetries w →
            ∃ wr err w' rest,
              (let* mr := getMaxRetries in
               if attempts + 1 >? mr
               then (let* mr := getMaxRetries in
                     ret (r, Some (Errorf "failed to %s after %d of %d attempts: %w"
                                     [AStr name; AInt (attempts + 1); AInt (mr + 1); AErr e0])))
               else execWithRetry_loop fuel name
                      (let* _ := record (CRunWrite name) in RunWrite q) (attempts + 1)) w2
              = Some ((wr, err), w')
              ∧ calls w' = calls w ++ rest
              ∧ (1 <= runs rest)%nat
              ∧ attempts + Z.of_nat (runs rest) <= Z.max (attempts + 1) (maxRetries w + 1)
              ∧ rethink_net w' = drop (runs rest) (rethink_net w)
              ∧ maxRetries w' = maxRetries w
              ∧ ∀ e, err = Some e →
                  ∃ e0, e = Errorf "failed to %s after %d of %d attempts: %w"
                              [AStr name; AInt (attempts + Z.of_nat (runs rest));
                               AInt (maxRetries w + 1); AErr e0]) as Hnext.
  { intros w2 extra Hc2 Hex Hn2 Hm2. unfold bind at 1, getMaxRetries at 1.
    destruct (attempts + 1 >? maxRetries w2) eqn:Egt; [by eapply Hout |].
    destruct (IH (attempts + 1) w2) as (wr & err & w' & rest & Hrun & Hc & Hr1 & Hr2 & Hn & Hm & He);
      [lia | lia |].
    exists wr, err, w', (CRunWrite name :: extra ++ rest).
    assert (runs (CRunWrite name :: extra ++ rest) = S (runs rest)) as Hruns.
    { change (CRunWrite name :: extra ++ rest) with ([CRunWrite name] ++ extra ++ rest).
      rewrite !runs_app, Hex. done. }
    rewrite Hruns. split; [exact Hrun |].
    split; [by rewrite Hc, Hc2, <- app_assoc |].
    split; [lia |]. split; [rewrite Hm2 in Hr2; lia |].
    split; [by rewrite Hn, Hn2, Hn1, drop_tail |]. split; [by rewrite Hm |].
    intros e Herr. destruct (He e Herr) as [e1 ->]. exists e1.
    rewrite Hm2. do 3 f_equal. f_equal. lia. }
  destruct e0.
  all: try (by apply (Hout w1 []); rewrite ?Hc1).
  - unfold bind at 1, wait, record. by apply (Hnext _ [CWait]); cbn; rewrite ?Hc1, <- ?app_assoc.
  - unfold bind at 1, Connect, record.
    by apply (Hnext _ [CConnect]); cbn; rewrite ?Hc1, <- ?app_assoc.
Qed.

(** Attempts that break with an error the loop retries, while retries are
    left, are skipped over. *)
Lemma execWithRetry_loop_broken es :
  ∀ fuel attempts w net,
    rethink_net w = (Broken false <$> es) ++ net →
    Forall (λ e, retryable e = true) es →
    Z.of_nat (length es) <= Z.max 0 (maxRetries w - attempts) →
    (length es < fuel)%nat →
    execWithRetry_loop fuel name (let* _ := record (CRunWrite name) in RunWrite q) attempts w
    = execWithRetry_loop (fuel - length es) name
        (let* _ := record (CRunWrite name) in RunWrite q)
        (attempts + Z.of_nat (length es))
        (World (kv w) (redis_net w) (tables w) net (maxRetries w)
           (calls w ++ retried name es)).
Proof.
  induction es as [| e es IH]; intros fuel attempts w net Hnet Hes Hlen Hfuel.
  - cbn. rewrite Nat.sub_0_r, Z.add_0_r, app_nil_r. cbn in Hnet. rewrite <- Hnet.
    by destruct w.
  - destruct fuel as [| fuel]; [cbn in Hfuel; lia |].
    apply Forall_cons in Hes as [He Hes]. cbn [length] in *.
    cbn [execWithRetry_loop]. unfold bind at 1, exec.
    rewrite (attempt_broken w e ((Broken false <$> es) ++ net)) by done.
    assert ((attempts + 1 >? maxRetries w) = false) as Hgt by lia.
    replace (attempts + Z.of_nat (S (length es)))
      with (attempts + 1 + Z.of_nat (length es)) by lia.
    change (S fuel - S (length es))%nat with (fuel - length es)%nat.
    destruct e; try done.
    + unfold bind at 1, wait, record. unfold bind at 1, getMaxRetries at 1.
      cbn [maxRetries kv redis_net tables rethink_net calls]. rewrite Hgt.
      rewrite (IH fuel (attempts + 1) _ net); try done; cbn; try lia.
      by rewrite <- !app_assoc.
    + unfold bind at 1, Connect, record. unfold bind at 1, getMaxRetries at 1.
      cbn [maxRetries kv redis_net tables rethink_net calls]. rewrite Hgt.
      rewrite (IH fuel (attempts + 1) _ net); try done; cbn; try lia.
      by rewrite <- !app_assoc.
Qed.

End RetrySchedule.

(** X5: a write is run at least once and at most [maxRetries + 1] times
    (once when [maxRetries] is negative), whatever the durable store does;
    every run consumes one attempt, and an error that comes back says after
    how many attempts, out of [maxRetries + 1], it gave up. *)
Theorem write_attempts_are_bounded name q w :
  ∃ wr err w' rest,
    execWrite name q w = Some ((wr, err), w')
    ∧ calls w' = calls w ++ rest
    ∧ (1 <= runs rest)%nat
    ∧ Z.of_nat (runs rest) <= Z.max 1 (maxRetries w + 1)
    ∧ rethink_net w' = drop (runs rest) (rethink_net w)
    ∧ ∀ e, err = Some e →
        ∃ e0, e = Errorf "failed to %s after %d of %d attempts: %w"
                    [AStr name; AInt (Z.of_nat (runs rest)); AInt (maxRetries w + 1);
                     AErr e0].
Proof.
  unfold execWrite, execWithRetry, bind at 1, getMaxRetries at 1.
  destruct (execWithRetry_loop_bounds name q (S (Z.to_nat (maxRetries w))) 0 w)
    as (wr & err & w' & rest & Hrun & Hc & Hr1 & Hr2 & Hn & _ & He); [lia | lia |].
  exists wr, err, w', rest. split; [exact Hrun |]. split; [done |]. split; [done |].
  split; [lia |]. split; [done |]. exact He.
Qed.

(** X6: failures that are retried do not show.  When the first attempts
    break with a query timeout or a closed connection, no more of them than
    [maxRetries], and the next attempt succeeds, the write returns what that
    attempt returns; before it come one run and one wait per timeout and one
    run and one reconnect per closed connection. *)
Theorem write_recovers_after_retries name q es net w wr w1 :
  rethink_net w = (Broken false <$> es) ++ net →
  Forall (λ e, retryable e = true) es →
  Z.of_nat (length es) <= maxRetries w →
  RunWrite q (World (kv w) (redis_net w) (tables w) net (maxRetries w)
                (calls w ++ retried name es ++ [CRunWrite name]))
  = Some ((wr, None), w1) →
  execWrite name q w = Some ((wr, None), w1).
Proof.
  intros Hnet Hes Hlen Hrun.
  unfold execWrite, execWithRetry, bind at 1, getMaxRetries at 1.
  rewrite (execWithRetry_loop_broken name q es _ 0 w net); try done; try lia.
  destruct (S (Z.to_nat (maxRetries w)) - length es)%nat as [| fuel] eqn:Efuel; [lia |].
  cbn [execWithRetry_loop]. unfold bind at 1, exec. unfold bind at 1, record at 1.
  cbn [kv redis_net tables rethink_net maxRetries calls].
  rewrite <- app_assoc. by rewrite Hrun.
Qed.

(** X7: when [maxRetries + 1] attempts in a row break with a query timeout
    or a closed connection, the write gives up: the error carries the last
    of them and the number of attempts, the durable store is as it was, and
    the wait or the reconnect is made after the last attempt as well. *)
Theorem write_gives_up_after_max_retries name q es e net w :
  rethink_net w = (Broken false <$> es ++ [e]) ++ net →
  Forall (λ e, retryable e = true) (es ++ [e]) →
  length es = Z.to_nat (maxRetries w) →
  execWrite name q w
  = Some ((noResponse,
           Some (Errorf "failed to %s after %d of %d attempts: %w"
                   [AStr name; AInt (Z.of_nat (length es) + 1); AInt (maxRetries w + 1);
                    AErr e])),
          World (kv w) (redis_net w) (tables w) net (maxRetries w)
            (calls w ++ retried name (es ++ [e]))).
Proof.
  intros Hnet [Hes He]%Forall_app Hlen. apply Forall_inv in He.
  rewrite fmap_app, <- app_assoc in Hnet.
  unfold execWrite, execWithRetry, bind at 1, getMaxRetries at 1.
  rewrite (execWithRetry_loop_broken name q es _ 0 w ((Broken false <$> [e]) ++ net));
    try done; try lia.
  replace (S (Z.to_nat (maxRetries w)) - length es)%nat with 1%nat by lia.
  cbn [execWithRetry_loop]. unfold bind at 1, exec.
  rewrite (attempt_broken name q _ e net) by done.
  cbn [kv redis_net tables rethink_net maxRetries calls].
  assert ((0 + Z.of_nat (length es) + 1 >? maxRetries w) = true) as Hgt by lia.
  unfold retried. rewrite flat_map_app. cbn [flat_map]. rewrite app_nil_r.
  destruct e; try done.
  - unfold bind, wait, record, getMaxRetries, ret.
    cbn [kv redis_net tables rethink_net maxRetries calls]. rewrite Hgt.
    by rewrite <- !app_assoc.
  - unfold bind, Connect, record, getMaxRetries, ret.
    cbn [kv redis_net tables rethink_net maxRetries calls]. rewrite Hgt.
    by rewrite <- !app_assoc.
Qed.

Lemma serve_error_not_retried q bad db e db' :
  Rethink.serve q bad db = (inl e, db') → retryable e = false.
Proof.
  unfold Rethink.serve. destruct q as [tbl key f | tbl keys].
  - destruct (db !! tbl) as [t |]; [| by intros [= <- _]].
    destruct key as [[| id | n | l] |]; try (by intros [= <- _]).
    by destruct (Rethink.updateRow id f bad t).
  - destruct (db !! tbl) as [t |]; [| by intros [= <- _]].
    by destruct (Rethink.deleteRows keys bad noResponse t).
Qed.

(** The error of a run that did not break with a retried error is not one
    that is retried. *)
Lemma RunWrite_error_not_retried q w wr e w1 :
  (∀ applied e, head (rethink_net w) = Some (Broken applied e) → retryable e = false) →
  RunWrite q w = Some ((wr, Some e), w1) →
  retryable e = false.
Proof.
  intros Hhead. unfold RunWrite.
  destruct (head (rethink_net w)) as [[bad | applied e0] |] eqn:Ehd.
  - destruct (Rethink.serve q _ (tables w)) as [[e1 | wr'] db] eqn:Eserve.
    + intros [= _ <- _]. by eapply serve_error_not_retried.
    + destruct (0 <? Errors wr'); [| done]. by intros [= _ <- _].
  - intros [= _ <- _]. by eapply Hhead.
  - destruct (Rethink.serve q _ (tables w)) as [[e1 | wr'] db] eqn:Eserve.
    + intros [= _ <- _]. by eapply serve_error_not_retried.
    + destruct (0 <? Errors wr'); [| done]. by intros [= _ <- _].
Qed.

(** A query whose first attempt returns no retried error is run once. *)
Lemma execWithRetry_once name (q : M (WriteResponse * option error)) w wr err w1 :
  q w = Some ((wr, err), w1) →
  maxRetries w1 = maxRetries w →
  (∀ e, err = Some e → retryable e = false) →
  execWithRetry name q w
  = Some ((wr, (λ e, Errorf "failed to %s after %d of %d attempts: %w"
                       [AStr name; AInt 1; AInt (maxRetries w + 1); AErr e]) <$> err),
          w1).
Proof.
  intros Hrun Hm1 Hno.
  unfold execWithRetry, bind at 1, getMaxRetries at 1.
  cbn [execWithRetry_loop]. unfold bind at 1, exec.
  rewrite Hrun. destruct err as [e0 |]; [| done].
  specialize (Hno e0 eq_refl).
  destruct e0; try done.
  all: unfold bind, getMaxRetries, ret, fmap, option_fmap, option_map; by rewrite Hm1.
Qed.

(** X8: a write is not repeated unless it broke with a query timeout or a
    closed connection.  An attempt that the server answers, with row errors
    or without, or that breaks with another error, is the only run: the
    write returns its response and its state, and wraps its error, if any,
    as the failure "after 1 of [maxRetries + 1] attempts". *)
Theorem write_answered_is_run_once name q w wr err w1 :
  (∀ applied e, head (rethink_net w) = Some (Broken applied e) → retryable e = false) →
  RunWrite q (World (kv w) (redis_net w) (tables w) (rethink_net w) (maxRetries w)
                (calls w ++ [CRunWrite name]))
  = Some ((wr, err), w1) →
  execWrite name q w
  = Some ((wr, (λ e, Errorf "failed to %s after %d of %d attempts: %w"
                       [AStr name; AInt 1; AInt (maxRetries w + 1); AErr e]) <$> err),
          w1).
Proof.
  intros Hhead Hrun. unfold execWrite. apply execWithRetry_once.
  - exact Hrun.
  - by apply RunWrite_keeps_queue_store in Hrun as [(_ & _ & ->) _].
  - intros e ->. eapply RunWrite_error_not_retried; [| exact Hrun]. exact Hhead.
Qed.

Lemma write_recovers_after_retries_witness :
  execWrite "delete-queued-uris" (Rethink.GetAllDelete rethinkDbTableUriQueue ["u1"; "u3"])
    (Example.threeToRemove
       [Broken false ErrQueryTimeout; Broken false ErrConnectionClosed; Served []])
  = Some ((mkWriteResponse 0 0 0 1 1 "", None),
          World {[ redisRemoveUriQueue := RList ["u1"; "u2"; "u3"] ]} []
            {[ rethinkDbTableUriQueue := {[ "u2" := {[ "id" := VStr "u2" ]} ]} ]} [] 3
            [CRunWrite "delete-queued-uris"; CWait;
             CRunWrite "delete-queued-uris"; CConnect;
             CRunWrite "delete-queued-uris"]).
Proof.
  apply (write_recovers_after_retries "delete-queued-uris"
           (Rethink.GetAllDelete rethinkDbTableUriQueue ["u1"; "u3"])
           [ErrQueryTimeout; ErrConnectionClosed] [Served []]).
  - vm_compute. reflexivity.
  - repeat constructor.
  - vm_compute. discriminate.
  - vm_compute. reflexivity.
Defined.

Lemma write_gives_up_after_max_retries_witness :
  execWrite "delete-queued-uris" (Rethink.GetAllDelete rethinkDbTableUriQueue ["u1"; "u3"])
    (Example.threeToRemove
       [Broken false ErrQueryTimeout; Broken false ErrConnectionClosed;
        Broken false ErrQueryTimeout; Broken false ErrQueryTimeout; Served []])
  = Some ((noResponse,
           Some (Errorf "failed to %s after %d of %d attempts: %w"
                   [AStr "delete-queued-uris"; AInt 4; AInt 4; AErr ErrQueryTimeout])),
          World {[ redisRemoveUriQueue := RList ["u1"; "u2"; "u3"] ]} []
            {[ rethinkDbTableUriQueue :=
                 {[ "u1" := {[ "id" := VStr "u1" ]}; "u2" := {[ "id" := VStr "u2" ]} ]} ]}
            [Served []] 3
            [CRunWrite "delete-queued-uris"; CWait;
             CRunWrite "delete-queued-uris"; CConnect;
             CRunWrite "delete-queued-uris"; CWait;
             CRunWrite "delete-queued-uris"; CWait]).
Proof.
  apply (write_gives_up_after_max_retries "delete-queued-uris"
           (Rethink.GetAllDelete rethinkDbTableUriQueue ["u1"; "u3"])
           [ErrQueryTimeout; ErrConnectionClosed; ErrQueryTimeout] ErrQueryTimeout
           [Served []]).
  - vm_compute. reflexivity.
  - repeat constructor.
  - vm_compute. reflexivity.
Defined.

Lemma write_answered_is_run_once_witness :
  execWrite "delete-queued-uris" (Rethink.GetAllDelete rethinkDbTableUriQueue ["u1"; "u2"])
    (Example.threeToRemove [Served ["u2"]; Served []])
  = Some ((mkWriteResponse 1 0 0 0 1 "storage error",
           Some (Errorf "failed to %s after %d of %d attempts: %w"
                   [AStr "delete-queued-uris"; AInt 1; AInt 4;
                    AErr (Errorf "%s" [AStr "storage error"])])),
          World {[ redisRemoveUriQueue := RList ["u1"; "u2"; "u3"] ]} []
            {[ rethinkDbTableUriQueue := {[ "u2" := {[ "id" := VStr "u2" ]} ]} ]}
            [Served []] 3 [CRunWrite "delete-queued-uris"]).
Proof.
  apply (write_answered_is_run_once "delete-queued-uris"
           (Rethink.GetAllDelete rethinkDbTableUriQueue ["u1"; "u2"])
           (Example.threeToRemove [Served ["u2"]; Served []])
           (mkWriteResponse 1 0 0 0 1 "storage error")
           (Some (Errorf "%s" [AStr "storage error"]))).
  - intros applied e H. vm_compute in H. discriminate H.
  - vm_compute. reflexivity.
Defined.

(** ** The attempt that succeeds *)
Section LastAttempt.
Variable name : string.
Variable q : M (WriteResponse * option error).
Variable Inv : world → Prop.
Hypothesis Inv_record :
  ∀ w c, durable_call c = true → Inv w →
         Inv (World (kv w) (redis_net w) (tables w) (rethink_net w)
                (maxRetries w) (calls w ++ [c])).
Hypothesis q_ok : ∀ w r e w', Inv w → q w = Some ((r, e), w') → Inv w'.

(** A retried query that returns no error has returned from an attempt
    that returned none. *)
Lemma execWithRetry_loop_last fuel attempts w wr w' :
  Inv w →
  execWithRetry_loop fuel name q attempts w = Some ((wr, None), w') →
  ∃ w0, Inv w0 ∧ q w0 = Some ((wr, None), w').
Proof.
  revert attempts w. induction fuel as [| fuel IH]; intros attempts w Hw; [done |].
  cbn [execWithRetry_loop]. unfold bind at 1, exec.
  destruct (q w) as [[[r err] w1] |] eqn:Eq; [| done].
  pose proof (q_ok _ _ _ _ Hw Eq) as Hw1.
  destruct err as [e0 |]; [| intros [= <- <-]; by exists w].
  assert (∀ w2, Inv w2 →
            (let* mr := getMaxRetries in
             if attempts + 1 >? mr
             then (let* mr := getMaxRetries in
                   ret (r, Some (Errorf "failed to %s after %d of %d attempts: %w"
                                   [AStr name; AInt (attempts + 1); AInt (mr + 1); AErr e0])))
             else execWithRetry_loop fuel name q (attempts + 1)) w2
            = Some ((wr, None), w') → ∃ w0, Inv w0 ∧ q w0 = Some ((wr, None), w')) as Hnext.
  { intros w2 Hw2. unfold bind at 1, getMaxRetries at 1.
    destruct (attempts + 1 >? maxRetries w2); [done |]. by apply IH. }
  destruct e0; try done.
  - unfold bind at 1, wait, record. apply Hnext. by apply Inv_record.
  - unfold bind at 1, Connect, record. apply Hnext. by apply Inv_record.
Qed.

Lemma execWithRetry_last w wr w' :
  Inv w →
  execWithRetry name q w = Some ((wr, None), w') →
  ∃ w0, Inv w0 ∧ q w0 = Some ((wr, None), w').
Proof. unfold execWithRetry, bind, getMaxRetries. apply execWithRetry_loop_last. Qed.

End LastAttempt.

(** ** Draining the timeout queue *)
Section Draining.
Implicit Types (w : world) (t : table) (d : doc) (l ids : list string).
Implicit Types (db : gmap string table).

Lemma abortTimedOut_idemp d : abortTimedOut (abortTimedOut d) = abortTimedOut d.
Proof.
  unfold abortTimedOut. destruct (HasFields "endTime" d) eqn:E; [by rewrite E |].
  assert (HasFields "endTime" (<["desiredState" := VStr ABORTED_TIMEOUT]> d) = false) as ->.
  { unfold HasFields in *. by rewrite lookup_insert_ne. }
  by rewrite insert_insert_eq.
Qed.

Lemma abortTimedOut_fmap_idemp (o : option doc) :
  abortTimedOut <$> (abortTimedOut <$> o) = abortTimedOut <$> o.
Proof. destruct o as [d |]; [| done]. cbn. by rewrite abortTimedOut_idemp. Qed.

Lemma marks_refl ids db : marks ids db db.
Proof. split; [done |]. intros id. by left. Qed.

Lemma marks_mono ids ids' db db' :
  (∀ id, id ∈ ids → id ∈ ids') → marks ids db db' → marks ids' db db'.
Proof.
  intros Hsub [Htbl Hrow]. split; [done |]. intros id.
  destruct (Hrow id) as [? | [? ?]]; [by left | right; auto].
Qed.

Lemma marks_trans ids db1 db2 db3 :
  marks ids db1 db2 → marks ids db2 db3 → marks ids db1 db3.
Proof.
  intros [Htbl1 Hrow1] [Htbl2 Hrow2]. split.
  { intros tbl Hne. by rewrite Htbl2, Htbl1. }
  intros id. destruct (Hrow2 id) as [-> | [Hin ->]]; [apply Hrow1 |].
  right. split; [done |].
  destruct (Hrow1 id) as [-> | [_ ->]]; [done | apply abortTimedOut_fmap_idemp].
Qed.

Lemma executions_insert db t id :
  executions (<[rethinkDbTableCrawlExecutions := t]> db) id = t !! id.
Proof. unfold executions, Rethink.row. by rewrite lookup_insert_eq. Qed.

(** One served run of the timeout update. *)
Lemma serve_abort id bad db r db' :
  Rethink.serve
    (Rethink.GetUpdate rethinkDbTableCrawlExecutions (Some (VStr id)) unlessEnded) bad db
  = (r, db') →
  marks [id] db db'
  ∧ match r with
    | inl _ => db' = db
    | inr wr =>
        0 <= Replaced wr <= 1
        ∧ ((0 <? Errors wr) = false → executions db' id = abortTimedOut <$> executions db id)
    end.
Proof.
  unfold Rethink.serve, Rethink.updateRow.
  destruct (db !! rethinkDbTableCrawlExecutions) as [t |] eqn:Ht;
    [| intros [= <- <-]; split; [apply marks_refl | done]].
  assert (∀ wr, ((0 <? Errors wr) = false → t !! id = abortTimedOut <$> t !! id) →
                0 <= Replaced wr <= 1 →
                (inr wr, <[rethinkDbTableCrawlExecutions := t]> db) = (r, db') →
                marks [id] db db'
                ∧ match r with
                  | inl _ => db' = db
                  | inr wr =>
                      0 <= Replaced wr <= 1
                      ∧ ((0 <? Errors wr) = false →
                         executions db' id = abortTimedOut <$> executions db id)
                  end) as Hsame.
  { intros wr Hrow Hrep [= <- <-]. rewrite insert_id by done.
    split; [apply marks_refl |]. split; [done |].
    unfold executions, Rethink.row. by rewrite Ht. }
  destruct (t !! id) as [d |] eqn:Hd; [| by apply Hsame].
  destruct (decide (id ∈ bad)); [by apply Hsame |].
  unfold unlessEnded. destruct (HasFields "endTime" d) eqn:Hend.
  { apply Hsame; [| done]. intros _. cbn. unfold abortTimedOut.
    by rewrite Hend. }
  rewrite <- insert_union_singleton_l.
  assert (abortTimedOut d = <["desiredState" := VStr ABORTED_TIMEOUT]> d) as Hab.
  { unfold abortTimedOut. by rewrite Hend. }
  destruct (decide (<["desiredState" := VStr ABORTED_TIMEOUT]> d = d)) as [Heq | Hne].
  { apply Hsame; [| done]. intros _. cbn. by rewrite Hab, Heq. }
  intros [= <- <-]. split.
  - split; [intros tbl Hne'; by rewrite lookup_insert_ne |].
    intros id'. rewrite executions_insert. unfold executions, Rethink.row.
    rewrite Ht. destruct (decide (id' = id)) as [-> | Hne'].
    + right. split; [by apply list_elem_of_singleton |].
      rewrite lookup_insert_eq, Hd. cbn. by rewrite Hab.
    + left. by rewrite lookup_insert_ne.
  - split; [done |]. intros _. rewrite executions_insert.
    unfold executions, Rethink.row. rewrite Ht, lookup_insert_eq, Hd. cbn. by rewrite Hab.
Qed.

Lemma RunWrite_abort id w r e w' :
  RunWrite (Rethink.GetUpdate rethinkDbTableCrawlExecutions (Some (VStr id)) unlessEnded) w
    = Some ((r, e), w') →
  marks [id] (tables w) (tables w')
  ∧ 0 <= Replaced r <= 1
  ∧ (e = None → executions (tables w') id = abortTimedOut <$> executions (tables w) id).
Proof.
  unfold RunWrite.
  set (q := Rethink.GetUpdate rethinkDbTableCrawlExecutions (Some (VStr id)) unlessEnded).
  assert (∀ bad, marks [id] (tables w) (Rethink.serve q bad (tables w)).2) as Hmarks.
  { intros bad. destruct (Rethink.serve q bad (tables w)) as [r1 db] eqn:Eserve.
    by apply serve_abort in Eserve as [Hm _]. }
  assert (∀ bad,
            match Rethink.serve q bad (tables w) with
            | (inl e1, db) =>
                Some (noResponse, Some e1,
                      World (kv w) (redis_net w) db (tail (rethink_net w))
                        (maxRetries w) (calls w))
            | (inr wr, db) =>
                if 0 <? Errors wr
                then Some (wr, Some (Errorf "%s" [AStr (FirstError wr)]),
                           World (kv w) (redis_net w) db (tail (rethink_net w))
                             (maxRetries w) (calls w))
                else Some (wr, None,
                           World (kv w) (redis_net w) db (tail (rethink_net w))
                             (maxRetries w) (calls w))
            end = Some (r, e, w') →
            marks [id] (tables w) (tables w')
            ∧ 0 <= Replaced r <= 1
            ∧ (e = None →
               executions (tables w') id = abortTimedOut <$> executions (tables w) id))
    as Hserved.
  { intros bad. specialize (Hmarks bad).
    destruct (Rethink.serve q bad (tables w)) as [[e1 | wr] db] eqn:Eserve;
      apply serve_abort in Eserve as [_ Hr].
    - by intros [= <- <- <-].
    - destruct Hr as [Hrep Hrow].
      destruct (0 <? Errors wr) eqn:Eerr; intros [= <- <- <-]; [done |].
      split; [done |]. split; [done |]. intros _. by apply Hrow. }
  destruct (head (rethink_net w)) as [[bad | applied e0] |]; [apply Hserved | | apply Hserved].
  intros [= <- <- <-]. cbn. split; [| done].
  destruct applied; [apply Hmarks | apply marks_refl].
Qed.

(** The timeout update of one crawl execution, whatever the durable store
    does. *)
Lemma setCrawlExecutionStateAbortedTimeout_any id w replaced e w' :
  setCrawlExecutionStateAbortedTimeout id w = Some ((replaced, e), w') →
  keeps_queue_store w w'
  ∧ marks [id] (tables w) (tables w')
  ∧ 0 <= replaced <= 1
  ∧ (e = None → executions (tables w') id = abortTimedOut <$> executions (tables w) id).
Proof.
  intros Hset. split; [by eapply setCrawlExecutionStateAbortedTimeout_keeps_queue_store |].
  revert Hset. unfold setCrawlExecutionStateAbortedTimeout, bind.
  destruct (execWrite _ _ w) as [[[wr e0] w1] |] eqn:E; [| done].
  intros [= <- <- <-].
  pose proof E as E'.
  eapply (execWrite_inv (λ w', marks [id] (tables w) (tables w'))
            (λ r, 0 <= Replaced r <= 1)) in E' as [Hm Hr].
  - split; [done |]. split; [done |]. intros ->.
    unfold execWrite in E.
    eapply (execWithRetry_last _ _ (λ w', marks [id] (tables w) (tables w'))) in E
      as (w0 & Hm0 & Hrun).
    + unfold bind, record in Hrun. apply RunWrite_abort in Hrun as (_ & _ & Hrow).
      cbn [tables] in Hrow. rewrite Hrow by done.
      destruct Hm0 as [_ Hrow0].
      destruct (Hrow0 id) as [-> | [_ ->]]; [done | apply abortTimedOut_fmap_idemp].
    + done.
    + intros w2 r2 e2 w3 Hw2. unfold bind, record.
      intros (Hm2 & _)%RunWrite_abort. by eapply marks_trans.
    + apply marks_refl.
  - done.
  - intros w2 r2 e2 w3 Hw2 (Hm2 & Hr2 & _)%RunWrite_abort.
    split; [by eapply marks_trans | done].
  - apply marks_refl.
Qed.

End Draining.

Section DrainingLoop.
Implicit Types (w : world) (t : table) (d : doc) (l ids : list string).

Lemma LPop_any key w ceid err w1 :
  Client.LPop key w = Some ((ceid, err), w1) →
  tables w1 = tables w
  ∧ match err with
    | Some _ => kv w1 = kv w
    | None =>
        list_at (kv w) key = ceid :: list_at (kv w1) key
        ∧ holds_list (kv w1) key = true
        ∧ ∀ k, k ≠ key → kv w1 !! k = kv w !! k
    end.
Proof.
  unfold Client.LPop. intros Hrt.
  apply roundtrip_inv in Hrt as ((Htbl & _) & _ & _ & Hcases).
  split; [done |].
  destruct Hcases as [(Hkv & _ & _ & [e ->]) | (_ & Hcmd & _)]; [done |].
  apply LPOP_inv in Hcmd. by destruct err.
Qed.

Lemma RPush_any key v w n err w1 :
  holds_list (kv w) key = true →
  Client.RPush key v w = Some ((n, err), w1) →
  tables w1 = tables w
  ∧ match err with
    | Some _ => kv w1 = kv w
    | None =>
        list_at (kv w1) key = list_at (kv w) key ++ [v]
        ∧ ∀ k, k ≠ key → kv w1 !! k = kv w !! k
    end.
Proof.
  unfold Client.RPush. intros Hl Hrt.
  apply roundtrip_inv in Hrt as ((Htbl & _) & _ & _ & Hcases).
  split; [done |].
  destruct Hcases as [(Hkv & _ & _ & [e ->]) | (_ & Hcmd & _)]; [done |].
  apply RPUSH_inv in Hcmd. destruct err; [| done]. apply Hcmd.
Qed.

(** Whatever the two stores do: the loop stops after [k] ids went through
    the timeout update; these are marked, no other record is touched, and
    the queue holds the ids that are left, with the id whose update failed
    at its tail unless the push failed too. *)
Lemma TimeoutCrawlExecutions_loop_any fuel :
  ∀ count w,
    (length (list_at (kv w) redisCrawlExecutionTimeoutQueue) < fuel)%nat →
    ∃ count' err w' k,
      TimeoutCrawlExecutions_loop fuel count w = Some ((count', err), w')
      ∧ (k ≤ length (list_at (kv w) redisCrawlExecutionTimeoutQueue))%nat
      ∧ count <= count' <= count + Z.of_nat k
      ∧ marks (list_at (kv w) redisCrawlExecutionTimeoutQueue) (tables w) (tables w')
      ∧ (∀ id, id ∈ take k (list_at (kv w) redisCrawlExecutionTimeoutQueue) →
               executions (tables w') id = abortTimedOut <$> executions (tables w) id)
      ∧ (list_at (kv w') redisCrawlExecutionTimeoutQueue
         = drop k (list_at (kv w) redisCrawlExecutionTimeoutQueue)
         ∨ ∃ id, list_at (kv w) redisCrawlExecutionTimeoutQueue !! k = Some id
                 ∧ list_at (kv w') redisCrawlExecutionTimeoutQueue
                   = drop (S k) (list_at (kv w) redisCrawlExecutionTimeoutQueue)
                       ++ match err with Some _ => [] | None => [id] end)
      ∧ ∀ key, key ≠ redisCrawlExecutionTimeoutQueue → kv w' !! key = kv w !! key.
Proof.
  induction fuel as [| fuel IH]; intros count w Hfuel; [lia |].
  cbn [TimeoutCrawlExecutions_loop]. unfold bind at 1.
  destruct (roundtrip_total (CLPop redisCrawlExecutionTimeoutQueue) ""
              (LPOP redisCrawlExecutionTimeoutQueue) w) as ([ceid err0] & w1 & Hpop).
  fold (Client.LPop redisCrawlExecutionTimeoutQueue) in Hpop. rewrite Hpop.
  apply LPop_any in Hpop as [Htbl1 Hpop].
  assert (∀ err : option error, kv w1 = kv w → ∃ count' err' w' k,
            Some ((count, err), w1) = Some ((count', err'), w')
            ∧ (k ≤ length (list_at (kv w) redisCrawlExecutionTimeoutQueue))%nat
            ∧ count <= count' <= count + Z.of_nat k
            ∧ marks (list_at (kv w) redisCrawlExecutionTimeoutQueue) (tables w) (tables w')
            ∧ (∀ id, id ∈ take k (list_at (kv w) redisCrawlExecutionTimeoutQueue) →
                     executions (tables w') id = abortTimedOut <$> executions (tables w) id)
            ∧ (list_at (kv w') redisCrawlExecutionTimeoutQueue
               = drop k (list_at (kv w) redisCrawlExecutionTimeoutQueue)
               ∨ ∃ id, list_at (kv w) redisCrawlExecutionTimeoutQueue !! k = Some id
                       ∧ list_at (kv w') redisCrawlExecutionTimeoutQueue
                         = drop (S k) (list_at (kv w) redisCrawlExecutionTimeoutQueue)
                             ++ match err' with Some _ => [] | None => [id] end)
            ∧ ∀ key, key ≠ redisCrawlExecutionTimeoutQueue → kv w' !! key = kv w !! key)
    as Hstop.
  { intros err Hkv. exists count, err, w1, 0%nat. split; [done |]. split; [lia |].
    split; [lia |]. rewrite Htbl1. split; [apply marks_refl |].
    split; [by intros id ?%elem_of_nil |]. rewrite Hkv. split; [by left | done]. }
  destruct err0 as [e0 |].
  { destruct e0; by apply Hstop. }
  destruct Hpop as (Hl & Hholds & Hframe).
  unfold bind at 1.
  destruct (setCrawlExecutionStateAbortedTimeout_total ceid w1) as ([replaced e1] & w2 & Hset).
  rewrite Hset.
  apply setCrawlExecutionStateAbortedTimeout_any in Hset
    as ((Hkv2 & _) & Hm2 & Hrep & Hrow2).
  rewrite Htbl1 in Hm2, Hrow2. rewrite Hl in *.
  assert (marks (ceid :: list_at (kv w1) redisCrawlExecutionTimeoutQueue)
            (tables w) (tables w2)) as Hm2'.
  { eapply marks_mono; [| exact Hm2]. intros id ->%list_elem_of_singleton. by left. }
  destruct e1 as [e1 |].
  - unfold bind at 1.
    destruct (roundtrip_total (CRPush redisCrawlExecutionTimeoutQueue ceid) 0
                (RPUSH redisCrawlExecutionTimeoutQueue ceid) w2) as ([n re] & w3 & Hpush).
    fold (Client.RPush redisCrawlExecutionTimeoutQueue ceid) in Hpush. rewrite Hpush.
    apply RPush_any in Hpush as [Htbl3 Hpush]; [| by rewrite Hkv2].
    rewrite Hkv2 in Hpush.
    destruct re as [re |].
    + eexists count, _, w3, 0%nat. rewrite Htbl3. split; [reflexivity |].
      split; [lia |]. split; [lia |]. split; [done |].
      split; [by intros id ?%elem_of_nil |].
      rewrite Hpush. split; [| by intros key Hkey; rewrite Hframe].
      right. exists ceid. split; [done |]. cbn. by rewrite app_nil_r.
    + eexists count, _, w3, 0%nat. rewrite Htbl3. split; [reflexivity |].
      split; [lia |]. split; [lia |]. split; [done |].
      split; [by intros id ?%elem_of_nil |].
      destruct Hpush as [Hl3 Hframe3]. split.
      * right. exists ceid. split; [done |]. by rewrite Hl3.
      * intros key Hkey. by rewrite Hframe3, Hframe.
  - destruct (IH (count + replaced) w2)
      as (count' & err & w' & k & Hrun & Hk & Hcount & Hm & Hrows & Hq & Hfr).
    { rewrite Hkv2. cbn in Hfuel. lia. }
    rewrite Hkv2 in *.
    exists count', err, w', (S k). split; [exact Hrun |]. cbn [length].
    split; [lia |]. split; [lia |].
    split.
    { eapply marks_trans; [exact Hm2' |]. eapply marks_mono; [| exact Hm].
      intros id Hid. by right. }
    split.
    { intros id Hid. cbn in Hid.
      destruct Hm as [_ Hm]. destruct Hm2 as [_ Hm2].
      assert (abortTimedOut <$> executions (tables w2) id
              = abortTimedOut <$> executions (tables w) id) as Hsame.
      { destruct (Hm2 id) as [-> | [_ ->]]; [done | apply abortTimedOut_fmap_idemp]. }
      apply elem_of_cons in Hid as [-> | Hid].
      - destruct (Hm ceid) as [-> | [_ ->]]; [by apply Hrow2 |]. by rewrite Hsame.
      - by rewrite Hrows, Hsame. }
    split; [| by intros key Hkey; rewrite Hfr, Hframe].
    destruct Hq as [Hq | (id & Hid & Hq)]; [by left |].
    right. by exists id.
Qed.

(** While the queue store answers, the loop returns no error. *)
Lemma TimeoutCrawlExecutions_loop_served fuel :
  ∀ count w,
    holds_list (kv w) redisCrawlExecutionTimeoutQueue = true →
    served (S (length (list_at (kv w) redisCrawlExecutionTimeoutQueue))) (redis_net w) = true →
    (length (list_at (kv w) redisCrawlExecutionTimeoutQueue) < fuel)%nat →
    ∃ count' w', TimeoutCrawlExecutions_loop fuel count w = Some ((count', None), w').
Proof.
  induction fuel as [| fuel IH]; intros count w Hholds Hnet Hfuel; [lia |].
  cbn [TimeoutCrawlExecutions_loop]. unfold bind at 1.
  destruct (list_at (kv w) redisCrawlExecutionTimeoutQueue) as [| ceid rest] eqn:Hl.
  { unfold Client.LPop. rewrite roundtrip_served by done.
    unfold LPOP. unfold list_at in Hl. unfold holds_list in Hholds.
    destruct (kv w !! redisCrawlExecutionTimeoutQueue) as [[l | z | h] |]; try done;
      [subst l |]; by eexists _, _. }
  assert (served 1 (redis_net w) = true) as Hnet1.
  { unfold served in *. by destruct (redis_net w) as [| [e |] net]. }
  apply served_head in Hnet as [_ Hnet].
  rewrite (LPop_served _ _ _ _ Hl) by done.
  unfold bind at 1.
  match goal with |- context [setCrawlExecutionStateAbortedTimeout ceid ?w1] =>
    destruct (setCrawlExecutionStateAbortedTimeout_total ceid w1)
      as ([replaced e1] & w2 & Hset)
  end.
  rewrite Hset.
  apply setCrawlExecutionStateAbortedTimeout_keeps_queue_store in Hset
    as (Hkv2 & Hnet2 & _).
  cbn [kv redis_net] in Hkv2, Hnet2.
  destruct e1 as [e1 |].
  - unfold bind at 1.
    destruct (RPush_served redisCrawlExecutionTimeoutQueue ceid w2)
      as (n & w3 & -> & _).
    { rewrite Hkv2. apply holds_list_put_list. }
    { rewrite Hnet2. cbn [length] in Hnet. unfold served in *.
      by destruct (tail (redis_net w)) as [| [e |] net]. }
    by eexists _, _.
  - apply IH.
    + rewrite Hkv2. apply holds_list_put_list.
    + by rewrite Hkv2, Hnet2, list_at_put_list.
    + rewrite Hkv2, list_at_put_list. cbn in Hfuel. lia.
Qed.

End DrainingLoop.

(** X9: whatever the two stores do, [TimeoutCrawlExecutions] returns after
    some [k] ids of the timeout queue went through the update, and then:
    the count is at most [k]; the records of these [k] ids are marked (or
    kept, with an end time), no record is created or deleted, and a record
    that changed belongs to a queued id and changed by the mark alone; the
    queue holds the ids that are left, in order, with the id whose update
    failed at its tail.  Only when the push that puts it back fails is that
    id in no queue, and then the error is not nil. *)
Theorem timeout_changes_only_queued_records w :
  ∃ count err w' k,
    TimeoutCrawlExecutions w = Some ((count, err), w')
    ∧ (k ≤ length (list_at (kv w) redisCrawlExecutionTimeoutQueue))%nat
    ∧ 0 <= count <= Z.of_nat k
    ∧ marks (list_at (kv w) redisCrawlExecutionTimeoutQueue) (tables w) (tables w')
    ∧ (∀ id, id ∈ take k (list_at (kv w) redisCrawlExecutionTimeoutQueue) →
             executions (tables w') id = abortTimedOut <$> executions (tables w) id)
    ∧ (list_at (kv w') redisCrawlExecutionTimeoutQueue
       = drop k (list_at (kv w) redisCrawlExecutionTimeoutQueue)
       ∨ ∃ id, list_at (kv w) redisCrawlExecutionTimeoutQueue !! k = Some id
               ∧ list_at (kv w') redisCrawlExecutionTimeoutQueue
                 = drop (S k) (list_at (kv w) redisCrawlExecutionTimeoutQueue)
                     ++ match err with Some _ => [] | None => [id] end)
    ∧ ∀ key, key ≠ redisCrawlExecutionTimeoutQueue → kv w' !! key = kv w !! key.
Proof.
  unfold TimeoutCrawlExecutions.
  destruct (TimeoutCrawlExecutions_loop_any
              (S (length (list_at (kv w) redisCrawlExecutionTimeoutQueue))) 0 w)
    as (count & err & w' & k & Hrun & Hrest); [lia |].
  exists count, err, w', k. split; [exact Hrun |]. exact Hrest.
Qed.

(** X10: the worker that times out crawl executions reports no error as
    long as the queue store answers: a failure of the durable store, of
    whatever kind and however often, ends the cycle without an error. *)
Theorem timeout_worker_hides_durable_failures w :
  holds_list (kv w) redisCrawlExecutionTimeoutQueue = true →
  served (S (length (list_at (kv w) redisCrawlExecutionTimeoutQueue))) (redis_net w) = true →
  ∃ w', workers.crawlExecutionTimeoutQueueWorker w = Some (None, w').
Proof.
  intros Hholds Hnet.
  unfold workers.crawlExecutionTimeoutQueueWorker, bind, TimeoutCrawlExecutions.
  destruct (TimeoutCrawlExecutions_loop_served
              (S (length (list_at (kv w) redisCrawlExecutionTimeoutQueue))) 0 w)
    as (count & w' & ->); [done | done | lia |].
  by exists w'.
Qed.

Lemma timeout_worker_hides_durable_failures_witness :
  ∃ w', workers.crawlExecutionTimeoutQueueWorker Example.twoTimedOut = Some (None, w').
Proof.
  apply timeout_worker_hides_durable_failures; vm_compute; reflexivity.
Defined.

Section DrainingServed.
Implicit Types (w : world) (t : table) (d : doc) (l ids : list string).

Lemma clean_head n net :
  clean (S n) net = true → clean 1 net = true ∧ clean n (tail net) = true.
Proof.
  unfold clean. destruct net as [| [[| b bad] | applied e] net]; simpl; try done.
  intros _. split; [done |]. by rewrite take_nil.
Qed.

(** The served timeout update of a crawl execution, record or no record. *)
Lemma setCrawlExecutionStateAbortedTimeout_served id w t :
  clean 1 (rethink_net w) = true →
  tables w !! rethinkDbTableCrawlExecutions = Some t →
  setCrawlExecutionStateAbortedTimeout id w
  = Some ((match t !! id with
           | Some d => if decide (abortTimedOut d = d) then 0 else 1
           | None => 0
           end, None),
          World (kv w) (redis_net w)
            (<[rethinkDbTableCrawlExecutions :=
                 match t !! id with
                 | Some d => <[id := abortTimedOut d]> t
                 | None => t
                 end]> (tables w))
            (tail (rethink_net w)) (maxRetries w)
            (calls w ++ [CRunWrite "set-crawl-execution-state-aborted-timeout"])).
Proof.
  intros Hclean Ht. destruct (t !! id) as [d |] eqn:Hd.
  - by rewrite (setCrawlExecutionStateAbortedTimeout_clean id w t d).
  - unfold setCrawlExecutionStateAbortedTimeout, bind.
    rewrite (execWrite_clean _ _ _ (mkWriteResponse 0 0 0 1 0 "")
               (<[rethinkDbTableCrawlExecutions := t]> (tables w))); try done.
    unfold Rethink.serve, Rethink.updateRow. by rewrite Ht, Hd.
Qed.

(** Counting the records that the update of the head of the queue leaves
    to change. *)
Lemma toAbort_cons id ids t :
  size (toAbort (id :: ids) t)
  = match t !! id with
    | Some d =>
        if decide (abortTimedOut d = d) then size (toAbort ids t)
        else S (size (toAbort ids (<[id := abortTimedOut d]> t)))
    | None => size (toAbort ids t)
    end.
Proof.
  unfold toAbort.
  assert (∀ t0 : table,
            (∀ d, t0 !! id = Some d → abortTimedOut d = d) →
            filter (λ kd, kd.1 ∈ id :: ids ∧ abortTimedOut kd.2 ≠ kd.2) t0
            = filter (λ kd, kd.1 ∈ ids ∧ abortTimedOut kd.2 ≠ kd.2) t0) as Hsame.
  { intros t0 Hid. apply map_filter_ext. intros k d Hk. cbn.
    rewrite elem_of_cons. split; [| tauto].
    intros [[-> | Hin] Hch]; [| done]. by specialize (Hid _ Hk). }
  destruct (t !! id) as [d |] eqn:Hd.
  2:{ by rewrite Hsame by (by intros d; rewrite Hd). }
  destruct (decide (abortTimedOut d = d)) as [Heq | Hne].
  { rewrite Hsame; [done |]. intros d0. rewrite Hd. by intros [= <-]. }
  rewrite <- (insert_delete_id t id d) at 1 by done.
  rewrite map_filter_insert_True by (cbn; split; [by left | done]).
  rewrite map_size_insert_None by (by rewrite map_lookup_filter_None; left; rewrite lookup_delete_eq).
  f_equal.
  rewrite map_filter_insert_False by (cbn; rewrite abortTimedOut_idemp; tauto).
  f_equal. apply Hsame. intros d0. by rewrite lookup_delete_eq.
Qed.

Lemma toAbort_nil t : size (toAbort [] t) = 0%nat.
Proof.
  apply map_size_empty_iff. unfold toAbort. apply map_empty_filter. apply map_Forall_lookup.
  intros k d _ [Hin _]. by apply elem_of_nil in Hin.
Qed.

Lemma TimeoutCrawlExecutions_loop_drains l :
  ∀ fuel count w t,
    list_at (kv w) redisCrawlExecutionTimeoutQueue = l →
    holds_list (kv w) redisCrawlExecutionTimeoutQueue = true →
    tables w !! rethinkDbTableCrawlExecutions = Some t →
    served (S (length l)) (redis_net w) = true →
    clean (length l) (rethink_net w) = true →
    (length l < fuel)%nat →
    ∃ w' t',
      TimeoutCrawlExecutions_loop fuel count w
      = Some ((count + Z.of_nat (size (toAbort l t)), None), w')
      ∧ list_at (kv w') redisCrawlExecutionTimeoutQueue = []
      ∧ tables w' !! rethinkDbTableCrawlExecutions = Some t'
      ∧ (∀ id, t' !! id = if decide (id ∈ l) then abortTimedOut <$> t !! id else t !! id)
      ∧ (∀ tbl, tbl ≠ rethinkDbTableCrawlExecutions → tables w' !! tbl = tables w !! tbl)
      ∧ ∀ key, key ≠ redisCrawlExecutionTimeoutQueue → kv w' !! key = kv w !! key.
Proof.
  induction l as [| ceid rest IH]; intros fuel count w t Hl Hholds Ht Hnet Hclean Hfuel.
  - destruct fuel as [| fuel]; [cbn in Hfuel; lia |].
    cbn [TimeoutCrawlExecutions_loop]. unfold bind at 1.
    unfold Client.LPop. rewrite roundtrip_served by done.
    assert (LPOP redisCrawlExecutionTimeoutQueue (kv w) = (inl RedisNil, kv w)) as ->.
    { unfold LPOP. unfold list_at in Hl. unfold holds_list in Hholds.
      destruct (kv w !! redisCrawlExecutionTimeoutQueue) as [[l | z | h] |]; try done.
      by subst l. }
    eexists _, t. rewrite toAbort_nil, Z.add_0_r. split; [reflexivity |].
    cbn [kv tables]. split; [done |]. split; [done |].
    split; [| done]. intros id. rewrite decide_False; [done | by intros ?%elem_of_nil].
  - destruct fuel as [| fuel]; [cbn in Hfuel; lia |].
    assert (served 1 (redis_net w) = true) as Hnet1.
    { unfold served in *. by destruct (redis_net w) as [| [e |] net]. }
    apply served_head in Hnet as [_ Hnet].
    cbn [length] in Hclean. apply clean_head in Hclean as [Hclean1 Hclean].
    cbn [TimeoutCrawlExecutions_loop]. unfold bind at 1.
    rewrite (LPop_served _ _ _ _ Hl) by done. unfold bind at 1.
    rewrite (setCrawlExecutionStateAbortedTimeout_served ceid _ t) by done.
    cbn [kv redis_net tables rethink_net maxRetries calls].
    match goal with |- context [TimeoutCrawlExecutions_loop fuel ?c ?w2] =>
      destruct (IH fuel c w2
                  (match t !! ceid with
                   | Some d => <[ceid := abortTimedOut d]> t
                   | None => t
                   end))
        as (w' & t' & Hrun & Hq & Ht' & Hrows & Htbl & Hfr)
    end; cbn [kv redis_net tables rethink_net maxRetries calls].
    { apply list_at_put_list. }
    { apply holds_list_put_list. }
    { by rewrite lookup_insert_eq. }
    { done. }
    { done. }
    { cbn in Hfuel. lia. }
    exists w', t'. split.
    { rewrite Hrun. do 3 f_equal. rewrite toAbort_cons.
      destruct (t !! ceid) as [d |] eqn:Hd; [| lia].
      destruct (decide (abortTimedOut d = d)) as [Heq | Hne]; [| lia].
      rewrite Heq, insert_id by done. lia. }
    split; [done |]. split; [done |].
    split.
    { intros id. rewrite Hrows.
      destruct (decide (id = ceid)) as [-> | Hne].
      - rewrite (decide_True (P := ceid ∈ ceid :: rest)) by (by left).
        assert (match t !! ceid with
                | Some d => <[ceid := abortTimedOut d]> t
                | None => t
                end !! ceid = abortTimedOut <$> t !! ceid) as ->.
        { destruct (t !! ceid) as [d |] eqn:Hd; [by rewrite lookup_insert_eq | by rewrite Hd]. }
        destruct (decide (ceid ∈ rest)); [apply abortTimedOut_fmap_idemp | done].
      - assert (match t !! ceid with
                | Some d => <[ceid := abortTimedOut d]> t
                | None => t
                end !! id = t !! id) as ->.
        { destruct (t !! ceid) as [d |]; [by rewrite lookup_insert_ne | done]. }
        destruct (decide (id ∈ rest)) as [Hin | Hin].
        + rewrite decide_True; [done | by right].
        + rewrite decide_False; [done |]. by intros [? | ?]%elem_of_cons. }
    cbn [kv tables] in Htbl, Hfr. split.
    { intros tbl Hne. by rewrite Htbl, lookup_insert_ne. }
    intros key Hkey. by rewrite Hfr, lookup_put_list_ne.
Qed.

End DrainingServed.

(** X11: when both stores answer, [TimeoutCrawlExecutions] empties the
    timeout queue; the record of every queued id that has one is marked
    (kept, when it has an end time), every other record is as it was, and
    the count is the number of records that changed. *)
Theorem timeout_drains_served_queue w t :
  holds_list (kv w) redisCrawlExecutionTimeoutQueue = true →
  tables w !! rethinkDbTableCrawlExecutions = Some t →
  served (S (length (list_at (kv w) redisCrawlExecutionTimeoutQueue))) (redis_net w) = true →
  clean (length (list_at (kv w) redisCrawlExecutionTimeoutQueue)) (rethink_net w) = true →
  ∃ w' t',
    TimeoutCrawlExecutions w
    = Some ((Z.of_nat (size (toAbort (list_at (kv w) redisCrawlExecutionTimeoutQueue) t)),
             None), w')
    ∧ list_at (kv w') redisCrawlExecutionTimeoutQueue = []
    ∧ tables w' !! rethinkDbTableCrawlExecutions = Some t'
    ∧ (∀ id, t' !! id
             = if decide (id ∈ list_at (kv w) redisCrawlExecutionTimeoutQueue)
               then abortTimedOut <$> t !! id else t !! id)
    ∧ (∀ tbl, tbl ≠ rethinkDbTableCrawlExecutions → tables w' !! tbl = tables w !! tbl)
    ∧ ∀ key, key ≠ redisCrawlExecutionTimeoutQueue → kv w' !! key = kv w !! key.
Proof.
  intros Hholds Ht Hnet Hclean. unfold TimeoutCrawlExecutions.
  destruct (TimeoutCrawlExecutions_loop_drains
              (list_at (kv w) redisCrawlExecutionTimeoutQueue)
              (S (length (list_at (kv w) redisCrawlExecutionTimeoutQueue))) 0 w t)
    as (w' & t' & Hrun & Hrest); try done; [lia |].
  exists w', t'. split; [| exact Hrest]. by rewrite Hrun, Z.add_0_l.
Qed.

Lemma timeout_drains_served_queue_witness :
  ∃ w' t',
    TimeoutCrawlExecutions Example.oneEnded = Some ((1, None), w')
    ∧ list_at (kv w') redisCrawlExecutionTimeoutQueue = []
    ∧ tables w' !! rethinkDbTableCrawlExecutions = Some t'
    ∧ t' !! "C1" = Some {[ "id" := VStr "C1"; "endTime" := VStr "2021-11-09T10:00:00Z" ]}
    ∧ t' !! "C2" = Some {[ "id" := VStr "C2"; "desiredState" := VStr "ABORTED_TIMEOUT" ]}.
Proof.
  destruct (timeout_drains_served_queue Example.oneEnded
              {[ "C1" := {[ "id" := VStr "C1"; "endTime" := VStr "2021-11-09T10:00:00Z" ]};
                 "C2" := {[ "id" := VStr "C2" ]} ]})
    as (w' & t' & Hrun & Hq & Ht' & Hrows & _);
    [vm_compute; reflexivity | vm_compute; reflexivity | vm_compute; reflexivity
    | vm_compute; reflexivity |].
  exists w', t'.
  match type of Hrun with
  | _ = Some ((?n, _), _) =>
      assert (n = 1) as Hn by (vm_compute; reflexivity); rewrite Hn in Hrun
  end.
  split; [exact Hrun |]. split; [exact Hq |]. split; [exact Ht' |].
  split; [rewrite Hrows; vm_compute; reflexivity |].
  rewrite Hrows. vm_compute. reflexivity.
Defined.

(** X12: the timeout update can be repeated.  When the durable store
    answers twice, the second update of the same crawl execution replaces
    nothing and leaves the durable store as the first left it; a crawl
    execution without a record gets none. *)
Theorem abort_update_is_idempotent id w t :
  tables w !! rethinkDbTableCrawlExecutions = Some t →
  clean 2 (rethink_net w) = true →
  ∃ replaced w1 w2,
    setCrawlExecutionStateAbortedTimeout id w = Some ((replaced, None), w1)
    ∧ executions (tables w1) id = abortTimedOut <$> t !! id
    ∧ setCrawlExecutionStateAbortedTimeout id w1 = Some ((0, None), w2)
    ∧ tables w2 = tables w1.
Proof.
  intros Ht Hclean. apply clean_head in Hclean as [Hclean1 Hclean2].
  rewrite (setCrawlExecutionStateAbortedTimeout_served id w t) by done.
  destruct (t !! id) as [d |] eqn:Hd.
  - eexists _, _, _. split; [reflexivity |]. cbn [tables].
    split; [by rewrite executions_insert, lookup_insert_eq |].
    rewrite (setCrawlExecutionStateAbortedTimeout_served id _ (<[id := abortTimedOut d]> t));
      [| done | by cbn; rewrite lookup_insert_eq].
    cbn [kv redis_net tables rethink_net maxRetries calls].
    rewrite lookup_insert_eq, abortTimedOut_idemp.
    rewrite decide_True by done. split; [reflexivity |]. cbn [tables].
    by rewrite insert_insert_eq, insert_insert_eq.
  - eexists _, _, _. split; [reflexivity |]. cbn [tables].
    split; [by rewrite executions_insert, Hd |].
    rewrite (setCrawlExecutionStateAbortedTimeout_served id _ t);
      [| done | by cbn; rewrite lookup_insert_eq].
    cbn [kv redis_net tables rethink_net maxRetries calls].
    rewrite Hd. split; [reflexivity |]. cbn [tables]. by rewrite insert_insert_eq.
Qed.

Lemma abort_update_is_idempotent_witness :
  ∃ w1 w2,
    setCrawlExecutionStateAbortedTimeout "C2" Example.oneEnded = Some ((1, None), w1)
    ∧ setCrawlExecutionStateAbortedTimeout "C2" w1 = Some ((0, None), w2)
    ∧ tables w2 = tables w1.
Proof.
  destruct (abort_update_is_idempotent "C2" Example.oneEnded
              {[ "C1" := {[ "id" := VStr "C1"; "endTime" := VStr "2021-11-09T10:00:00Z" ]};
                 "C2" := {[ "id" := VStr "C2" ]} ]})
    as (replaced & w1 & w2 & Hrun1 & _ & Hrun2 & Hsame);
    [vm_compute; reflexivity | vm_compute; reflexivity |].
  exists w1, w2.
  assert (replaced = 1) as ->.
  { pose proof Hrun1 as H. vm_compute in H. by injection H. }
  split; [exact Hrun1 |]. split; [exact Hrun2 | exact Hsame].
Defined.

(** ** The bulk delete *)
Section BulkDelete.
Implicit Types (w : world) (t : table) (keys bad : list string).

Lemma deleteRows_spec keys bad :
  ∀ wr t,
    (Rethink.deleteRows keys bad wr t).2 = filter (λ kd, kd.1 ∉ keys ∨ kd.1 ∈ bad) t
    ∧ Deleted (Rethink.deleteRows keys bad wr t).1
        + Z.of_nat (size (Rethink.deleteRows keys bad wr t).2)
      = Deleted wr + Z.of_nat (size t)
    ∧ Errors wr <= Errors (Rethink.deleteRows keys bad wr t).1
    ∧ (Errors (Rethink.deleteRows keys bad wr t).1 = Errors wr
       ↔ ∀ id, id ∈ keys → id ∈ bad → t !! id = None).
Proof.
  induction keys as [| id keys IH]; intros wr t.
  { cbn. split.
    - symmetry. apply map_filter_id. intros k d _. left. by intros ?%elem_of_nil.
    - split; [done |]. split; [done |]. split; [by intros _ id ?%elem_of_nil | done]. }
  cbn [Rethink.deleteRows].
  destruct (t !! id) as [d |] eqn:Hd; [destruct (decide (id ∈ bad)) as [Hbad | Hbad] |].
  - destruct (IH (Rethink.rowError Rethink.storageError wr) t) as (Ht & Hdel & Herr & Hiff).
    cbn [Rethink.rowError Errors Deleted] in *.
    split.
    { rewrite Ht. apply map_filter_ext. intros k d' Hk. cbn.
      rewrite not_elem_of_cons. split; [| tauto].
      intros [Hin | ?]; [| tauto]. destruct (decide (k = id)) as [-> | ?]; tauto. }
    split; [done |]. split; [lia |].
    split; [lia |]. intros Hall. specialize (Hall id). rewrite Hd in Hall.
    by discriminate Hall; [left |].
  - match goal with |- context [Rethink.deleteRows keys bad ?wr' ?t'] =>
      destruct (IH wr' t') as (Ht & Hdel & Herr & Hiff) end.
    cbn [Errors Deleted] in *.
    split.
    { rewrite Ht. apply map_eq. intros k. apply option_eq. intros d'.
      rewrite !map_lookup_filter_Some. cbn. rewrite not_elem_of_cons.
      destruct (decide (k = id)) as [-> | Hne].
      - rewrite lookup_delete_eq. split; [by intros [? _] | tauto].
      - rewrite lookup_delete_ne by done. tauto. }
    split.
    { rewrite Hdel. rewrite map_size_delete, Hd. cbn [Deleted].
      assert (0 < size t)%nat.
      { destruct (decide (size t = 0%nat)) as [H0 | ?]; [| lia].
        apply map_size_empty_iff in H0. by rewrite H0 in Hd. }
      lia. }
    split; [done |]. rewrite Hiff. split.
    + intros Hall k [-> | Hin]%elem_of_cons Hk; [done |].
      specialize (Hall k Hin Hk). rewrite lookup_delete_None in Hall.
      destruct Hall as [-> | ?]; done.
    + intros Hall k Hin Hk. rewrite lookup_delete_None. right. apply Hall; [by right | done].
  - match goal with |- context [Rethink.deleteRows keys bad ?wr' ?t'] =>
      destruct (IH wr' t') as (Ht & Hdel & Herr & Hiff) end.
    cbn [Errors Deleted] in *.
    split.
    { rewrite Ht. apply map_filter_ext. intros k d' Hk. cbn.
      rewrite not_elem_of_cons. split; [| tauto].
      intros [Hin | ?]; [| tauto]. left. split; [| done]. intros ->. by rewrite Hd in Hk. }
    split; [done |]. split; [done |]. rewrite Hiff. split.
    + intros Hall k [-> | Hin]%elem_of_cons Hk; [done | by apply Hall].
    + intros Hall k Hin Hk. apply Hall; [by right | done].
Qed.

(** The bulk delete, when the durable store answers the first attempt and
    fails on the rows [bad]. *)
Lemma removeQueuedUris_answered uriIds bad w t :
  tables w !! rethinkDbTableUriQueue = Some t →
  head (rethink_net w) = Some (Served bad) ∨ (rethink_net w = [] ∧ bad = []) →
  ∃ err,
    removeQueuedUris uriIds w
    = Some ((Z.of_nat (size t)
             - Z.of_nat (size (filter (λ kd, kd.1 ∉ uriIds ∨ kd.1 ∈ bad) t)), err),
            World (kv w) (redis_net w)
              (<[rethinkDbTableUriQueue := filter (λ kd, kd.1 ∉ uriIds ∨ kd.1 ∈ bad) t]>
                 (tables w))
              (tail (rethink_net w)) (maxRetries w)
              (calls w ++ [CRunWrite "delete-queued-uris"]))
    ∧ (err = None ↔ ∀ id, id ∈ uriIds → id ∈ bad → t !! id = None).
Proof.
  intros Ht Hnet. unfold removeQueuedUris, bind.
  destruct (deleteRows_spec uriIds bad noResponse t) as (Ht' & Hdel & Herr & Hiff).
  cbn [Errors Deleted noResponse] in *.
  destruct (Rethink.deleteRows uriIds bad noResponse t) as [wr t'] eqn:Erows.
  cbn [fst snd] in *.
  assert (RunWrite (Rethink.GetAllDelete rethinkDbTableUriQueue uriIds)
            (World (kv w) (redis_net w) (tables w) (rethink_net w) (maxRetries w)
               (calls w ++ [CRunWrite "delete-queued-uris"]))
          = Some ((wr, if 0 <? Errors wr
                       then Some (Errorf "%s" [AStr (FirstError wr)]) else None),
                  World (kv w) (redis_net w) (<[rethinkDbTableUriQueue := t']> (tables w))
                    (tail (rethink_net w)) (maxRetries w)
                    (calls w ++ [CRunWrite "delete-queued-uris"])))
    as Hrun.
  { unfold RunWrite. cbn [rethink_net tables kv redis_net maxRetries calls].
    destruct Hnet as [-> | [-> ->]]; cbn [head]; unfold Rethink.serve;
      rewrite Ht, Erows; by destruct (0 <? Errors wr). }
  assert (∀ applied e, head (rethink_net w) = Some (Broken applied e) → retryable e = false)
    as Hhead.
  { intros applied e. by destruct Hnet as [-> | [-> _]]. }
  unfold execWrite. rewrite (execWithRetry_once _ _ w _ _ _ Hrun); [| done |].
  2:{ intros e He. rewrite He in Hrun.
      eapply RunWrite_error_not_retried; [| exact Hrun]. exact Hhead. }
  eexists. split.
  { unfold ret. rewrite <- Ht'.
    replace (Deleted wr) with (Z.of_nat (size t) - Z.of_nat (size t')) by lia.
    reflexivity. }
  destruct (0 <? Errors wr) eqn:E; cbn.
  - split; [done |]. intros Hall%Hiff. lia.
  - split; [| done]. intros _. apply Hiff. lia.
Qed.

Lemma clean_answers net :
  clean 1 net = true → head net = Some (Served []) ∨ (net = [] ∧ @nil string = []).
Proof. unfold clean. destruct net as [| [[| b bad] | applied e] net]; cbn; auto; done. Qed.

End BulkDelete.

(** X13: a bulk delete that the durable store answers at the first attempt
    removes from the table exactly the rows of the batch that the store did
    not fail on, and nothing else; the number it returns is the number of
    rows that are gone; it returns an error exactly when the store failed on
    a row of the batch. *)
Theorem bulk_delete_removes_the_batch uriIds bad net w t :
  tables w !! rethinkDbTableUriQueue = Some t →
  rethink_net w = Served bad :: net →
  ∃ removed err w' t',
    removeQueuedUris uriIds w = Some ((removed, err), w')
    ∧ tables w' !! rethinkDbTableUriQueue = Some t'
    ∧ (∀ id, t' !! id = if decide (id ∈ uriIds ∧ id ∉ bad) then None else t !! id)
    ∧ removed = Z.of_nat (size t) - Z.of_nat (size t')
    ∧ (err = None ↔ ∀ id, id ∈ uriIds → id ∈ bad → t !! id = None)
    ∧ (∀ tbl, tbl ≠ rethinkDbTableUriQueue → tables w' !! tbl = tables w !! tbl)
    ∧ kv w' = kv w
    ∧ calls w' = calls w ++ [CRunWrite "delete-queued-uris"].
Proof.
  intros Ht Hnet.
  destruct (removeQueuedUris_answered uriIds bad w t Ht) as (err & Hrun & Herr).
  { left. by rewrite Hnet. }
  eexists _, err, _, _. split; [exact Hrun |]. cbn [tables kv calls].
  split; [by rewrite lookup_insert_eq |].
  split.
  { intros id. destruct (decide (id ∈ uriIds ∧ id ∉ bad)) as [[Hin Hbad] | Hno].
    - apply map_lookup_filter_None. right. intros d _. cbn. tauto.
    - destruct (t !! id) as [d |] eqn:Hd.
      + apply map_lookup_filter_Some. split; [done |]. cbn.
        destruct (decide (id ∈ uriIds)); destruct (decide (id ∈ bad)); tauto.
      + apply map_lookup_filter_None. by left. }
  split; [done |]. split; [done |].
  split; [by intros tbl Hne; rewrite lookup_insert_ne |]. done.
Qed.

Lemma bulk_delete_removes_the_batch_witness :
  ∃ err w' t',
    removeQueuedUris ["u1"; "u2"; "u3"] (Example.threeToRemove [Served ["u2"]])
    = Some ((1, Some err), w')
    ∧ tables w' !! rethinkDbTableUriQueue = Some t'
    ∧ t' !! "u1" = None
    ∧ t' !! "u2" = Some {[ "id" := VStr "u2" ]}.
Proof.
  destruct (bulk_delete_removes_the_batch ["u1"; "u2"; "u3"] ["u2"] []
              (Example.threeToRemove [Served ["u2"]])
              {[ "u1" := {[ "id" := VStr "u1" ]}; "u2" := {[ "id" := VStr "u2" ]} ]})
    as (removed & err & w' & t' & Hrun & Ht' & Hrows & _);
    [vm_compute; reflexivity | vm_compute; reflexivity |].
  pose proof Hrun as H. vm_compute in H.
  destruct err as [err |]; [| discriminate H].
  assert (removed = 1) as -> by (by injection H).
  exists err, w', t'. split; [exact Hrun |]. split; [exact Ht' |].
  split; [rewrite Hrows; vm_compute; reflexivity |].
  rewrite Hrows. vm_compute. reflexivity.
Defined.

(** X14: one cycle of [RemoveFromUriQueue] with both stores answering
    takes the first 10,000 ids off the removal queue (all of them when
    there are fewer), deletes the rows of exactly these ids, and returns the
    number of rows that are gone. *)
Theorem uri_removal_cycle_removes_first_batch w t :
  holds_list (kv w) redisRemoveUriQueue = true →
  tables w !! rethinkDbTableUriQueue = Some t →
  served 2 (redis_net w) = true →
  clean 1 (rethink_net w) = true →
  ∃ w' t',
    RemoveFromUriQueue w = Some ((Z.of_nat (size t) - Z.of_nat (size t'), None), w')
    ∧ list_at (kv w') redisRemoveUriQueue
      = drop (Z.to_nat 10000) (list_at (kv w) redisRemoveUriQueue)
    ∧ tables w' !! rethinkDbTableUriQueue = Some t'
    ∧ (∀ id, t' !! id
             = if decide (id ∈ take (Z.to_nat 10000) (list_at (kv w) redisRemoveUriQueue))
               then None else t !! id)
    ∧ ∀ tbl, tbl ≠ rethinkDbTableUriQueue → tables w' !! tbl = tables w !! tbl.
Proof.
  intros Hholds Ht Hnet Hclean.
  assert (served 1 (redis_net w) = true) as Hnet1.
  { unfold served in *. by destruct (redis_net w) as [| [e |] net]. }
  apply served_head in Hnet as [_ Hnet].
  set (l := list_at (kv w) redisRemoveUriQueue).
  unfold RemoveFromUriQueue, bind at 1. unfold Client.LRange.
  rewrite roundtrip_served by done.
  assert (LRANGE redisRemoveUriQueue 0 9999 (kv w)
          = (inr (take (Z.to_nat 10000) l), kv w)) as ->.
  { unfold LRANGE. subst l. unfold list_at. unfold holds_list in Hholds.
    destruct (kv w !! redisRemoveUriQueue) as [[l | z | h] |]; [| done | done |].
    - rewrite lrange_take by lia. by replace (9999 + 1) with 10000 by lia.
    - by rewrite take_nil. }
  cbv beta zeta iota.
  destruct (Z.of_nat (length (take (Z.to_nat 10000) l)) =? 0) eqn:Elen.
  - apply Z.eqb_eq in Elen.
    assert (l = []) as Hl.
    { rewrite length_take in Elen. apply nil_length_inv. lia. }
    exists (World (kv w) (tail (redis_net w)) (tables w) (rethink_net w) (maxRetries w)
              (calls w ++ [CLRange redisRemoveUriQueue 0 9999])), t.
    cbn [kv tables]. fold l. rewrite Hl, drop_nil, take_nil.
    split; [unfold ret; do 3 f_equal; lia |]. split; [done |]. split; [done |].
    split; [| done]. intros id. rewrite decide_False; [done | by intros ?%elem_of_nil].
  - unfold bind at 1.
    match goal with |- context [removeQueuedUris _ ?w1] =>
      destruct (removeQueuedUris_answered (take (Z.to_nat 10000) l) [] w1 t)
        as (err & Hrun & Herr)
    end; [done | by apply clean_answers |].
    assert (err = None) as -> by (apply Herr; by intros id _ ?%elem_of_nil).
    rewrite Hrun. cbn [kv redis_net tables rethink_net maxRetries calls].
    unfold bind at 1.
    match goal with |- context [deleteFromRemoveQueue _ ?w2] =>
      destruct (deleteFromRemoveQueue_inv (take (Z.to_nat 10000) l)
                  (drop (Z.to_nat 10000) l) w2)
        as (err & w3 & Hpipe & (Ht3 & _) & _ & Hq3 & Hserved)
    end.
    { cbn [kv]. fold l. by rewrite take_drop. }
    rewrite (Hserved Hnet) in Hpipe, Hq3. rewrite Hpipe.
    cbn [tables] in Ht3.
    eexists w3, _. split; [reflexivity |]. split; [done |]. rewrite Ht3.
    split; [by rewrite lookup_insert_eq |].
    split; [| by intros tbl Hne; rewrite lookup_insert_ne].
    intros id. destruct (decide (id ∈ take (Z.to_nat 10000) l)) as [Hin | Hin].
    + apply map_lookup_filter_None. right. intros d _. cbn.
      intros [? | ?%elem_of_nil]; done.
    + destruct (t !! id) as [d |] eqn:Hd.
      * apply map_lookup_filter_Some. split; [done |]. by left.
      * apply map_lookup_filter_None. by left.
Qed.

Lemma uri_removal_cycle_removes_first_batch_witness :
  ∃ w' t',
    RemoveFromUriQueue (Example.threeToRemove []) = Some ((2, None), w')
    ∧ list_at (kv w') redisRemoveUriQueue = []
    ∧ tables w' !! rethinkDbTableUriQueue = Some t'
    ∧ t' !! "u1" = None.
Proof.
  destruct (uri_removal_cycle_removes_first_batch (Example.threeToRemove [])
              {[ "u1" := {[ "id" := VStr "u1" ]}; "u2" := {[ "id" := VStr "u2" ]} ]})
    as (w' & t' & Hrun & Hq & Ht' & Hrows & _);
    [vm_compute; reflexivity | vm_compute; reflexivity | vm_compute; reflexivity
    | vm_compute; reflexivity |].
  exists w', t'.
  assert (RemoveFromUriQueue (Example.threeToRemove [])
          = Some ((2, None), after RemoveFromUriQueue (Example.threeToRemove [])))
    as Hc by (vm_compute; reflexivity).
  rewrite Hc in Hrun. injection Hrun as _ Hw.
  split; [rewrite <- Hw; exact Hc |].
  split; [rewrite Hq; reflexivity |]. split; [exact Ht' |].
  rewrite Hrows. reflexivity.
Defined.

(** ** The status built from the cache *)
Section CachedStatus.
Variable State_value : gmap string Z.

(** What the loop over the hash fields contributes for one field. *)
Lemma rangeStep_fold (l : list (string * string)) :
  NoDup l.*1 →
  ∀ (m : doc) (es : list (string * Z)),
    (∀ k, (fold_left (rangeStep State_value) l (m, es)).1 !! k
          = match (list_to_map l : gmap string string) !! k with
            | Some v =>
                match ParseInt v, State_value !! k with
                | Some c, None => Some (VNum c)
                | _, _ => m !! k
                end
            | None => m !! k
            end)
    ∧ (fold_left (rangeStep State_value) l (m, es)).2
      = es ++ omap (λ kv, match ParseInt kv.2, State_value !! kv.1 with
                          | Some c, Some _ => Some (kv.1, c)
                          | _, _ => None
                          end) l.
Proof.
  induction l as [| [k0 v0] l IH]; intros Hnd m es.
  { cbn. split; [done | by rewrite app_nil_r]. }
  rewrite fmap_cons in Hnd. apply NoDup_cons in Hnd as [Hk0 Hnd].
  cbn [fold_left]. 
  assert ((list_to_map l : gmap string string) !! k0 = None) as Hnone.
  { by apply not_elem_of_list_to_map_1. }
  destruct (IH Hnd (rangeStep State_value (m, es) (k0, v0)).1
              (rangeStep State_value (m, es) (k0, v0)).2) as [Hm Hes].
  rewrite <- surjective_pairing in Hm, Hes.
  split.
  - intros k. rewrite Hm. cbn [list_to_map foldr]. cbn [fst snd].
    destruct (decide (k = k0)) as [-> | Hne].
    + rewrite Hnone, lookup_insert_eq. unfold rangeStep.
      destruct (ParseInt v0) as [c |]; [| done].
      destruct (State_value !! k0); [done |]. cbn. by rewrite lookup_insert_eq.
    + rewrite lookup_insert_ne by done. 
      assert ((rangeStep State_value (m, es) (k0, v0)).1 !! k = m !! k) as ->; [| done].
      unfold rangeStep. destruct (ParseInt v0) as [c |]; [| done].
      destruct (State_value !! k0); [done |]. cbn. by rewrite lookup_insert_ne.
  - rewrite Hes. cbn [omap list_omap fst snd]. unfold rangeStep.
    destruct (ParseInt v0) as [c |]; [| done].
    destruct (State_value !! k0); [| done]. cbn. by rewrite <- app_assoc.
Qed.

Lemma omap_keys_NoDup (l : list (string * string)) (f : string * string → option (string * Z)) :
  (∀ kv kc, f kv = Some kc → kc.1 = kv.1) →
  NoDup l.*1 → NoDup (omap f l).*1.
Proof.
  intros Hf. induction l as [| kv l IH]; [done |].
  rewrite fmap_cons. intros [Hin Hnd]%NoDup_cons. cbn [omap list_omap].
  destruct (f kv) as [kc |] eqn:E; [| by apply IH].
  rewrite fmap_cons. apply NoDup_cons. split; [| by apply IH].
  rewrite (Hf _ _ E). intros (kc' & Hk & (kv' & Hkv' & E')%list_elem_of_omap)%list_elem_of_fmap.
  apply Hin. apply list_elem_of_fmap. exists kv'. split; [| done].
  by rewrite Hk, (Hf _ _ E').
Qed.

Lemma prefix_app (p s : string) : String.prefix p (p +:+ s) = true.
Proof.
  induction p as [| c p IH].
  - change ("" +:+ s) with s. by destruct s.
  - change (String c p +:+ s) with (String c (p +:+ s)). simpl.
    destruct (ascii_dec c c) as [_ | Hne]; [exact IH | by destruct Hne].
Qed.

Lemma substring_all (s : string) : String.substring 0 (String.length s) s = s.
Proof. induction s as [| c s IH]; [done |]. simpl. by rewrite IH. Qed.

Lemma TrimPrefix_app (p s : string) : TrimPrefix (p +:+ s) p = s.
Proof.
  unfold TrimPrefix. rewrite prefix_app.
  induction p as [| c p IH].
  - change ("" +:+ s) with s. simpl. rewrite Nat.sub_0_r. apply substring_all.
  - change (String c p +:+ s) with (String c (p +:+ s)). simpl. exact IH.
Qed.

End CachedStatus.

(** X15: the status that a cycle builds for the job execution [id] from
    its cached hash: every hash field whose value parses as a 64-bit integer
    becomes a numeric field of the same name, unless its name is a crawl
    execution state; the state-named ones are collected, each once, under
    [executionsState]; fields that do not parse are dropped; [id] is the
    key without its prefix, unless the hash has a numeric field of that
    name, which replaces it. *)
Theorem cached_status_fields State_value id jeMap :
  (∀ k, k ≠ "executionsState" →
        jobExecutionStatus State_value (redisJobExecutionPrefix +:+ id) jeMap !! k
        = match jeMap !! k with
          | Some v =>
              match ParseInt v, State_value !! k with
              | Some c, None => Some (VNum c)
              | _, _ => if decide (k = "id") then Some (VStr id) else None
              end
          | None => if decide (k = "id") then Some (VStr id) else None
          end)
  ∧ ∃ es,
      jobExecutionStatus State_value (redisJobExecutionPrefix +:+ id) jeMap
        !! "executionsState" = Some (VStates es)
      ∧ NoDup es.*1
      ∧ ∀ k c, (k, c) ∈ es
               ↔ ∃ v, jeMap !! k = Some v ∧ ParseInt v = Some c
                      ∧ is_Some (State_value !! k).
Proof.
  unfold jobExecutionStatus. rewrite TrimPrefix_app.
  destruct (rangeStep_fold State_value (map_to_list jeMap)
              (NoDup_fst_map_to_list jeMap) {[ "id" := VStr id ]} []) as [Hm Hes].
  destruct (fold_left (rangeStep State_value) (map_to_list jeMap)
              ({[ "id" := VStr id ]}, [])) as [m es].
  cbn [fst snd] in Hm, Hes. rewrite list_to_map_to_list in Hm.
  assert (∀ k, ({[ "id" := VStr id ]} : doc) !! k
               = if decide (k = "id") then Some (VStr id) else None) as Hbase.
  { intros k. destruct (decide (k = "id")) as [-> | Hne];
      [by rewrite lookup_singleton_eq | by rewrite lookup_singleton_ne]. }
  split.
  - intros k Hk. rewrite lookup_insert_ne by done. rewrite Hm, !Hbase.
    destruct (jeMap !! k) as [v |]; [| done].
    destruct (ParseInt v); [| done]. by destruct (State_value !! k).
  - exists es. split; [by rewrite lookup_insert_eq |]. rewrite Hes. cbn [app].
    split.
    { apply omap_keys_NoDup; [| apply NoDup_fst_map_to_list].
      intros [k v] kc. cbn.
      destruct (ParseInt v); [| done]. destruct (State_value !! k); [| done].
      by intros [= <-]. }
    intros k c. rewrite list_elem_of_omap. split.
    + intros ([k' v] & Hin%elem_of_map_to_list & Hf). cbn in Hf.
      destruct (ParseInt v) as [c' |] eqn:Ep; [| done].
      destruct (State_value !! k') as [n |] eqn:Es; [| done].
      injection Hf as -> ->. exists v. by rewrite Es.
    + intros (v & Hv & Hp & [n Hs]). exists (k, v).
      split; [by apply elem_of_map_to_list |]. cbn. by rewrite Hp, Hs.
Qed.

(** ** The cycle that flushes the counters *)
Section FlushCycle.
Variable State_value : gmap string Z.
Implicit Types (w : world) (t : table) (d jes : doc).

(** A read of the queue store. *)
Lemma read_roundtrip {A : Type} (c : call) (zero : A) (f : keyspace → error + A) w a err w' :
  roundtrip c zero (λ kv, (f kv, kv)) w = Some ((a, err), w') →
  kv w' = kv w ∧ keeps_durable_store w w' ∧ calls w' = calls w ++ [c].
Proof.
  intros Hrt. apply roundtrip_inv in Hrt as (Hd & _ & Hc & Hcases).
  split; [| done]. destruct Hcases as [(Hkv & _) | (_ & Hcmd & _)]; [done |].
  by injection Hcmd.
Qed.

Lemma Exists_read key w a err w' :
  Client.Exists key w = Some ((a, err), w') →
  kv w' = kv w ∧ keeps_durable_store w w' ∧ calls w' = calls w ++ [CExists key].
Proof.
  unfold Client.Exists.
  apply (read_roundtrip (CExists key) 0
           (λ kv, inr (match kv !! key with Some _ => 1 | None => 0 end))).
Qed.

Lemma HGetAll_read key w a err w' :
  Client.HGetAll key w = Some ((a, err), w') →
  kv w' = kv w ∧ keeps_durable_store w w' ∧ calls w' = calls w ++ [CHGetAll key].
Proof.
  unfold Client.HGetAll. intros Hrt.
  apply roundtrip_inv in Hrt as (Hd & _ & Hc & Hcases).
  split; [| done]. destruct Hcases as [(Hkv & _) | (_ & Hcmd & _)]; [done |].
  destruct (kv w !! key) as [[l | z | h] |]; by injection Hcmd.
Qed.

Lemma Keys_read pattern w a err w' :
  Client.Keys pattern w = Some ((a, err), w') →
  kv w' = kv w ∧ keeps_durable_store w w' ∧ calls w' = calls w ++ [CKeys pattern].
Proof.
  unfold Client.Keys.
  apply (read_roundtrip (CKeys pattern) []
           (λ kv, inr (List.filter (Client.glob pattern) (map_to_list kv).*1))).
Qed.

Lemma getJobExecutionStatuses_loop_reads keys :
  ∀ acc w r w',
    getJobExecutionStatuses_loop State_value keys acc w = Some (r, w') →
    kv w' = kv w ∧ tables w' = tables w
    ∧ ∃ reads, calls w' = calls w ++ reads ∧ forallb cache_read reads = true.
Proof.
  induction keys as [| key keys IH]; intros acc w r w'.
  - intros [= <- <-]. split; [done |]. split; [done |]. exists []. by rewrite app_nil_r.
  - cbn [getJobExecutionStatuses_loop]. unfold bind at 1.
    destruct (Client.Exists key w) as [[[n err] w1] |] eqn:E1; [| done].
    apply Exists_read in E1 as (Hkv1 & (Ht1 & _) & Hc1).
    destruct err as [e |].
    { intros [= <- <-]. split; [done |]. split; [done |]. by exists [CExists key]. }
    destruct (n =? 0).
    { intros (Hkv & Ht & reads & Hc & Hall)%IH. rewrite Hkv, Ht. split; [done |].
      split; [done |]. exists (CExists key :: reads).
      split; [by rewrite Hc, Hc1, <- app_assoc | done]. }
    unfold bind at 1.
    destruct (Client.HGetAll key w1) as [[[h err] w2] |] eqn:E2; [| done].
    apply HGetAll_read in E2 as (Hkv2 & (Ht2 & _) & Hc2).
    destruct err as [e |].
    { intros [= <- <-]. rewrite Hkv2, Ht2. split; [done |]. split; [done |].
      exists [CExists key; CHGetAll key]. by rewrite Hc2, Hc1, <- app_assoc. }
    intros (Hkv & Ht & reads & Hc & Hall)%IH. rewrite Hkv, Ht, Hkv2, Ht2.
    split; [done |]. split; [done |]. exists (CExists key :: CHGetAll key :: reads).
    split; [by rewrite Hc, Hc2, Hc1, <- !app_assoc | done].
Qed.

Lemma updateJobExecution_calls jes w r w' :
  updateJobExecution jes w = Some (r, w') →
  kv w' = kv w
  ∧ ∃ writes, calls w' = calls w ++ writes ∧ forallb durable_call writes = true.
Proof.
  unfold updateJobExecution, bind.
  destruct (execWrite _ _ w) as [[[wr e] w1] |] eqn:E; [| done].
  intros [= <- <-]. split; [by apply execWrite_keeps_queue_store in E as [? _] |].
  by eapply execWrite_calls.
Qed.

Lemma UpdateJobExecutions_loop_writes jess :
  ∀ count w r w',
    UpdateJobExecutions_loop jess count w = Some (r, w') →
    kv w' = kv w
    ∧ ∃ writes, calls w' = calls w ++ writes ∧ forallb durable_call writes = true.
Proof.
  induction jess as [| jes jess IH]; intros count w r w'.
  - intros [= <- <-]. split; [done |]. exists []. by rewrite app_nil_r.
  - cbn [UpdateJobExecutions_loop]. unfold bind at 1.
    destruct (updateJobExecution jes w) as [[[replaced err] w1] |] eqn:E; [| done].
    apply updateJobExecution_calls in E as (Hkv1 & writes1 & Hc1 & Hall1).
    destruct err as [e |].
    { intros [= <- <-]. split; [done |]. by exists writes1. }
    intros (Hkv & writes & Hc & Hall)%IH. rewrite Hkv. split; [done |].
    exists (writes1 ++ writes). rewrite forallb_app, Hall1, Hall.
    split; [by rewrite Hc, Hc1, <- app_assoc | done].
Qed.

Lemma UpdateJobExecutions_loop_error jess :
  ∀ count w count' e w',
    UpdateJobExecutions_loop jess count w = Some ((count', Some e), w') →
    ∃ e0, e = Errorf "failed to update job execution status: %w" [AErr e0].
Proof.
  induction jess as [| jes jess IH]; intros count w count' e w'; [done |].
  cbn [UpdateJobExecutions_loop]. unfold bind at 1.
  destruct (updateJobExecution jes w) as [[[replaced err] w1] |]; [| done].
  destruct err as [e0 |]; [| by apply IH].
  intros [= <- <- <-]. by exists e0.
Qed.

End FlushCycle.

(** X16: a cycle of [UpdateJobExecutions] reads the whole cache before it
    writes: its round trips are the key scan, then existence checks and
    hash reads only, then round trips to the durable store only.  It never
    changes the queue store (the cached counters stay), and when reading
    fails it returns 0 and the durable store has not been asked anything. *)
Theorem job_execution_cycle_reads_before_it_writes State_value w :
  ∃ count err w' reads writes,
    UpdateJobExecutions State_value w = Some ((count, err), w')
    ∧ kv w' = kv w
    ∧ calls w' = calls w ++ CKeys "JEID:*" :: reads ++ writes
    ∧ forallb cache_read reads = true
    ∧ forallb durable_call writes = true
    ∧ ∀ e, err = Some (Errorf "failed to get job executions: %w" [AErr e]) →
           count = 0 ∧ writes = [] ∧ tables w' = tables w.
Proof.
  destruct (UpdateJobExecutions_total State_value w) as ([count err] & w' & Hrun).
  exists count, err, w'. pose proof Hrun as Hrun'. revert Hrun'.
  unfold UpdateJobExecutions at 1, getJobExecutionStatuses. unfold bind at 1 2.
  destruct (Client.Keys _ w) as [[[keys e0] w1] |] eqn:E1; [| done].
  apply Keys_read in E1 as (Hkv1 & (Ht1 & _) & Hc1).
  change (redisJobExecutionPrefix +:+ "*") with "JEID:*" in Hc1.
  destruct e0 as [e0 |].
  { intros [= <- <- <-]. exists [], []. split; [exact Hrun |]. by rewrite Hc1. }
  destruct (getJobExecutionStatuses_loop State_value keys [] w1)
    as [[[jess e1] w2] |] eqn:E2; [| done].
  apply getJobExecutionStatuses_loop_reads in E2 as (Hkv2 & Ht2 & reads & Hc2 & Hreads).
  destruct e1 as [e1 |].
  { intros [= <- <- <-]. exists reads, []. split; [exact Hrun |].
    split; [by rewrite Hkv2 |]. rewrite app_nil_r.
    split; [by rewrite Hc2, Hc1, <- app_assoc |]. split; [done |]. split; [done |].
    intros _ _. by rewrite Ht2. }
  intros Hloop. exists reads.
  pose proof Hloop as (Hkv3 & writes & Hc3 & Hwrites)%UpdateJobExecutions_loop_writes.
  exists writes. split; [exact Hrun |]. split; [by rewrite Hkv3, Hkv2 |].
  split; [by rewrite Hc3, Hc2, Hc1, <- !app_assoc |]. split; [done |]. split; [done |].
  intros e ->. by apply UpdateJobExecutions_loop_error in Hloop as [e0 [=]].
Qed.

(** ** Updates keep the set of records *)
Section SameRecords.
Implicit Types (w : world) (t : table) (d jes : doc) (db : gmap string table).

Lemma same_records_refl tbl db : same_records tbl db db.
Proof. by split. Qed.

Lemma same_records_trans tbl db1 db2 db3 :
  same_records tbl db1 db2 → same_records tbl db2 db3 → same_records tbl db1 db3.
Proof.
  intros [Ht1 Hr1] [Ht2 Hr2]. split.
  - intros tbl' Hne. by rewrite Ht2, Ht1.
  - intros id. by rewrite Hr2, Hr1.
Qed.

Lemma serve_update_same_records tbl key f bad db r db' :
  Rethink.serve (Rethink.GetUpdate tbl key f) bad db = (r, db') →
  same_records tbl db db'.
Proof.
  unfold Rethink.serve.
  destruct (db !! tbl) as [t |] eqn:Ht; [| intros [= <- <-]; apply same_records_refl].
  destruct key as [[| id | n | l] |]; try (intros [= <- <-]; apply same_records_refl).
  destruct (Rethink.updateRow id f bad t) as [wr t'] eqn:Erow. intros [= <- <-].
  split; [by intros tbl' Hne; rewrite lookup_insert_ne |].
  intros id'. unfold Rethink.row. rewrite lookup_insert_eq, Ht.
  revert Erow. unfold Rethink.updateRow.
  destruct (t !! id) as [d |] eqn:Hd; [| by intros [= <- <-]].
  destruct (decide (id ∈ bad)); [by intros [= <- <-] |].
  destruct (f d) as [| patch | msg]; try (by intros [= <- <-]).
  destruct (decide (patch ∪ d = d)); intros [= <- <-]; [done |].
  destruct (decide (id' = id)) as [-> | Hne].
  - rewrite lookup_insert_eq, Hd. by split; intros _.
  - by rewrite lookup_insert_ne.
Qed.

Lemma RunWrite_update_same_records tbl key f w r w' :
  RunWrite (Rethink.GetUpdate tbl key f) w = Some (r, w') →
  same_records tbl (tables w) (tables w').
Proof.
  unfold RunWrite.
  assert (∀ bad, same_records tbl (tables w)
                   (Rethink.serve (Rethink.GetUpdate tbl key f) bad (tables w)).2) as Hserve.
  { intros bad. destruct (Rethink.serve _ bad (tables w)) as [r1 db] eqn:E.
    by apply serve_update_same_records in E. }
  destruct (head (rethink_net w)) as [[bad | applied e] |].
  - specialize (Hserve bad).
    destruct (Rethink.serve _ bad (tables w)) as [[e | wr] db]; [by intros [= <- <-] |].
    destruct (0 <? Errors wr); by intros [= <- <-].
  - intros [= <- <-]. cbn. destruct applied; [apply Hserve | apply same_records_refl].
  - specialize (Hserve []).
    destruct (Rethink.serve _ [] (tables w)) as [[e | wr] db]; [by intros [= <- <-] |].
    destruct (0 <? Errors wr); by intros [= <- <-].
Qed.

Lemma updateJobExecution_same_records jes w r w' :
  updateJobExecution jes w = Some (r, w') →
  same_records rethinkDbTableJobExecutions (tables w) (tables w').
Proof.
  unfold updateJobExecution, bind.
  destruct (execWrite _ _ w) as [[[wr e] w1] |] eqn:E; [| done].
  intros [= <- <-].
  eapply (execWrite_inv
            (λ w', same_records rethinkDbTableJobExecutions (tables w) (tables w'))
            (λ _, True)) in E; [apply E | done | | apply same_records_refl].
  intros w0 r0 e0 w2 Hw0 Hrun%RunWrite_update_same_records.
  split; [by eapply same_records_trans | done].
Qed.

Lemma UpdateJobExecutions_loop_same_records jess :
  ∀ count w r w',
    UpdateJobExecutions_loop jess count w = Some (r, w') →
    same_records rethinkDbTableJobExecutions (tables w) (tables w').
Proof.
  induction jess as [| jes jess IH]; intros count w r w'.
  - intros [= <- <-]. apply same_records_refl.
  - cbn [UpdateJobExecutions_loop]. unfold bind at 1.
    destruct (updateJobExecution jes w) as [[[replaced err] w1] |] eqn:E; [| done].
    apply updateJobExecution_same_records in E.
    destruct err as [e |]; [by intros [= <- <-] |].
    intros H%IH. by eapply same_records_trans.
Qed.

End SameRecords.

(** X17: whatever the cache holds and whatever the two stores do, a cycle
    of [UpdateJobExecutions] creates no record and deletes none: the job
    executions table has records under the same ids as before (a cached job
    execution without a record gets none), and no other table changed. *)
Theorem job_execution_cycle_keeps_the_records State_value w :
  ∃ r w',
    UpdateJobExecutions State_value w = Some (r, w')
    ∧ (∀ tbl, tbl ≠ rethinkDbTableJobExecutions → tables w' !! tbl = tables w !! tbl)
    ∧ ∀ id, is_Some (Rethink.row (tables w') rethinkDbTableJobExecutions id)
            ↔ is_Some (Rethink.row (tables w) rethinkDbTableJobExecutions id).
Proof.
  destruct (UpdateJobExecutions_total State_value w) as (r & w' & Hrun).
  exists r, w'. split; [exact Hrun |]. revert Hrun.
  unfold UpdateJobExecutions, getJobExecutionStatuses. unfold bind at 1 2.
  destruct (Client.Keys _ w) as [[[keys e0] w1] |] eqn:E1; [| done].
  apply Keys_read in E1 as (_ & (Ht1 & _) & _).
  destruct e0 as [e0 |]; [intros [= <- <-]; by rewrite Ht1 |].
  destruct (getJobExecutionStatuses_loop State_value keys [] w1)
    as [[[jess e1] w2] |] eqn:E2; [| done].
  apply getJobExecutionStatuses_loop_reads in E2 as (_ & Ht2 & _).
  destruct e1 as [e1 |]; [intros [= <- <-]; by rewrite Ht2, Ht1 |].
  intros H%UpdateJobExecutions_loop_same_records. by rewrite Ht2, Ht1 in H.
Qed.

(** X18: two edges of [updateJobExecution], when the durable store answers.
    A cached job execution that has no record (or whose id is a number) is
    passed over: the update returns 0 and no error, and nothing is stored.
    A record that has no [state] field makes the update fail with the error
    of the query, at the first attempt; the record is as it was. *)
Theorem job_execution_update_edges jes w t :
  tables w !! rethinkDbTableJobExecutions = Some t →
  clean 1 (rethink_net w) = true →
  (match jes !! "id" with
   | Some (VStr id) => t !! id = None
   | Some (VNum _) => True
   | _ => False
   end →
   ∃ w', updateJobExecution jes w = Some ((0, None), w') ∧ tables w' = tables w)
  ∧ ∀ id d,
      jes !! "id" = Some (VStr id) → t !! id = Some d → d !! "state" = None →
      ∃ w',
        updateJobExecution jes w
        = Some ((0, Some (Errorf "failed to %s after %d of %d attempts: %w"
                            [AStr "update-job-execution-status"; AInt 1;
                             AInt (maxRetries w + 1);
                             AErr (Errorf "%s" [AStr "No attribute `state` in object"])])),
                w')
        ∧ tables w' = tables w.
Proof.
  intros Ht Hclean. split.
  - intros Hid. unfold updateJobExecution, bind.
    assert (Rethink.serve
              (Rethink.GetUpdate rethinkDbTableJobExecutions (jes !! "id") (onlyIfActive jes))
              [] (tables w)
            = (inr (mkWriteResponse 0 0 0 1 0 ""), tables w)) as Hserve.
    { unfold Rethink.serve, Rethink.updateRow. rewrite Ht.
      destruct (jes !! "id") as [[| id | n | l] |]; try done.
      by rewrite Hid, insert_id. }
    rewrite (execWrite_clean _ _ _ _ _ Hclean Hserve) by done.
    by eexists.
  - intros id d Hid Hd Hst. unfold updateJobExecution, bind.
    assert (RunWrite
              (Rethink.GetUpdate rethinkDbTableJobExecutions (jes !! "id") (onlyIfActive jes))
              (World (kv w) (redis_net w) (tables w) (rethink_net w) (maxRetries w)
                 (calls w ++ [CRunWrite "update-job-execution-status"]))
            = Some ((Rethink.rowError "No attribute `state` in object" noResponse,
                     Some (Errorf "%s" [AStr "No attribute `state` in object"])),
                    World (kv w) (redis_net w) (tables w) (tail (rethink_net w))
                      (maxRetries w)
                      (calls w ++ [CRunWrite "update-job-execution-status"]))) as Hrun.
    { unfold RunWrite. cbn [rethink_net tables kv redis_net maxRetries calls].
      assert (Rethink.serve
                (Rethink.GetUpdate rethinkDbTableJobExecutions (jes !! "id")
                   (onlyIfActive jes)) [] (tables w)
              = (inr (Rethink.rowError "No attribute `state` in object" noResponse),
                 tables w)) as Hserve.
      { unfold Rethink.serve, Rethink.updateRow. rewrite Ht, Hid, Hd.
        rewrite decide_False by (by intros ?%elem_of_nil).
        unfold onlyIfActive. by rewrite Hst, insert_id. }
      unfold clean in Hclean.
      destruct (rethink_net w) as [| [[| b bad] | applied e0] net]; try done;
        cbn [head]; by rewrite Hserve. }
    assert (∀ applied e,
              head (rethink_net w) = Some (Broken applied e) → retryable e = false) as Hhead.
    { intros applied e. unfold clean in Hclean.
      by destruct (rethink_net w) as [| [[| b bad] | applied' e0] net]. }
    unfold execWrite. rewrite (execWithRetry_once _ _ w _ _ _ Hrun); [by eexists | done |].
    intros e [= <-]. eapply RunWrite_error_not_retried; [| exact Hrun]. exact Hhead.
Qed.

Lemma job_execution_update_edges_witness :
  (∃ w',
      updateJobExecution {[ "id" := VStr "z"; "documentsCrawled" := VNum 5 ]}
        Example.finishedJob = Some ((0, None), w')
      ∧ tables w' = tables Example.finishedJob)
  ∧ ∃ w',
      updateJobExecution {[ "id" := VStr "a" ]} Scenario.noState
      = Some ((0, Some (Errorf "failed to %s after %d of %d attempts: %w"
                          [AStr "update-job-execution-status"; AInt 1; AInt 4;
                           AErr (Errorf "%s" [AStr "No attribute `state` in object"])])),
              w')
      ∧ tables w' = tables Scenario.noState.
Proof.
  split.
  - destruct (job_execution_update_edges
                {[ "id" := VStr "z"; "documentsCrawled" := VNum 5 ]} Example.finishedJob
                {[ "a" := {[ "id" := VStr "a"; "state" := VStr "FINISHED";
                             "documentsCrawled" := VNum 4 ]} ]})
      as [Hskip _]; [vm_compute; reflexivity | vm_compute; reflexivity |].
    apply Hskip. vm_compute. reflexivity.
  - destruct (job_execution_update_edges {[ "id" := VStr "a" ]} Scenario.noState
                {[ "a" := {[ "id" := VStr "a" ]} ]})
      as [_ Hfail]; [vm_compute; reflexivity | vm_compute; reflexivity |].
    apply (Hfail "a" {[ "id" := VStr "a" ]}); vm_compute; reflexivity.
Defined.

(** ** From the running queue to the record *)
Lemma moveChg_served_stores fromQueue toQueue now w n w1 :
  holds_zset (kv w) fromQueue = true →
  holds_list (kv w) toQueue = true →
  served 1 (redis_net w) = true →
  moveChg fromQueue toQueue now w = Some ((n, None), w1) →
  holds_zset (kv w1) fromQueue = true
  ∧ holds_list (kv w1) toQueue = true
  ∧ rethink_net w1 = rethink_net w.
Proof.
  intros Hz Hl Hnet Hrun.
  pose proof (chg_delayed_queue_types fromQueue toQueue now (kv w) Hz Hl) as Hty.
  unfold moveChg, Client.RunMoveScript in Hrun.
  rewrite roundtrip_served in Hrun by done.
  destruct (Lua.chg_delayed_queue fromQueue toQueue now (kv w)) as [[e | n'] kv1];
    [done |].
  injection Hrun as _ <-. cbn [kv rethink_net]. by destruct Hty.
Qed.

(** X19: the two workers for crawl executions, one after the other, with
    both stores answering: every crawl execution of the running queue that
    is due at [now], and every one that was waiting in the timeout queue, has
    its record marked for abortion unless it has an end time; the running
    queue keeps the ones that are not due, the timeout queue is empty, no
    other record changed, and neither worker reports an error. *)
Theorem due_crawl_executions_are_timed_out now w t :
  holds_zset (kv w) redisCrawlExecutionRunningQueue = true →
  holds_list (kv w) redisCrawlExecutionTimeoutQueue = true →
  zset_ok (zset_at (kv w) redisCrawlExecutionRunningQueue) = true →
  tables w !! rethinkDbTableCrawlExecutions = Some t →
  served (2 + length (list_at (kv w) redisCrawlExecutionTimeoutQueue
                      ++ (List.filter (in_range 0 now)
                            (zset_at (kv w) redisCrawlExecutionRunningQueue)).*1))
    (redis_net w) = true →
  clean (length (list_at (kv w) redisCrawlExecutionTimeoutQueue
                 ++ (List.filter (in_range 0 now)
                       (zset_at (kv w) redisCrawlExecutionRunningQueue)).*1))
    (rethink_net w) = true →
  ∃ w1 w2 t',
    workers.crawlExecutionRunningQueueWorker now w = Some (None, w1)
    ∧ workers.crawlExecutionTimeoutQueueWorker w1 = Some (None, w2)
    ∧ zset_at (kv w2) redisCrawlExecutionRunningQueue
      = List.filter (λ e, negb (in_range 0 now e))
          (zset_at (kv w) redisCrawlExecutionRunningQueue)
    ∧ list_at (kv w2) redisCrawlExecutionTimeoutQueue = []
    ∧ tables w2 !! rethinkDbTableCrawlExecutions = Some t'
    ∧ ∀ id, t' !! id
            = if decide (id ∈ list_at (kv w) redisCrawlExecutionTimeoutQueue
                              ++ (List.filter (in_range 0 now)
                                    (zset_at (kv w) redisCrawlExecutionRunningQueue)).*1)
              then abortTimedOut <$> t !! id else t !! id.
Proof.
  intros Hz Hl Hok Ht Hnet Hclean.
  assert (served 1 (redis_net w) = true) as Hnet1.
  { unfold served in *. by destruct (redis_net w) as [| [e |] net]. }
  apply served_head in Hnet as [_ Hnet].
  destruct (moveChg_served redisCrawlExecutionRunningQueue redisCrawlExecutionTimeoutQueue
              now w)
    as (w1 & Hmove & Hfrom1 & Hto1 & Hfr1 & Hnet1' & Htbl1);
    [done | done | by apply zset_ok_NoDup | done |].
  destruct (moveChg_served_stores _ _ _ _ _ _ Hz Hl Hnet1 Hmove) as (Hz1 & Hl1 & Hrn1).
  destruct (TimeoutCrawlExecutions_loop_drains
              (list_at (kv w1) redisCrawlExecutionTimeoutQueue)
              (S (length (list_at (kv w1) redisCrawlExecutionTimeoutQueue))) 0 w1 t)
    as (w2 & t' & Hrun & Hq & Ht' & Hrows & _ & Hfr2).
  { done. }
  { done. }
  { by rewrite Htbl1. }
  { by rewrite Hnet1', Hto1. }
  { by rewrite Hrn1, Hto1. }
  { lia. }
  exists w1, w2, t'.
  split.
  { unfold workers.crawlExecutionRunningQueueWorker, MoveRunningToTimeout, bind.
    by rewrite Hmove. }
  split.
  { unfold workers.crawlExecutionTimeoutQueueWorker, TimeoutCrawlExecutions, bind.
    by rewrite Hrun. }
  split.
  { rewrite <- Hfrom1. apply zset_at_other, Hfr2. done. }
  split; [done |]. split; [done |].
  intros id. rewrite Hrows. by rewrite Hto1.
Qed.

Lemma due_crawl_executions_are_timed_out_witness :
  ∃ w1 w2 t',
    workers.crawlExecutionRunningQueueWorker 150 Scenario.runningDue = Some (None, w1)
    ∧ workers.crawlExecutionTimeoutQueueWorker w1 = Some (None, w2)
    ∧ zset_at (kv w2) redisCrawlExecutionRunningQueue = [("C3", 200)]
    ∧ list_at (kv w2) redisCrawlExecutionTimeoutQueue = []
    ∧ tables w2 !! rethinkDbTableCrawlExecutions = Some t'
    ∧ t' !! "C2" = Some {[ "id" := VStr "C2"; "desiredState" := VStr "ABORTED_TIMEOUT" ]}
    ∧ t' !! "C3" = Some {[ "id" := VStr "C3" ]}.
Proof.
  destruct (due_crawl_executions_are_timed_out 150 Scenario.runningDue
              {[ "C1" := {[ "id" := VStr "C1" ]}; "C2" := {[ "id" := VStr "C2" ]};
                 "C3" := {[ "id" := VStr "C3" ]} ]})
    as (w1 & w2 & t' & Hrun1 & Hrun2 & Hfrom & Hq & Ht' & Hrows);
    [vm_compute; reflexivity | vm_compute; reflexivity | vm_compute; reflexivity
    | vm_compute; reflexivity | vm_compute; reflexivity | vm_compute; reflexivity |].
  exists w1, w2, t'.
  split; [exact Hrun1 |]. split; [exact Hrun2 |].
  split; [rewrite Hfrom; vm_compute; reflexivity |].
  split; [exact Hq |]. split; [exact Ht' |].
  split; rewrite Hrows; vm_compute; reflexivity.
Defined.
